(** * Shallow embedding of the Q1 finite-volume-element residual kernels

  Sources embedded here:
  - [src/c/ch11/ice.c]: the time-dependent, periodic ice-sheet code
    (module [Ice]);
  - [src/c/ch12/dnl.c]: the fixed-boundary doubly-nonlinear obstacle code
    (module [Dnl]).

  Conventions of the embedding.
  - A C [double] is a real number of [R]: arithmetic is exact, and there
    is neither rounding nor infinities nor NaN.  Comparisons of doubles
    are decided with [Rle_dec] and [Rlt_dec].
  - A [PetscInt] or [int] is a [Z]; a [PetscBool] is a [bool].
  - A ghosted DMDA array [double **a], read as [a[k][j]], is a function
    [Z -> Z -> R] applied as [a k j]; an assignment [a[k][j] = v] is the
    functional update [upd2 a k j v].
  - A [for] loop over an integer range is [for_pure] (a body that cannot
    fail) or [for_res] (a body that may return early with an error).
  - A function returning [PetscErrorCode] that can fail returns [Res]:
    [Ok] for code 0, [Err] for a [SETERRQ] with its code and message
    arguments, [Segv] for an access through a pointer that designates no
    object: a null pointer, or an automatic pointer that no statement
    assigns before it is dereferenced. *)

From Stdlib Require Import Reals ZArith List Lia Lra Bool String.
Import ListNotations.

Open Scope Z_scope.
Open Scope R_scope.

(** ** PETSc primitives shared by the two programs *)

Module Petsc.

Definition PetscAbsReal (a : R) : R := Rabs a.

(** [PetscPowReal] is the C library [pow].  The programs only call it with
    a base that is an absolute value or a regularised sum of squares, so
    the base is never negative.  For a positive base it is [Rpower]; at
    base zero it is 1 for exponent zero and 0 for a positive exponent.
    For base zero and a negative exponent the C library returns
    +infinity, which has no counterpart in [R]: the model's value 0 there
    is a convention. *)
Definition PetscPowReal (a b : R) : R :=
  if Req_dec_T a 0
  then (if Req_dec_T b 0 then 1 else 0)
  else Rpower a b.

(** [PetscSqrtReal] is the C library [sqrt]; the programs call it with
    arguments that are not negative. *)
Definition PetscSqrtReal (a : R) : R := sqrt a.

(** Comparisons of doubles yielding a [PetscBool]. *)
Definition Rgtb (a b : R) : bool := if Rlt_dec b a then true else false.
Definition Rleb (a b : R) : bool := if Rle_dec a b then true else false.
Definition Rltb (a b : R) : bool := if Rlt_dec a b then true else false.

(** Arguments printed by a [SETERRQn] message. *)
Inductive ErrArg : Type :=
| ArgReal (r : R)
| ArgInt (z : Z).

Record PetscError : Type := mkPetscError {
  errcode : Z;
  errfmt : string;
  errargs : list ErrArg
}.

Inductive Res (A : Type) : Type :=
| Ok (a : A)
| Err (e : PetscError)
| Segv.
Arguments Ok {A} a.
Arguments Err {A} e.
Arguments Segv {A}.

Definition bind {A B : Type} (m : Res A) (f : A -> Res B) : Res B :=
  match m with
  | Ok a => f a
  | Err e => Err e
  | Segv => Segv
  end.

(** Two-dimensional and three-dimensional arrays of doubles. *)
Definition Array2 : Type := Z -> Z -> R.
Definition Array3 : Type := Z -> Z -> Z -> R.

Definition upd2 (a : Array2) (k j : Z) (v : R) : Array2 :=
  fun k' j' => if (k' =? k)%Z && (j' =? j)%Z then v else a k' j'.

Definition upd3 (a : Array3) (i k j : Z) (v : R) : Array3 :=
  fun i' k' j' =>
    if (i' =? i)%Z && (k' =? k)%Z && (j' =? j)%Z then v else a i' k' j'.

(** [for (i = lo; i < hi; i++) s = body i s]. *)
Fixpoint iter_pure {S : Type} (n : nat) (i : Z) (body : Z -> S -> S) (s : S)
  : S :=
  match n with
  | O => s
  | Datatypes.S n' => iter_pure n' (i + 1)%Z body (body i s)
  end.

Definition for_pure {S : Type} (lo hi : Z) (body : Z -> S -> S) (s : S) : S :=
  iter_pure (Z.to_nat (hi - lo)) lo body s.

(** The same loop with a body that may return early. *)
Fixpoint iter_res {S : Type} (n : nat) (i : Z) (body : Z -> S -> Res S)
  (s : S) : Res S :=
  match n with
  | O => Ok s
  | Datatypes.S n' => bind (body i s) (iter_res n' (i + 1)%Z body)
  end.

Definition for_res {S : Type} (lo hi : Z) (body : Z -> S -> Res S) (s : S)
  : Res S :=
  iter_res (Z.to_nat (hi - lo)) lo body s.

(** A pointer to a ghosted array is an [option]: [Some a] designates an
    array whose contents are [a], [None] designates no array.  A read or a
    store through [None] is a fault. *)
Definition deref2 {A : Type} (p : option Array2) (f : Array2 -> A) : Res A :=
  match p with
  | Some a => Ok (f a)
  | None => Segv
  end.

(** [p[k][j]] as an rvalue. *)
Definition read2 (p : option Array2) (k j : Z) : Res R :=
  deref2 p (fun a => a k j).

(** [p[k][j] = v]. *)
Definition write2 (p : option Array2) (k j : Z) (v : R)
  : Res (option Array2) :=
  match p with
  | Some a => Ok (Some (upd2 a k j v))
  | None => Segv
  end.

(** [p[i][k][j]] as an rvalue. *)
Definition read3 (p : option Array3) (i k j : Z) : Res R :=
  match p with
  | Some a => Ok (a i k j)
  | None => Segv
  end.

(** [p[i][k][j] = v]. *)
Definition write3 (p : option Array3) (i k j : Z) (v : R)
  : Res (option Array3) :=
  match p with
  | Some a => Ok (Some (upd3 a i k j v))
  | None => Segv
  end.

(** Read of a constant C table [t[i]]. *)
Definition tabR (t : list R) (i : Z) : R := nth (Z.to_nat i) t 0.
Definition tabZ (t : list Z) (i : Z) : Z := nth (Z.to_nat i) t 0%Z.
Definition tabB (t : list bool) (i : Z) : bool := nth (Z.to_nat i) t false.

(** [DMDALocalInfo]: global node counts and the locally owned range. *)
Record DMDALocalInfo : Type := mkInfo {
  mx : Z; my : Z;
  xs : Z; ys : Z;
  xm : Z; ym : Z
}.

End Petsc.

Import Petsc.

Notation "x <- m ;; f" := (bind m (fun x => f))
(at level 61, m at next level, right associativity).

(** ** [src/c/ch11/ice.c] *)

Module Ice.

Record CMBModel : Type := mkCMBModel {
  ela : R;    (* equilibrium line altitude (m) *)
  zgrad : R   (* vertical derivative (gradient) of CMB (s^-1) *)
}.

(** [cmb] is a pointer: [None] is [NULL]. *)
Record AppCtx : Type := mkAppCtx {
  L : R;
  tf : R;
  secpera : R;
  g : R;
  rho_ice : R;
  n_ice : R;
  A_ice : R;
  Gamma : R;
  D0 : R;
  eps : R;
  delta : R;
  lambda : R;
  initmagic : R;
  cmb : option CMBModel
}.

(** Field assignments [user->f = v]. *)
Definition set_L (u : AppCtx) (v : R) : AppCtx :=
  mkAppCtx v (tf u) (secpera u) (g u) (rho_ice u) (n_ice u) (A_ice u)
    (Gamma u) (D0 u) (eps u) (delta u) (lambda u) (initmagic u) (cmb u).
Definition set_secpera (u : AppCtx) (v : R) : AppCtx :=
  mkAppCtx (L u) (tf u) v (g u) (rho_ice u) (n_ice u) (A_ice u)
    (Gamma u) (D0 u) (eps u) (delta u) (lambda u) (initmagic u) (cmb u).
Definition set_g (u : AppCtx) (v : R) : AppCtx :=
  mkAppCtx (L u) (tf u) (secpera u) v (rho_ice u) (n_ice u) (A_ice u)
    (Gamma u) (D0 u) (eps u) (delta u) (lambda u) (initmagic u) (cmb u).
Definition set_rho_ice (u : AppCtx) (v : R) : AppCtx :=
  mkAppCtx (L u) (tf u) (secpera u) (g u) v (n_ice u) (A_ice u)
    (Gamma u) (D0 u) (eps u) (delta u) (lambda u) (initmagic u) (cmb u).
Definition set_n_ice (u : AppCtx) (v : R) : AppCtx :=
  mkAppCtx (L u) (tf u) (secpera u) (g u) (rho_ice u) v (A_ice u)
    (Gamma u) (D0 u) (eps u) (delta u) (lambda u) (initmagic u) (cmb u).
Definition set_A_ice (u : AppCtx) (v : R) : AppCtx :=
  mkAppCtx (L u) (tf u) (secpera u) (g u) (rho_ice u) (n_ice u) v
    (Gamma u) (D0 u) (eps u) (delta u) (lambda u) (initmagic u) (cmb u).
Definition set_Gamma (u : AppCtx) (v : R) : AppCtx :=
  mkAppCtx (L u) (tf u) (secpera u) (g u) (rho_ice u) (n_ice u) (A_ice u)
    v (D0 u) (eps u) (delta u) (lambda u) (initmagic u) (cmb u).
Definition set_D0 (u : AppCtx) (v : R) : AppCtx :=
  mkAppCtx (L u) (tf u) (secpera u) (g u) (rho_ice u) (n_ice u) (A_ice u)
    (Gamma u) v (eps u) (delta u) (lambda u) (initmagic u) (cmb u).
Definition set_eps (u : AppCtx) (v : R) : AppCtx :=
  mkAppCtx (L u) (tf u) (secpera u) (g u) (rho_ice u) (n_ice u) (A_ice u)
    (Gamma u) (D0 u) v (delta u) (lambda u) (initmagic u) (cmb u).
Definition set_delta (u : AppCtx) (v : R) : AppCtx :=
  mkAppCtx (L u) (tf u) (secpera u) (g u) (rho_ice u) (n_ice u) (A_ice u)
    (Gamma u) (D0 u) (eps u) v (lambda u) (initmagic u) (cmb u).
Definition set_lambda (u : AppCtx) (v : R) : AppCtx :=
  mkAppCtx (L u) (tf u) (secpera u) (g u) (rho_ice u) (n_ice u) (A_ice u)
    (Gamma u) (D0 u) (eps u) (delta u) v (initmagic u) (cmb u).
Definition set_initmagic (u : AppCtx) (v : R) : AppCtx :=
  mkAppCtx (L u) (tf u) (secpera u) (g u) (rho_ice u) (n_ice u) (A_ice u)
    (Gamma u) (D0 u) (eps u) (delta u) (lambda u) v (cmb u).
Definition set_cmb (u : AppCtx) (v : option CMBModel) : AppCtx :=
  mkAppCtx (L u) (tf u) (secpera u) (g u) (rho_ice u) (n_ice u) (A_ice u)
    (Gamma u) (D0 u) (eps u) (delta u) (lambda u) (initmagic u) v.

(** The options database, already parsed: [None] when the flag is absent.
    The first five carry the prefix [ice_], the last two the prefix
    [cmb_]. *)
Record Options : Type := mkOptions {
  opt_A : option R;
  opt_delta : option R;
  opt_initmagic : option R;
  opt_lambda : option R;
  opt_n : option R;
  opt_ela : option R;
  opt_zgrad : option R
}.

(** [PetscOptionsReal(name,...,current,&var,NULL)]: the variable keeps its
    current value unless the flag is given. *)
Definition PetscOptionsReal (o : option R) (current : R) : R :=
  match o with
  | Some v => v
  | None => current
  end.

(** [user] on entry is the caller's uninitialised struct; the field [tf]
    is never assigned. *)
Definition SetFromOptionsAppCtx (opts : Options) (user : AppCtx)
  : Res AppCtx :=
  let user := set_L user 3.0 in
  let user := set_n_ice user 3.0 in
  let user := set_g user 9.81 in
  let user := set_rho_ice user 910.0 in
  let user := set_secpera user 31556926.0 in
  let user := set_A_ice user (1.0e-16 / secpera user) in
  let user := set_initmagic user 1000.0 in
  let user := set_delta user 1.0e-4 in
  let user := set_lambda user 0.25 in
  let user := set_cmb user None in
  let user := set_L user 900.0e3 in
  let user := set_D0 user 10.0 in
  let user := set_eps user 0.001 in
  let user := set_A_ice user (PetscOptionsReal (opt_A opts) (A_ice user)) in
  let user := set_delta user (PetscOptionsReal (opt_delta opts) (delta user)) in
  let user :=
    set_initmagic user
      (PetscOptionsReal (opt_initmagic opts) (initmagic user)) in
  let user :=
    set_lambda user (PetscOptionsReal (opt_lambda opts) (lambda user)) in
  let user := set_n_ice user (PetscOptionsReal (opt_n opts) (n_ice user)) in
  if Rleb (n_ice user) 1.0
  then Err (mkPetscError 11
              "ERROR: n = %f not allowed ... n > 1 is required"
              [ArgReal (n_ice user)])
  else
    let user :=
      set_Gamma user
        (2.0 * PetscPowReal (rho_ice user * g user) (n_ice user)
         * A_ice user / (n_ice user + 2.0)) in
    Ok user.

Definition SetFromOptionsCMBModel (opts : Options) (secpera : R) : CMBModel :=
  let cmb := mkCMBModel 2000.0 0.001 in
  let cmb := mkCMBModel (PetscOptionsReal (opt_ela opts) (ela cmb)) (zgrad cmb) in
  let cmb := mkCMBModel (ela cmb) (PetscOptionsReal (opt_zgrad opts) (zgrad cmb)) in
  mkCMBModel (ela cmb) (zgrad cmb / secpera).

(** [*M = cmb->zgrad * (s - cmb->ela)]. *)
Definition M_CMBModel (cmb : CMBModel) (s : R) : R :=
  zgrad cmb * (s - ela cmb).

Definition dMdH_CMBModel (cmb : CMBModel) (s : R) : R := zgrad cmb.

(** The calls [main] makes to PETSc and to [ChopScaleCMBforInitialH], which
    [ice.c] declares and does not define, in order; each is taken to
    succeed.  [EvDMSetApplicationContext] carries
    the context that [main] registers. *)
Inductive Event : Type :=
| EvPetscInitialize
| EvDMDACreate2d
| EvDMSetFromOptions
| EvDMSetUp
| EvDMSetApplicationContext (user : AppCtx)
| EvDMDAGetLocalInfo
| EvDMDASetUniformCoordinates
| EvPetscPrintf
| EvDMCreateGlobalVector
| EvPetscObjectSetName
| EvVecDuplicate
| EvChopScaleCMBforInitialH
| EvTSCreate
| EvTSSetProblemType
| EvTSSetType
| EvTSSetDM
| EvDMDATSSetIFunctionLocal
| EvDMDATSSetRHSFunctionLocal
| EvTSGetSNES
| EvSNESSetType
| EvSNESVISetComputeVariableBounds
| EvTSSetExactFinalTime
| EvTSSetInitialTimeStep
| EvTSSetDuration
| EvTSSetFromOptions
| EvVecCopy
| EvTSSolve
| EvVecDestroy
| EvTSDestroy
| EvDMDestroy
| EvPetscFinalize.

(** [main]: the events performed and the value returned.  A failing
    [SetFromOptionsAppCtx] returns through [CHKERRQ] at once.  The return
    code of [SetFromOptionsCMBModel] is not checked. *)
Definition main (opts : Options) (user0 : AppCtx)
  : list Event * Res unit :=
  match SetFromOptionsAppCtx opts user0 with
  | Ok user =>
      let cmb := SetFromOptionsCMBModel opts (secpera user) in
      let user := set_cmb user (Some cmb) in
      ([EvPetscInitialize; EvDMDACreate2d; EvDMSetFromOptions; EvDMSetUp;
        EvDMSetApplicationContext user; EvDMDAGetLocalInfo;
        EvDMDASetUniformCoordinates; EvPetscPrintf; EvDMCreateGlobalVector;
        EvPetscObjectSetName; EvVecDuplicate; EvPetscObjectSetName;
        EvVecDuplicate; EvChopScaleCMBforInitialH; EvTSCreate;
        EvTSSetProblemType; EvTSSetType; EvTSSetDM;
        EvDMDATSSetIFunctionLocal; EvDMDATSSetRHSFunctionLocal; EvTSGetSNES;
        EvSNESSetType; EvSNESVISetComputeVariableBounds;
        EvTSSetExactFinalTime; EvTSSetInitialTimeStep; EvTSSetDuration;
        EvTSSetFromOptions; EvVecCopy; EvTSSolve; EvVecDestroy; EvVecDestroy;
        EvVecDestroy; EvTSDestroy; EvDMDestroy; EvPetscFinalize], Ok tt)
  | Err e => ([EvPetscInitialize], Err e)
  | Segv => ([EvPetscInitialize], Segv)
  end.

(** Value of gradient at a point. *)
Record Grad : Type := mkGrad { x : R; y : R }.

Definition getdelta (gH gb : Grad) (user : AppCtx) : R :=
  let n := n_ice user in
  if Rgtb n 1.0 then
    let sx := x gH + x gb in
    let sy := y gH + y gb in
    let slopesqr := sx * sx + sy * sy + delta user * delta user in
    Gamma user * PetscPowReal slopesqr ((n - 1.0) / 2)
  else Gamma user.

Definition getW (delta : R) (gb : Grad) : Grad :=
  mkGrad (- delta * x gb) (- delta * y gb).

(** D(eps)=(1-eps) delta H^{n+2} + eps D_0 *)
Definition DCS (delta H n eps D0 : R) : R :=
  (1.0 - eps) * delta * PetscPowReal (PetscAbsReal H) (n + 2.0) + eps * D0.

Definition getflux (gH gb : Grad) (H Hup : R) (xdir : bool) (user : AppCtx)
  : R :=
  let n := n_ice user in
  let delta := getdelta gH gb user in
  let myD := DCS delta H n (eps user) (D0 user) in
  let myW := getW delta gb in
  if xdir
  then - myD * x gH + x myW * PetscPowReal (PetscAbsReal Hup) (n + 2.0)
  else - myD * y gH + y myW * PetscPowReal (PetscAbsReal Hup) (n + 2.0).

(** Gradients of weights for the Q^1 interpolant. *)
Definition gx : list R := [-1.0; 1.0; 1.0; -1.0].
Definition gy : list R := [-1.0; -1.0; 1.0; 1.0].

Definition fieldatpt (u v : Z) (xi eta : R) (f : Array2) : R :=
  let x := [1.0 - xi; xi; xi; 1.0 - xi] in
  let y := [1.0 - eta; 1.0 - eta; eta; eta] in
  tabR x 0 * tabR y 0 * f v u
  + tabR x 1 * tabR y 1 * f v (u + 1)%Z
  + tabR x 2 * tabR y 2 * f (v + 1)%Z (u + 1)%Z
  + tabR x 3 * tabR y 3 * f (v + 1)%Z u.

Definition gradfatpt (u v : Z) (xi eta dx dy : R) (f : Array2) : Grad :=
  let x := [1.0 - xi; xi; xi; 1.0 - xi] in
  let y := [1.0 - eta; 1.0 - eta; eta; eta] in
  let gradf_x :=
    tabR gx 0 * tabR y 0 * f v u
    + tabR gx 1 * tabR y 1 * f v (u + 1)%Z
    + tabR gx 2 * tabR y 2 * f (v + 1)%Z (u + 1)%Z
    + tabR gx 3 * tabR y 3 * f (v + 1)%Z u in
  let gradf_y :=
    tabR x 0 * tabR gy 0 * f v u
    + tabR x 1 * tabR gy 1 * f v (u + 1)%Z
    + tabR x 2 * tabR gy 2 * f (v + 1)%Z (u + 1)%Z
    + tabR x 3 * tabR gy 3 * f (v + 1)%Z u in
  mkGrad (gradf_x / dx) (gradf_y / dy).

(** Point s=0,...,7 on the boundary of the control volume of node (j,k) is
    in element (j+je[s],k+ke[s]), at that element's point ce[s]. *)
Definition je : list Z := [0; 0; -1; -1; -1; -1; 0; 0]%Z.
Definition ke : list Z := [0; 0; 0; 0; -1; -1; -1; -1]%Z.
Definition ce : list Z := [0; 3; 1; 0; 2; 1; 3; 2]%Z.

(** Direction of flux at the 4 points in each element. *)
Definition xdire : list bool := [true; false; true; false].

(** Local (element-wise) coordinates of the quadrature points. *)
Definition locx : list R := [0.5; 0.75; 0.5; 0.25].
Definition locy : list R := [0.25; 0.5; 0.75; 0.5].

(** Contents of three arrays for the pointers [am], [ab] and [aqquad] of
    [FormIFunctionLocal_with] to designate.  [aqquad0 k j c] is
    [aqquad[k][j][c]]. *)
Record Locals : Type := mkLocals {
  am0 : Array2;
  ab0 : Array2;
  aqquad0 : Array3
}.

Definition coeff (dx dy : R) : list R :=
  [dy / 2; dx / 2; dx / 2; - dy / 2; - dy / 2; - dx / 2; - dx / 2; dy / 2].

(** The pair [(lxup,lyup)] computed in the branch [if (upwind)] at point
    [c] of an element: the local coordinates where [Hup] is sampled. *)
Definition up_point (user : AppCtx) (c : Z) (gb : Grad) : R * R :=
  let upmin := (1.0 - lambda user) * 0.5 in
  let upmax := (1.0 + lambda user) * 0.5 in
  let lxup := tabR locx c in
  let lyup := tabR locy c in
  if tabB xdire c
  then ((if Rle_dec (x gb) 0.0 then upmin else upmax), lyup)
  else (lxup, (if Rle_dec (y gb) 0.0 then upmin else upmax)).

(** The upwinded thickness [Hup] at point [c] of element [(j,k)]. *)
Definition Hup_at (user : AppCtx) (aH : Array2) (j k c : Z) (gb : Grad)
  (H : R) : R :=
  let upwind := Rgtb (lambda user) 0.0 in
  if upwind then
    let lup := up_point user c gb in
    fieldatpt j k (fst lup) (snd lup) aH
  else H.

(** The flux computed at point [c] of element [(j,k)] from the thickness
    array [aH] and a bed array [ab]: the right-hand side of the assignment
    to [aqquad[k][j][c]]. *)
Definition flux_at (user : AppCtx) (dx dy : R) (aH ab : Array2)
  (k j c : Z) : R :=
  let H := fieldatpt j k (tabR locx c) (tabR locy c) aH in
  let gH := gradfatpt j k (tabR locx c) (tabR locy c) dx dy aH in
  let gb := gradfatpt j k (tabR locx c) (tabR locy c) dx dy ab in
  let Hup := Hup_at user aH j k c gb H in
  getflux gH gb H Hup (tabB xdire c) user.

(** The three loop nests over arrays: what they compute when the pointers
    [ab], [aqquad] and [am] designate the arrays given here.

    First loop nest: fluxes at the points c = 0,1,2,3 of the locally
    owned elements, ghosts included. *)
Definition flux_loop (info : DMDALocalInfo) (user : AppCtx) (dx dy : R)
  (aH ab : Array2) (aqquad : Array3) : Array3 :=
  for_pure (ys info - 1) (ys info + ym info) (fun k aqquad =>
    for_pure (xs info - 1) (xs info + xm info) (fun j aqquad =>
      for_pure 0 4 (fun c aqquad =>
        upd3 aqquad k j c (flux_at user dx dy aH ab k j c)) aqquad)
    aqquad) aqquad.

(** Second loop nest, run when [user->cmb != NULL]. *)
Definition cmb_loop (info : DMDALocalInfo) (user : AppCtx)
  (aH ab am : Array2) : Array2 :=
  match cmb user with
  | Some cmb =>
      for_pure (ys info) (ys info + ym info) (fun k am =>
        for_pure (xs info) (xs info + xm info) (fun j am =>
          upd2 am k j (M_CMBModel cmb (ab k j + aH k j))) am) am
  | None => am
  end.

(** Third loop nest: the residual at the owned nodes. *)
Definition residual_loop (info : DMDALocalInfo) (dx dy : R)
  (am : Array2) (aqquad : Array3) (FF : Array2) : Array2 :=
  for_pure (ys info) (ys info + ym info) (fun k FF =>
    for_pure (xs info) (xs info + xm info) (fun j FF =>
      let FF := upd2 FF k j (- am k j * dx * dy) in
      for_pure 0 8 (fun s FF =>
        upd2 FF k j
          (FF k j
           + tabR (coeff dx dy) s
             * aqquad (k + tabZ ke s)%Z (j + tabZ je s)%Z (tabZ ce s)))
        FF) FF) FF.

(** The statements of [FormIFunctionLocal], from [PetscFunctionBeginUser]
    to [PetscFunctionReturn(0)], run with the values [am], [ab] and
    [aqquad] of the three local pointers: the residual array on return, or
    the fault of an access through a pointer that designates no array.
    The arrays [aH], [aHdot] and [FF] are the caller's; an array that one
    of the three pointers designates is an object of its own, apart from
    the caller's arrays and from the arrays of the other two. *)
Definition FormIFunctionLocal_with (info : DMDALocalInfo) (t : R)
  (aH aHdot FF : Array2) (user : AppCtx)
  (am ab : option Array2) (aqquad : option Array3) : Res Array2 :=
  let dx := L user / IZR (mx info) in
  let dy := L user / IZR (my info) in
  aqquad <-
    for_res (ys info - 1) (ys info + ym info) (fun k aqquad =>
      for_res (xs info - 1) (xs info + xm info) (fun j aqquad =>
        for_res 0 4 (fun c aqquad =>
          let H := fieldatpt j k (tabR locx c) (tabR locy c) aH in
          let gH := gradfatpt j k (tabR locx c) (tabR locy c) dx dy aH in
          gb <- deref2 ab (gradfatpt j k (tabR locx c) (tabR locy c) dx dy) ;;
          let Hup := Hup_at user aH j k c gb H in
          write3 aqquad k j c (getflux gH gb H Hup (tabB xdire c) user))
        aqquad) aqquad) aqquad ;;
  am <-
    match cmb user with
    | Some cmb =>
        for_res (ys info) (ys info + ym info) (fun k am =>
          for_res (xs info) (xs info + xm info) (fun j am =>
            b <- read2 ab k j ;;
            write2 am k j (M_CMBModel cmb (b + aH k j))) am) am
    | None => Ok am
    end ;;
  for_res (ys info) (ys info + ym info) (fun k FF =>
    for_res (xs info) (xs info + xm info) (fun j FF =>
      m <- read2 am k j ;;
      let FF := upd2 FF k j (- m * dx * dy) in
      for_res 0 8 (fun s FF =>
        q <- read3 aqquad (k + tabZ ke s)%Z (j + tabZ je s)%Z (tabZ ce s) ;;
        Ok (upd2 FF k j (FF k j + tabR (coeff dx dy) s * q))) FF) FF) FF.

(** [FormIFunctionLocal(info,t,aH,aHdot,FF,user)].  The function declares
    [double **am, **ab, ***aqquad;] and no statement assigns them: on
    entry to the first loop nest the three pointers designate no array. *)
Definition FormIFunctionLocal (info : DMDALocalInfo) (t : R)
  (aH aHdot FF : Array2) (user : AppCtx) : Res Array2 :=
  FormIFunctionLocal_with info t aH aHdot FF user None None None.

End Ice.

(** ** [src/c/ch12/dnl.c] *)

Module Dnl.

(** Modelled from the spec: the type [CMBModel] comes from [ice.h], which
    is not among the sources; the spec gives its two parameters, the
    equilibrium line altitude and the vertical gradient. *)
Record CMBModel : Type := mkCMBModel {
  ela : R;
  zgrad : R
}.

(** The struct as declared in [dnl.c], followed by the fields that the
    functions of [dnl.c] read through [user->] although the declaration
    in this file lacks them ([L], [verif], [Gamma], [n_ice], [cmb]). *)
Record AppCtx : Type := mkAppCtx {
  C : R;
  q : R;
  p : R;
  D0 : R;
  eps : R;
  delta : R;
  lambda : R;
  check_admissible : bool;
  psi : R -> R -> R;
  bed : R -> R -> R;
  L : R;
  verif : bool;
  Gamma : R;
  n_ice : R;
  cmb : option CMBModel
}.

(** z = hemisphere(x,y), the obstacle of the classical obstacle problem. *)
Definition hemisphere (x y : R) : R :=
  let r := x * x + y * y in
  let r0 := 0.9 in
  let psi0 := PetscSqrtReal (1.0 - r0 * r0) in
  let dpsi0 := - r0 / psi0 in
  if Rle_dec r r0
  then PetscSqrtReal (1.0 - r)
  else psi0 + dpsi0 * (r - r0).

(** The obstacle is zero in the ice sheet case. *)
Definition zero (x y : R) : R := 0.0.

(** Bounds psi <= u < +infinity.  [xymin] and [xymax] are the corners of
    the bounding box returned by [DMDAGetBoundingBox]; [PETSC_INFINITY] is
    the PETSc constant; [aXl] is the array of the lower bound on entry.
    The result is the pair of the lower and the upper bound. *)
Definition FormBounds (PETSC_INFINITY : R) (info : DMDALocalInfo)
  (xymin xymax : list R) (user : AppCtx) (aXl : Array2) : Array2 * Array2 :=
  let dx := (tabR xymax 0 - tabR xymin 0) / IZR (mx info - 1) in
  let dy := (tabR xymax 1 - tabR xymin 1) / IZR (my info - 1) in
  let aXl :=
    for_pure (ys info) (ys info + ym info) (fun j aXl =>
      let y := tabR xymin 1 + IZR j * dy in
      for_pure (xs info) (xs info + xm info) (fun i aXl =>
        let x := tabR xymin 0 + IZR i * dx in
        upd2 aXl j i (psi user x y)) aXl) aXl in
  (aXl, fun _ _ => PETSC_INFINITY).

(** The bed elevation at the owned nodes. *)
Definition FormBed (info : DMDALocalInfo) (xymin xymax : list R)
  (user : AppCtx) (ab : Array2) : Array2 :=
  let dx := (tabR xymax 0 - tabR xymin 0) / IZR (mx info - 1) in
  let dy := (tabR xymax 1 - tabR xymin 1) / IZR (my info - 1) in
  for_pure (ys info) (ys info + ym info) (fun j ab =>
    let y := tabR xymin 1 + IZR j * dy in
    for_pure (xs info) (xs info + xm info) (fun i ab =>
      let x := tabR xymin 0 + IZR i * dx in
      upd2 ab j i (bed user x y)) ab) ab.

(** Value of gradient at a point. *)
Record Grad : Type := mkGrad { x : R; y : R }.

(** sigma(z) = Gamma z^{n-1}, the slope-dependent part of the flux. *)
Definition sigma (gH gb : Grad) (user : AppCtx) : R :=
  let sx := x gH + x gb in
  let sy := y gH + y gb in
  let slopesqr := sx * sx + sy * sy + delta user * delta user in
  Gamma user * PetscPowReal slopesqr ((n_ice user - 1.0) / 2).

(** Pseudo-velocity from bed slope:  W = - sigma * grad b. *)
Definition W (sigma : R) (gb : Grad) : Grad :=
  mkGrad (- sigma * x gb) (- sigma * y gb).

(** D(eps) = (1-eps) sigma H^{n+2} + eps D_0 *)
Definition DCS (sigma H : R) (user : AppCtx) : R :=
  (1.0 - eps user) * sigma
  * PetscPowReal (PetscAbsReal H) (n_ice user + 2.0)
  + eps user * D0 user.

(** Addressable [double] variables, named as in the source; a pointer to
    one is [Some name], the null pointer is [None]. *)
Definition Mem : Type := string -> R.
Definition Ptr : Type := option string.

Definition store (m : Mem) (l : string) (v : R) : Mem :=
  fun l' => if String.eqb l' l then v else m l'.

(** [*p = v]: a store through the null pointer is a fault. *)
Definition store_ptr (p : Ptr) (v : R) (m : Mem) : Res Mem :=
  match p with
  | Some l => Ok (store m l v)
  | None => Segv
  end.

Definition nonnull (p : Ptr) : bool :=
  match p with
  | Some _ => true
  | None => false
  end.

(** Flux component from the non-sliding SIA on a general bed. *)
Definition SIAflux (gH gb : Grad) (H Hup : R) (xdir : bool) (D q : Ptr)
  (user : AppCtx) (m : Mem) : Res Mem :=
  let mysig := sigma gH gb user in
  let myD := DCS mysig H user in
  let myW := W mysig gb in
  m <- (if nonnull D then store_ptr D myD m else Ok m) ;;
  if xdir && nonnull q
  then store_ptr q
         (- myD * x gH
          + x myW * PetscPowReal (PetscAbsReal Hup) (n_ice user + 2.0)) m
  else store_ptr q
         (- myD * y gH
          + y myW * PetscPowReal (PetscAbsReal Hup) (n_ice user + 2.0)) m.

(** Gradients of weights for the Q^1 interpolant. *)
Definition gx : list R := [-1.0; 1.0; 1.0; -1.0].
Definition gy : list R := [-1.0; -1.0; 1.0; 1.0].

(** [f] is the C array [double f[4]] of corner values. *)
Definition fieldatpt (xi eta : R) (f : list R) : R :=
  let x := [1.0 - xi; xi; xi; 1.0 - xi] in
  let y := [1.0 - eta; 1.0 - eta; eta; eta] in
  tabR x 0 * tabR y 0 * tabR f 0 + tabR x 1 * tabR y 1 * tabR f 1
  + tabR x 2 * tabR y 2 * tabR f 2 + tabR x 3 * tabR y 3 * tabR f 3.

Definition fieldatptArray (u v : Z) (xi eta : R) (f : Array2) : R :=
  let ff := [f v u; f v (u + 1)%Z; f (v + 1)%Z (u + 1)%Z; f (v + 1)%Z u] in
  fieldatpt xi eta ff.

Definition gradfatpt (xi eta dx dy : R) (f : list R) : Grad :=
  let x := [1.0 - xi; xi; xi; 1.0 - xi] in
  let y := [1.0 - eta; 1.0 - eta; eta; eta] in
  let gradf_x :=
    tabR gx 0 * tabR y 0 * tabR f 0 + tabR gx 1 * tabR y 1 * tabR f 1
    + tabR gx 2 * tabR y 2 * tabR f 2 + tabR gx 3 * tabR y 3 * tabR f 3 in
  let gradf_y :=
    tabR x 0 * tabR gy 0 * tabR f 0 + tabR x 1 * tabR gy 1 * tabR f 1
    + tabR x 2 * tabR gy 2 * tabR f 2 + tabR x 3 * tabR gy 3 * tabR f 3 in
  mkGrad (gradf_x / dx) (gradf_y / dy).

Definition gradfatptArray (u v : Z) (xi eta dx dy : R) (f : Array2) : Grad :=
  let ff := [f v u; f v (u + 1)%Z; f (v + 1)%Z (u + 1)%Z; f (v + 1)%Z u] in
  gradfatpt xi eta dx dy ff.

Definition je : list Z := [0; 0; -1; -1; -1; -1; 0; 0]%Z.
Definition ke : list Z := [0; 0; 0; 0; -1; -1; -1; -1]%Z.
Definition ce : list Z := [0; 3; 1; 0; 2; 1; 3; 2]%Z.

Definition xdire : list bool := [true; false; true; false].

Definition locx : list R := [0.5; 0.75; 0.5; 0.25].
Definition locy : list R := [0.25; 0.5; 0.75; 0.5].

Definition coeff (dx dy : R) : list R :=
  [dy / 2; dx / 2; dx / 2; - dy / 2; - dy / 2; - dx / 2; - dx / 2; dy / 2].

(** Contents, on entry, of the work vectors handed out by
    [DMGetLocalVector] ([Hcopy], [b], [qquad[c]]) and of the scalar
    locals.  [aqquad0 c k j] is [aqquad[c][k][j]]. *)
Record Scratch : Type := mkScratch {
  aH0 : Array2;
  ab0 : Array2;
  aqquad0 : Array3;
  mem0 : Mem
}.

(** The arrays and scalars of [FormFunctionLocal] at its return. *)
Record State : Type := mkState {
  FF : Array2;
  aH : Array2;
  ab : Array2;
  aqquad : Array3;
  mem : Mem
}.

(** [j == 0 || j == info->mx-1 || k == 0 || k == info->my-1] *)
Definition on_boundary (info : DMDALocalInfo) (j k : Z) : bool :=
  (j =? 0)%Z || (j =? mx info - 1)%Z || (k =? 0)%Z || (k =? my info - 1)%Z.

(** [j >= info->xs && j < info->xs+info->xm && k >= info->ys &&
    k < info->ys+info->ym] *)
Definition owned (info : DMDALocalInfo) (j k : Z) : bool :=
  (xs info <=? j)%Z && (j <? xs info + xm info)%Z
  && (ys info <=? k)%Z && (k <? ys info + ym info)%Z.

(** [j < 0 || j > info->mx-1 || k < 0 || k > info->my-1] *)
Definition off_grid (info : DMDALocalInfo) (j k : Z) : bool :=
  (j <? 0)%Z || (j >? mx info - 1)%Z || (k <? 0)%Z || (k >? my info - 1)%Z.

(** [j < 0 || j >= info->mx-1 || k < 0 || k >= info->my-1] *)
Definition no_element (info : DMDALocalInfo) (j k : Z) : bool :=
  (j <? 0)%Z || (j >=? mx info - 1)%Z || (k <? 0)%Z || (k >=? my info - 1)%Z.

Definition admissible_error (v : R) (j k : Z) : PetscError :=
  mkPetscError 1
    "ERROR: non-admissible value H[k][j] = %.3e < 0.0 at j,k = %d,%d"
    [ArgReal v; ArgInt j; ArgInt k].

(** Body of the first loop nest: copy the iterate and set the boundary
    values to zero.  The state is the pair of [FF] and [aH]. *)
Definition stage_body (info : DMDALocalInfo) (user : AppCtx)
  (aHin : Array2) (k j : Z) (st : Array2 * Array2)
  : Res (Array2 * Array2) :=
  if off_grid info j k then Ok st
  else if check_admissible user && Rltb (aHin k j) 0.0
  then Err (admissible_error (aHin k j) j k)
  else if on_boundary info j k
  then
    let FF := if owned info j k then upd2 (fst st) k j (aHin k j)
              else fst st in
    Ok (FF, upd2 (snd st) k j 0.0)
  else Ok (fst st, upd2 (snd st) k j (aHin k j)).

Definition stage_loop (info : DMDALocalInfo) (user : AppCtx)
  (aHin : Array2) (st : Array2 * Array2) : Res (Array2 * Array2) :=
  for_res (ys info - 1) (ys info + ym info + 1) (fun k st =>
    for_res (xs info - 1) (xs info + xm info + 1) (fun j st =>
      stage_body info user aHin k j st) st) st.

(** The pair [(lxup,lyup)] assigned in the branch [if (upwind)] at point
    [c] of an element: the local coordinates where [Hup] is sampled. *)
Definition up_point (user : AppCtx) (c : Z) (gb : Grad) : R * R :=
  let upmin := (1.0 - lambda user) * 0.5 in
  let upmax := (1.0 + lambda user) * 0.5 in
  if tabB xdire c
  then ((if Rle_dec (x gb) 0.0 then upmin else upmax), tabR locy c)
  else (tabR locx c, (if Rle_dec (y gb) 0.0 then upmin else upmax)).

(** The upwinded thickness [Hup] at point [c] of element [(j,k)]. *)
Definition Hup_at (user : AppCtx) (aH : Array2) (j k c : Z) (gb : Grad)
  (H : R) : R :=
  let upwind := Rgtb (lambda user) 0.0 in
  if upwind then
    let lup := up_point user c gb in
    fieldatptArray j k (fst lup) (snd lup) aH
  else H.

(** Body of the loop over [c]; the state is [aqquad] and the scalars. *)
Definition flux_body (user : AppCtx) (dx dy : R) (aH ab : Array2)
  (k j c : Z) (st : Array3 * Mem) : Res (Array3 * Mem) :=
  let H := fieldatptArray j k (tabR locx c) (tabR locy c) aH in
  let gH := gradfatptArray j k (tabR locx c) (tabR locy c) dx dy aH in
  let gb := gradfatptArray j k (tabR locx c) (tabR locy c) dx dy ab in
  let Hup := Hup_at user aH j k c gb H in
  m <- SIAflux gH gb H Hup (tabB xdire c)
         (Some "DSIA_ckj"%string) (Some "qSIA_ckj"%string) user (snd st) ;;
  Ok (upd3 (fst st) c k j (m "qSIA_ckj"%string), m).

Definition flux_loop (info : DMDALocalInfo) (user : AppCtx) (dx dy : R)
  (aH ab : Array2) (st : Array3 * Mem) : Res (Array3 * Mem) :=
  for_res (ys info - 1) (ys info + ym info) (fun k st =>
    for_res (xs info - 1) (xs info + xm info) (fun j st =>
      if no_element info j k then Ok st
      else for_res 0 4 (fun c st => flux_body user dx dy aH ab k j c st) st)
    st) st.

Section Externs.

(** Functions that [dnl.c] calls and does not define (they come with
    [ice.h]):
    the climatic mass balance of the verification case, the CMB model,
    and the bed provider [FormBedLocal(info,stencilwidth,ab,user)],
    which fills [ab] and returns an error code. *)
Variable DomeCMB : R -> R -> AppCtx -> R.
Variable M_CMBModel : option CMBModel -> R -> R.
Variable FormBedLocal : DMDALocalInfo -> Z -> Array2 -> AppCtx -> Res Array2.

(** Last loop nest: the residual at the owned nodes off the boundary. *)
Definition residual_loop (info : DMDALocalInfo) (user : AppCtx)
  (dx dy : R) (aH ab : Array2) (aqquad : Array3) (FF : Array2) : Array2 :=
  for_pure (ys info) (ys info + ym info) (fun k FF =>
    for_pure (xs info) (xs info + xm info) (fun j FF =>
      if on_boundary info j k then FF
      else
        let M :=
          if verif user
          then DomeCMB (IZR j * dx) (IZR k * dy) user
          else M_CMBModel (cmb user) (ab k j + aH k j) in
        let FF := upd2 FF k j (- M * dx * dy) in
        for_pure 0 8 (fun s FF =>
          upd2 FF k j
            (FF k j
             + tabR (coeff dx dy) s
               * aqquad (tabZ ce s) (k + tabZ ke s)%Z (j + tabZ je s)%Z))
          FF) FF) FF.

(** [FormFunctionLocal(info,aHin,FF,user)]. *)
Definition FormFunctionLocal (info : DMDALocalInfo) (aHin FF : Array2)
  (user : AppCtx) (scr : Scratch) : Res State :=
  let dx := L user / IZR (mx info - 1) in
  let dy := L user / IZR (my info - 1) in
  st <- stage_loop info user aHin (FF, aH0 scr) ;;
  ab <- (if verif user then Ok (fun _ _ => 0.0)
         else FormBedLocal info 1 (ab0 scr) user) ;;
  fl <- flux_loop info user dx dy (snd st) ab (aqquad0 scr, mem0 scr) ;;
  Ok (mkState
        (residual_loop info user dx dy (snd st) ab (fst fl) (fst st))
        (snd st) ab (fst fl) (snd fl)).

End Externs.

End Dnl.

(** ** Closed forms of what the loop nests compute *)

Module IceForms.

Import Ice.

(** The value of [am[k][j]] read by the last loop nest. *)
Definition am_at (user : AppCtx) (aH : Array2) (loc : Locals) (k j : Z) : R :=
  match cmb user with
  | Some cmb => M_CMBModel cmb (ab0 loc k j + aH k j)
  | None => am0 loc k j
  end.

(** The term added to [FF[k][j]] for the point [s] of the boundary of the
    control volume, with the flux array [aq]. *)
Definition quad_term (dx dy : R) (aq : Array3) (k j s : Z) : R :=
  tabR (coeff dx dy) s * aq (k + tabZ ke s)%Z (j + tabZ je s)%Z (tabZ ce s).

(** The sum over the 8 points, in the order of the loop over [s]. *)
Definition quad_sum (dx dy : R) (aq : Array3) (k j : Z) (start : R) : R :=
  start + quad_term dx dy aq k j 0 + quad_term dx dy aq k j 1
  + quad_term dx dy aq k j 2 + quad_term dx dy aq k j 3
  + quad_term dx dy aq k j 4 + quad_term dx dy aq k j 5
  + quad_term dx dy aq k j 6 + quad_term dx dy aq k j 7.

(** The residual at an owned node. *)
Definition residual_at (info : DMDALocalInfo) (user : AppCtx) (aH : Array2)
  (loc : Locals) (k j : Z) : R :=
  let dx := L user / IZR (mx info) in
  let dy := L user / IZR (my info) in
  quad_sum dx dy (fun k j c => flux_at user dx dy aH (ab0 loc) k j c) k j
    (- am_at user aH loc k j * dx * dy).

(** The residual array that the three loop nests leave when the pointers
    designate arrays with the contents [loc]. *)
Definition on_arrays (info : DMDALocalInfo) (aH FF : Array2) (user : AppCtx)
  (loc : Locals) : Array2 :=
  let dx := L user / IZR (mx info) in
  let dy := L user / IZR (my info) in
  let aqquad := flux_loop info user dx dy aH (ab0 loc) (aqquad0 loc) in
  let am := cmb_loop info user aH (ab0 loc) (am0 loc) in
  residual_loop info dx dy am aqquad FF.

(** The four corner values of element [(u,v)] of [f] all equal [c]. *)
Definition corners_const (f : Array2) (u v : Z) (c : R) : Prop :=
  f v u = c /\ f v (u + 1)%Z = c /\ f (v + 1)%Z (u + 1)%Z = c
  /\ f (v + 1)%Z u = c.

End IceForms.

(** ** Concrete inputs of [ice.c] *)

Module IceInputs.

Import Ice.

(** A 4 x 4 periodic grid owned by one process. *)
Definition info4 : DMDALocalInfo := mkInfo 4 4 0 0 4 4.

(** Glen exponent 3, unit coefficient and regularisation, side 4 (so that
    dx = dy = 1), and the CMB model [c]. *)
Definition user4 (c : option CMBModel) : AppCtx :=
  mkAppCtx 4 0 31556926 9.81 910 3 1 1 10 0.001 1 0.25 1000 c.

Definition const_field (v : R) : Array2 := fun _ _ => v.

(** A bed that is 1 at node (1,1) and 0 at every other node. *)
Definition bump_bed : Array2 :=
  fun k j => if (k =? 1)%Z && (j =? 1)%Z then 1 else 0.

Definition zero3 : Array3 := fun _ _ _ => 0.

(** Array contents: [am] zero, the bed [b], and fluxes zero. *)
Definition locals_with_bed (b : Array2) : Locals :=
  mkLocals (const_field 0) b zero3.

(** The CMB model with equilibrium line at 0 and unit gradient. *)
Definition cmb_unit : CMBModel := mkCMBModel 0 1.

(** The CMB model with zero gradient: its mass balance is zero at every
    surface elevation. *)
Definition cmb_zero : CMBModel := mkCMBModel 0 0.

(** Two time-derivative fields. *)
Definition Hdot_zero : Array2 := const_field 0.
Definition Hdot_one : Array2 := const_field 1.

(** The parameters of [user4] with the regularisation [eps] set to 0. *)
Definition user_eps0 : AppCtx :=
  mkAppCtx 4 0 31556926 9.81 910 3 1 1 10 0 1 0.25 1000 None.

(** Options that set the Glen exponent only. *)
Definition opts_n (n : R) : Options :=
  mkOptions None None None None (Some n) None None.

(** A struct with every field zero, for the caller's [user] on entry. *)
Definition user_blank : AppCtx :=
  mkAppCtx 0 0 0 0 0 0 0 0 0 0 0 0 0 None.

Definition n_error (n : R) : PetscError :=
  mkPetscError 11 "ERROR: n = %f not allowed ... n > 1 is required"
    [ArgReal n].

End IceInputs.

(** ** Closed forms and concrete inputs of [dnl.c] *)

Module DnlForms.

Import Dnl.

(** The nodes whose iterate value the first loop nest examines: the owned
    range with one layer around it, cut to the grid. *)
Definition examined (info : DMDALocalInfo) (j k : Z) : Prop :=
  (xs info - 1 <= j <= xs info + xm info)%Z
  /\ (ys info - 1 <= k <= ys info + ym info)%Z
  /\ off_grid info j k = false.

(** The value [SIAflux] stores through [q]. *)
Definition SIAflux_q (gH gb : Grad) (H Hup : R) (xdir : bool) (user : AppCtx)
  : R :=
  let mysig := sigma gH gb user in
  let myD := DCS mysig H user in
  let myW := W mysig gb in
  if xdir
  then - myD * x gH + x myW * PetscPowReal (PetscAbsReal Hup) (n_ice user + 2.0)
  else - myD * y gH + y myW * PetscPowReal (PetscAbsReal Hup) (n_ice user + 2.0).

(** A 5 x 5 grid owned by one process. *)
Definition info5 : DMDALocalInfo := mkInfo 5 5 0 0 5 5.

(** The default parameters of [main], with the admissibility check set to
    [chk], on the domain of side 4, in the verification case [vf]. *)
Definition user5 (chk vf : bool) : AppCtx :=
  mkAppCtx 1.0 0.0 2.0 1.0 0.001 1.0e-4 0.25 chk (fun _ _ => 0) (fun _ _ => 0)
    4 vf 1 3 None.

(** An iterate equal to 1 except at the interior node (2,2), where it is
    [v]. *)
Definition iterate5 (v : R) : Array2 :=
  fun k j => if (k =? 2)%Z && (j =? 2)%Z then v else 1.

Definition zero2 : Array2 := fun _ _ => 0.
Definition zero3 : Array3 := fun _ _ _ => 0.
Definition scratch5 : Scratch := mkScratch zero2 zero2 zero3 (fun _ => 0).

(** Stand-ins for the functions that [dnl.c] does not define: a zero CMB
    and a bed provider that fills the array with zeros. *)
Definition DomeCMB0 : R -> R -> AppCtx -> R := fun _ _ _ => 0.
Definition M_CMBModel0 : option CMBModel -> R -> R := fun _ _ => 0.
Definition FormBedLocal0 : DMDALocalInfo -> Z -> Array2 -> AppCtx -> Res Array2 :=
  fun _ _ _ _ => Ok zero2.

End DnlForms.

(** ** The upwind point, as the two programs have it *)

(** What is claimed of the point where [Hup] is sampled.  [lam] is the
    upwinding fraction, [slope] the bed-slope component in the flux
    direction, [xd] the flux direction, [(lx,ly)] the quadrature point,
    [pt] the pair (lxup,lyup), [Hup] the upwinded thickness, [H] the
    thickness at the quadrature point, [Hpt] the thickness at [pt]. *)
Definition upwind_claim (lam slope : R) (xd : bool) (lx ly : R) (pt : R * R)
  (Hup H Hpt : R) : Prop :=
  let u := if xd then fst pt else snd pt in
  (1 - lam) / 2 <= u <= (1 + lam) / 2
  /\ (slope <= 0 -> u = (1 - lam) / 2)
  /\ (0 < slope -> u = (1 + lam) / 2)
  /\ (if xd then snd pt = ly else fst pt = lx)
  /\ (0 < lam -> Hup = Hpt)
  /\ (lam = 0 -> Hup = H /\ (if xd then lx else ly) = 0.5 /\ u = 0.5)
  /\ (lam = 1 -> (slope <= 0 -> u = 0) /\ (0 < slope -> u = 1)).

(** ** Sums over the grid, neighbourhoods and periodic ghost values *)

Module GridForms.

(** The sum of [f i] for [n] consecutive indices from [lo]. *)
Fixpoint sum_from (n : nat) (lo : Z) (f : Z -> R) : R :=
  match n with
  | O => 0
  | Datatypes.S n' => f lo + sum_from n' (lo + 1)%Z f
  end.

(** The sum of [f i] for [lo <= i < hi]. *)
Definition sumZ (lo hi : Z) (f : Z -> R) : R :=
  sum_from (Z.to_nat (hi - lo)) lo f.

(** The sum of [F k j] for [klo <= k < khi] and [jlo <= j < jhi]. *)
Definition sum2 (klo khi jlo jhi : Z) (F : Z -> Z -> R) : R :=
  sumZ klo khi (fun k => sumZ jlo jhi (fun j => F k j)).

(** The ghost values of [f] around the whole grid, owned by one process,
    are those of a periodic field: column -1 repeats column mx-1, column
    mx repeats column 0, and likewise for the rows. *)
Definition periodic_ghosts (info : DMDALocalInfo) (f : Array2) : Prop :=
  (forall k, (-1 <= k <= my info)%Z ->
             f k (-1)%Z = f k (mx info - 1)%Z /\ f k (mx info) = f k 0%Z)
  /\ (forall j, (-1 <= j <= mx info)%Z ->
                f (-1)%Z j = f (my info - 1)%Z j /\ f (my info) j = f 0%Z j).

End GridForms.

(** ** Closed forms of the loop nests of [dnl.c] *)

Module DnlResidual.

Import Dnl DnlForms.

(** The staged copy of the iterate: zero at the boundary nodes. *)
Definition staged (info : DMDALocalInfo) (aHin : Array2) : Array2 :=
  fun k j => if on_boundary info j k then 0.0 else aHin k j.

(** The flux stored in [aqquad[c][k][j]]. *)
Definition flux_at (user : AppCtx) (dx dy : R) (aH ab : Array2)
  (k j c : Z) : R :=
  let H := fieldatptArray j k (tabR locx c) (tabR locy c) aH in
  let gH := gradfatptArray j k (tabR locx c) (tabR locy c) dx dy aH in
  let gb := gradfatptArray j k (tabR locx c) (tabR locy c) dx dy ab in
  let Hup := Hup_at user aH j k c gb H in
  SIAflux_q gH gb H Hup (tabB xdire c) user.

Definition quad_term (dx dy : R) (aq : Array3) (k j s : Z) : R :=
  tabR (coeff dx dy) s * aq (tabZ ce s) (k + tabZ ke s)%Z (j + tabZ je s)%Z.

Definition quad_sum (dx dy : R) (aq : Array3) (k j : Z) (start : R) : R :=
  start + quad_term dx dy aq k j 0 + quad_term dx dy aq k j 1
  + quad_term dx dy aq k j 2 + quad_term dx dy aq k j 3
  + quad_term dx dy aq k j 4 + quad_term dx dy aq k j 5
  + quad_term dx dy aq k j 6 + quad_term dx dy aq k j 7.

(** The residual at an owned node off the boundary, for the staged field
    [aH] and the bed [ab]. *)
Definition residual_at (DomeCMB : R -> R -> AppCtx -> R)
  (M_CMBModel : option CMBModel -> R -> R) (info : DMDALocalInfo)
  (user : AppCtx) (aH ab : Array2) (k j : Z) : R :=
  let dx := L user / IZR (mx info - 1) in
  let dy := L user / IZR (my info - 1) in
  let M := if verif user then DomeCMB (IZR j * dx) (IZR k * dy) user
           else M_CMBModel (cmb user) (ab k j + aH k j) in
  quad_sum dx dy (fun c k j => flux_at user dx dy aH ab k j c) k j
    (- M * dx * dy).

(** Node [(k,j)] comes before node [(k0,j0)] in the order of the first
    loop nest. *)
Definition before (k j k0 j0 : Z) : Prop :=
  (k < k0)%Z \/ (k = k0 /\ (j < j0)%Z).

(** The obstacle problem of [main]: the default parameters with the
    hemisphere as obstacle and the zero bed. *)
Definition user_obstacle : AppCtx :=
  mkAppCtx 1.0 0.0 2.0 1.0 0.001 1.0e-4 0.25 false hemisphere zero
    4 false 1 3 None.

End DnlResidual.

(** * Properties *)

(** Reads of the constant integer and boolean tables at a literal index. *)
Ltac eval_tabZ :=
  repeat match goal with
         | |- context [tabZ ?t ?i] =>
             let v := eval vm_compute in (tabZ t i) in
             change (tabZ t i) with v
         | |- context [tabB ?t ?i] =>
             let v := eval vm_compute in (tabB t i) in
             change (tabB t i) with v
         end.

(** ** Loops *)

Section Loops.

Context {S : Type}.

Lemma for_pure_nil (lo hi : Z) (body : Z -> S -> S) (s : S) :
  (hi <= lo)%Z -> for_pure lo hi body s = s.
Proof.
  intros H. unfold for_pure.
  replace (Z.to_nat (hi - lo)) with O by lia. reflexivity.
Qed.

Lemma iter_pure_inv (P : Z -> S -> Prop) (body : Z -> S -> S) :
  forall (n : nat) (lo : Z) (s : S),
    P lo s ->
    (forall i s, (lo <= i < lo + Z.of_nat n)%Z -> P i s -> P (i + 1)%Z (body i s)) ->
    P (lo + Z.of_nat n)%Z (iter_pure n lo body s).
Proof.
  induction n as [|n IH]; intros lo s H0 Hstep.
  - simpl. replace (lo + 0)%Z with lo by lia. exact H0.
  - cbn [iter_pure].
    replace (lo + Z.of_nat (Datatypes.S n))%Z with ((lo + 1) + Z.of_nat n)%Z by lia.
    apply IH.
    + apply Hstep; [lia | exact H0].
    + intros i s' Hi. apply Hstep. lia.
Qed.

Lemma for_pure_inv (P : Z -> S -> Prop) (lo hi : Z) (body : Z -> S -> S)
  (s : S) :
  (lo <= hi)%Z ->
  P lo s ->
  (forall i s, (lo <= i < hi)%Z -> P i s -> P (i + 1)%Z (body i s)) ->
  P hi (for_pure lo hi body s).
Proof.
  intros Hle H0 Hstep. unfold for_pure.
  replace hi with (lo + Z.of_nat (Z.to_nat (hi - lo)))%Z at 1 by lia.
  apply iter_pure_inv; [exact H0 |].
  intros i s' Hi. apply Hstep. lia.
Qed.

Lemma for_pure_preserve (P : S -> Prop) (lo hi : Z) (body : Z -> S -> S)
  (s : S) :
  P s ->
  (forall i s, (lo <= i < hi)%Z -> P s -> P (body i s)) ->
  P (for_pure lo hi body s).
Proof.
  intros H0 Hstep.
  destruct (Z_le_gt_dec lo hi) as [Hle | Hgt].
  - apply (for_pure_inv (fun _ s => P s)); auto.
  - rewrite for_pure_nil by lia. exact H0.
Qed.

Lemma for_res_nil (lo hi : Z) (body : Z -> S -> Res S) (s : S) :
  (hi <= lo)%Z -> for_res lo hi body s = Ok s.
Proof.
  intros H. unfold for_res.
  replace (Z.to_nat (hi - lo)) with O by lia. reflexivity.
Qed.

Lemma iter_res_inv (P : Z -> S -> Prop) (body : Z -> S -> Res S) :
  forall (n : nat) (lo : Z) (s r : S),
    P lo s ->
    (forall i s s', (lo <= i < lo + Z.of_nat n)%Z -> P i s ->
                    body i s = Ok s' -> P (i + 1)%Z s') ->
    iter_res n lo body s = Ok r ->
    P (lo + Z.of_nat n)%Z r.
Proof.
  induction n as [|n IH]; intros lo s r H0 Hstep Hrun.
  - simpl in Hrun. inversion Hrun; subst.
    replace (lo + Z.of_nat 0)%Z with lo by lia. exact H0.
  - cbn [iter_res] in Hrun.
    destruct (body lo s) as [s1 | e |] eqn:Hb; cbn [bind] in Hrun;
      try discriminate.
    replace (lo + Z.of_nat (Datatypes.S n))%Z with ((lo + 1) + Z.of_nat n)%Z by lia.
    apply (IH (lo + 1)%Z s1 r).
    + apply (Hstep lo s s1); [lia | exact H0 | exact Hb].
    + intros i s2 s3 Hi. apply Hstep. lia.
    + exact Hrun.
Qed.

Lemma for_res_inv (P : Z -> S -> Prop) (lo hi : Z) (body : Z -> S -> Res S)
  (s r : S) :
  (lo <= hi)%Z ->
  P lo s ->
  (forall i s s', (lo <= i < hi)%Z -> P i s -> body i s = Ok s' ->
                  P (i + 1)%Z s') ->
  for_res lo hi body s = Ok r ->
  P hi r.
Proof.
  intros Hle H0 Hstep Hrun. unfold for_res in Hrun.
  replace hi with (lo + Z.of_nat (Z.to_nat (hi - lo)))%Z at 1 by lia.
  apply (iter_res_inv P body _ lo s r); [exact H0 | | exact Hrun].
  intros i s1 s2 Hi. apply Hstep. lia.
Qed.

Lemma for_res_preserve (P : S -> Prop) (lo hi : Z) (body : Z -> S -> Res S)
  (s r : S) :
  P s ->
  (forall i s s', (lo <= i < hi)%Z -> P s -> body i s = Ok s' -> P s') ->
  for_res lo hi body s = Ok r ->
  P r.
Proof.
  intros H0 Hstep Hrun.
  destruct (Z_le_gt_dec lo hi) as [Hle | Hgt].
  - apply (for_res_inv (fun _ s => P s) lo hi body s r); auto.
  - rewrite for_res_nil in Hrun by lia. inversion Hrun; subst. exact H0.
Qed.

(** A loop whose body succeeds at every index of the range succeeds. *)
Lemma iter_res_total (body : Z -> S -> Res S) :
  forall (n : nat) (lo : Z) (s : S),
    (forall i s, (lo <= i < lo + Z.of_nat n)%Z -> exists s', body i s = Ok s') ->
    exists r, iter_res n lo body s = Ok r.
Proof.
  induction n as [|n IH]; intros lo s Hb.
  - exists s. reflexivity.
  - cbn [iter_res].
    destruct (Hb lo s) as [s1 Hs1]; [lia |].
    rewrite Hs1. cbn [bind].
    apply IH. intros i s2 Hi. apply Hb. lia.
Qed.

Lemma for_res_total (lo hi : Z) (body : Z -> S -> Res S) (s : S) :
  (forall i s, (lo <= i < hi)%Z -> exists s', body i s = Ok s') ->
  exists r, for_res lo hi body s = Ok r.
Proof.
  intros Hb. unfold for_res. apply iter_res_total.
  intros i s1 Hi. apply Hb. lia.
Qed.

(** An error returned by a loop was returned by its body, at an index of
    the range. *)
Lemma iter_res_err_from_body (body : Z -> S -> Res S) :
  forall (n : nat) (lo : Z) (s : S) (e : PetscError),
    iter_res n lo body s = Err e ->
    exists i s', (lo <= i < lo + Z.of_nat n)%Z /\ body i s' = Err e.
Proof.
  induction n as [|n IH]; intros lo s e Hrun.
  - discriminate.
  - cbn [iter_res] in Hrun.
    destruct (body lo s) as [s1 | e1 |] eqn:Hb; cbn [bind] in Hrun;
      try discriminate.
    + destruct (IH _ _ _ Hrun) as (i & s2 & Hi & He).
      exists i, s2. split; [lia | exact He].
    + inversion Hrun; subst. exists lo, s. split; [lia | exact Hb].
Qed.

Lemma for_res_err_from_body (lo hi : Z) (body : Z -> S -> Res S) (s : S)
  (e : PetscError) :
  for_res lo hi body s = Err e ->
  exists i s', (lo <= i < hi)%Z /\ body i s' = Err e.
Proof.
  intros Hrun. unfold for_res in Hrun.
  destruct (iter_res_err_from_body body _ _ _ _ Hrun) as (i & s1 & Hi & He).
  exists i, s1. split; [lia | exact He].
Qed.

(** A loop fails when its body fails, in every state, at some index of the
    range, and never faults. *)
Lemma iter_res_fails (body : Z -> S -> Res S) :
  forall (n : nat) (lo : Z) (s : S) (i0 : Z),
    (lo <= i0 < lo + Z.of_nat n)%Z ->
    (forall s, exists e, body i0 s = Err e) ->
    (forall i s, (lo <= i < lo + Z.of_nat n)%Z -> body i s <> Segv) ->
    exists e, iter_res n lo body s = Err e.
Proof.
  induction n as [|n IH]; intros lo s i0 Hi0 Hfail Hns.
  - lia.
  - cbn [iter_res].
    destruct (body lo s) as [s1 | e1 |] eqn:Hb; cbn [bind].
    + destruct (Z.eq_dec i0 lo) as [-> | Hne].
      * destruct (Hfail s) as [e He]. congruence.
      * apply (IH (lo + 1)%Z s1 i0); [lia | exact Hfail |].
        intros i s2 Hi. apply Hns. lia.
    + exists e1. reflexivity.
    + exfalso. apply (Hns lo s); [lia | exact Hb].
Qed.

Lemma for_res_fails (lo hi : Z) (body : Z -> S -> Res S) (s : S) (i0 : Z) :
  (lo <= i0 < hi)%Z ->
  (forall s, exists e, body i0 s = Err e) ->
  (forall i s, (lo <= i < hi)%Z -> body i s <> Segv) ->
  exists e, for_res lo hi body s = Err e.
Proof.
  intros Hi0 Hfail Hns. unfold for_res.
  apply (iter_res_fails body _ lo s i0); [lia | exact Hfail |].
  intros i s1 Hi. apply Hns. lia.
Qed.

Lemma iter_res_no_segv (body : Z -> S -> Res S) :
  forall (n : nat) (lo : Z) (s : S),
    (forall i s, (lo <= i < lo + Z.of_nat n)%Z -> body i s <> Segv) ->
    iter_res n lo body s <> Segv.
Proof.
  induction n as [|n IH]; intros lo s Hns.
  - discriminate.
  - cbn [iter_res].
    destruct (body lo s) as [s1 | e1 |] eqn:Hb; cbn [bind].
    + apply IH. intros i s2 Hi. apply Hns. lia.
    + discriminate.
    + exfalso. apply (Hns lo s); [lia | exact Hb].
Qed.

Lemma for_res_no_segv (lo hi : Z) (body : Z -> S -> Res S) (s : S) :
  (forall i s, (lo <= i < hi)%Z -> body i s <> Segv) ->
  for_res lo hi body s <> Segv.
Proof.
  intros Hns. unfold for_res. apply iter_res_no_segv.
  intros i s1 Hi. apply Hns. lia.
Qed.

End Loops.

Section Loops2.

Context {S T : Type}.
Variable get : S -> Z -> Z -> T.
Variable w : Z -> Z -> T -> T.
Variables klo khi jlo jhi : Z.

(** The cells already visited when the nest is about to run [(k',j')]. *)
Let visited (k' j' k j : Z) : Prop :=
  ((klo <= k < k')%Z /\ (jlo <= j < jhi)%Z) \/ (k = k' /\ (jlo <= j < j')%Z).

Let inv (s0 : S) (k' j' : Z) (s : S) : Prop :=
  forall k j,
    (visited k' j' k j -> get s k j = w k j (get s0 k j)) /\
    (~ visited k' j' k j -> get s k j = get s0 k j).

(** A loop nest whose body rewrites the one cell [(k,j)] leaves, in every
    cell of the range, the body's value there, and every other cell as it
    was. *)
Lemma for2_res_pointwise (body : Z -> Z -> S -> Res S) (s0 r : S) :
  (forall k j s s', (klo <= k < khi)%Z -> (jlo <= j < jhi)%Z ->
     body k j s = Ok s' ->
     get s' k j = w k j (get s k j) /\
     forall k' j', (k' <> k \/ j' <> j) -> get s' k' j' = get s k' j') ->
  for_res klo khi (fun k s => for_res jlo jhi (fun j s => body k j s) s) s0
  = Ok r ->
  forall k j,
    ((klo <= k < khi)%Z /\ (jlo <= j < jhi)%Z -> get r k j = w k j (get s0 k j))
    /\ (~ ((klo <= k < khi)%Z /\ (jlo <= j < jhi)%Z) -> get r k j = get s0 k j).
Proof.
  intros Hbody Hrun.
  destruct (Z_le_gt_dec klo khi) as [Hk | Hk].
  2:{ rewrite for_res_nil in Hrun by lia. inversion Hrun; subst.
      intros k j. split; [lia | reflexivity]. }
  assert (Hfin : inv s0 khi jlo r).
  { refine (for_res_inv (fun k' s => inv s0 k' jlo s) klo khi _ s0 r Hk
              _ _ Hrun).
    - intros k j. unfold visited. split; [lia | reflexivity].
    - intros k' s s' Hk' Hinv Hinner.
      destruct (Z_le_gt_dec jlo jhi) as [Hj | Hj].
      2:{ rewrite for_res_nil in Hinner by lia. inversion Hinner; subst.
          intros k j. destruct (Hinv k j) as [H1 H2].
          unfold visited in *. split; intros HV; [apply H1 | apply H2]; lia. }
      assert (Hq : inv s0 k' jhi s').
      { refine (for_res_inv (fun j' s => inv s0 k' j' s) jlo jhi _ s s' Hj
                  Hinv _ Hinner).
        intros j' s1 s2 Hj' Hinv1 Hb.
        destruct (Hbody k' j' s1 s2 Hk' Hj' Hb) as [Hat Hother].
        intros k j.
        destruct (Z.eq_dec k k') as [-> | Hne];
          [destruct (Z.eq_dec j j') as [-> | Hne] |].
        - split.
          + intros _. rewrite Hat.
            destruct (Hinv1 k' j') as [_ H2]. rewrite H2; [reflexivity |].
            unfold visited. lia.
          + unfold visited. lia.
        - rewrite (Hother k' j) by (right; exact Hne).
          destruct (Hinv1 k' j) as [H1 H2]. unfold visited in *.
          split; intros HV; [apply H1 | apply H2]; lia.
        - rewrite (Hother k j) by (left; exact Hne).
          destruct (Hinv1 k j) as [H1 H2]. unfold visited in *.
          split; intros HV; [apply H1 | apply H2]; lia. }
      intros k j. destruct (Hq k j) as [H1 H2]. unfold visited in *.
      split; intros HV; [apply H1 | apply H2]; lia. }
  intros k j. destruct (Hfin k j) as [H1 H2]. unfold visited in *.
  split; intros HV; [apply H1 | apply H2]; lia.
Qed.

End Loops2.

Section LoopsPure.

Context {S : Type}.

Lemma iter_res_of_pure (body : Z -> S -> S) :
  forall (n : nat) (lo : Z) (s : S),
    iter_res n lo (fun i s => Ok (body i s)) s = Ok (iter_pure n lo body s).
Proof.
  induction n as [|n IH]; intros lo s; [reflexivity |].
  cbn [iter_res iter_pure bind]. apply IH.
Qed.

Lemma iter_res_ext (b1 b2 : Z -> S -> Res S) :
  forall (n : nat) (lo : Z) (s : S),
    (forall i s, b1 i s = b2 i s) ->
    iter_res n lo b1 s = iter_res n lo b2 s.
Proof.
  induction n as [|n IH]; intros lo s Hb; [reflexivity |].
  cbn [iter_res]. rewrite Hb.
  destruct (b2 lo s); cbn [bind]; auto.
Qed.

Lemma for_res_of_pure2 (body : Z -> Z -> S -> S) (klo khi jlo jhi : Z) (s : S) :
  for_res klo khi
    (fun k s => for_res jlo jhi (fun j s => Ok (body k j s)) s) s
  = Ok (for_pure klo khi (fun k s => for_pure jlo jhi (fun j s => body k j s) s) s).
Proof.
  unfold for_res, for_pure.
  rewrite <- iter_res_of_pure.
  apply iter_res_ext. intros k s1. apply iter_res_of_pure.
Qed.

Lemma for2_pure_pointwise {T : Type} (get : S -> Z -> Z -> T)
  (w : Z -> Z -> T -> T) (klo khi jlo jhi : Z) (body : Z -> Z -> S -> S)
  (s0 : S) :
  (forall k j s, (klo <= k < khi)%Z -> (jlo <= j < jhi)%Z ->
     get (body k j s) k j = w k j (get s k j) /\
     forall k' j', (k' <> k \/ j' <> j) -> get (body k j s) k' j' = get s k' j') ->
  forall k j,
    let r := for_pure klo khi
               (fun k s => for_pure jlo jhi (fun j s => body k j s) s) s0 in
    ((klo <= k < khi)%Z /\ (jlo <= j < jhi)%Z -> get r k j = w k j (get s0 k j))
    /\ (~ ((klo <= k < khi)%Z /\ (jlo <= j < jhi)%Z) -> get r k j = get s0 k j).
Proof.
  intros Hbody k j r.
  apply (for2_res_pointwise get w klo khi jlo jhi
           (fun k j s => Ok (body k j s)) s0 r).
  - intros k1 j1 s s' Hk1 Hj1 Heq. inversion Heq; subst.
    apply Hbody; assumption.
  - apply for_res_of_pure2.
Qed.

Lemma for_pure_unroll4 (body : Z -> S -> S) (s : S) :
  for_pure 0 4 body s = body 3%Z (body 2%Z (body 1%Z (body 0%Z s))).
Proof. reflexivity. Qed.

Lemma for_pure_unroll8 (body : Z -> S -> S) (s : S) :
  for_pure 0 8 body s
  = body 7%Z (body 6%Z (body 5%Z (body 4%Z
      (body 3%Z (body 2%Z (body 1%Z (body 0%Z s))))))).
Proof. reflexivity. Qed.

(** A loop whose body cannot fail is the pure loop. *)
Lemma for_res_of_pure (body : Z -> S -> Res S) (f : Z -> S -> S)
  (lo hi : Z) (s : S) :
  (forall i s, body i s = Ok (f i s)) ->
  for_res lo hi body s = Ok (for_pure lo hi f s).
Proof.
  intros Hb. unfold for_res, for_pure.
  rewrite <- iter_res_of_pure. apply iter_res_ext. exact Hb.
Qed.

(** A loop over an array behind a pointer: when the pointer designates an
    array on entry and the body updates that array, so does the loop. *)
Lemma iter_res_some (body : Z -> option S -> Res (option S))
  (f : Z -> S -> S) :
  (forall i a, body i (Some a) = Ok (Some (f i a))) ->
  forall (n : nat) (lo : Z) (a : S),
    iter_res n lo body (Some a) = Ok (Some (iter_pure n lo f a)).
Proof.
  intros Hb. induction n as [|n IH]; intros lo a; [reflexivity |].
  cbn [iter_res iter_pure]. rewrite Hb. cbn [bind]. apply IH.
Qed.

Lemma for_res_some (body : Z -> option S -> Res (option S))
  (f : Z -> S -> S) (lo hi : Z) (a : S) :
  (forall i a, body i (Some a) = Ok (Some (f i a))) ->
  for_res lo hi body (Some a) = Ok (Some (for_pure lo hi f a)).
Proof.
  intros Hb. unfold for_res, for_pure. apply iter_res_some. exact Hb.
Qed.

(** A loop that runs at least once starts with its first iteration. *)
Lemma for_res_step {T : Type} (body : Z -> T -> Res T) (lo hi : Z) (s : T) :
  (lo < hi)%Z ->
  for_res lo hi body s = bind (body lo s) (for_res (lo + 1) hi body).
Proof.
  intros Hlt. unfold for_res.
  replace (Z.to_nat (hi - lo)) with (Datatypes.S (Z.to_nat (hi - (lo + 1))))
    by lia.
  reflexivity.
Qed.

(** A fault in the first iteration is the outcome of the loop. *)
Lemma for_res_first_segv {T : Type} (body : Z -> T -> Res T) (lo hi : Z)
  (s : T) :
  (lo < hi)%Z -> body lo s = Segv -> for_res lo hi body s = Segv.
Proof.
  intros Hlt Hb. rewrite for_res_step by exact Hlt. rewrite Hb. reflexivity.
Qed.

End LoopsPure.

(** ** The loop nests of [ice.c] *)

Section IceLoops.

Import Ice IceForms.

Variable info : DMDALocalInfo.
Variable user : AppCtx.
Variables dx dy : R.

Lemma Ice_flux_loop_at (aH ab : Array2) (aq : Array3) (k j c : Z) :
  (ys info - 1 <= k < ys info + ym info)%Z ->
  (xs info - 1 <= j < xs info + xm info)%Z ->
  (0 <= c < 4)%Z ->
  flux_loop info user dx dy aH ab aq k j c = flux_at user dx dy aH ab k j c.
Proof.
  intros Hk Hj Hc. unfold flux_loop.
  pose proof (for2_pure_pointwise (fun (A : Array3) k j => A k j c)
                (fun k j _ => flux_at user dx dy aH ab k j c)
                (ys info - 1) (ys info + ym info)
                (xs info - 1) (xs info + xm info)
                (fun k j aqquad =>
                   for_pure 0 4 (fun c aqquad =>
                     upd3 aqquad k j c (flux_at user dx dy aH ab k j c)) aqquad)
                aq) as Hpw.
  cbv zeta in Hpw. apply Hpw; [| split; assumption].
  clear k j Hk Hj. intros k j A _ _. rewrite for_pure_unroll4. unfold upd3.
  split.
  - rewrite !Z.eqb_refl.
    assert (Hcases : c = 0%Z \/ c = 1%Z \/ c = 2%Z \/ c = 3%Z) by lia.
    destruct Hcases as [-> | [-> | [-> | ->]]]; reflexivity.
  - intros k' j' Hne.
    assert (Hf : ((k' =? k)%Z && (j' =? j)%Z) = false).
    { apply andb_false_iff.
      destruct Hne as [Hne | Hne]; [left | right]; apply Z.eqb_neq; exact Hne. }
    destruct (k' =? k)%Z, (j' =? j)%Z; simpl in Hf; try discriminate;
      simpl; rewrite ?andb_false_r; reflexivity.
Qed.

Lemma Ice_cmb_loop_at (aH : Array2) (loc : Locals) (k j : Z) :
  (ys info <= k < ys info + ym info)%Z ->
  (xs info <= j < xs info + xm info)%Z ->
  cmb_loop info user aH (ab0 loc) (am0 loc) k j = am_at user aH loc k j.
Proof.
  intros Hk Hj. unfold cmb_loop, am_at.
  destruct (cmb user) as [c |]; [| reflexivity].
  pose proof (for2_pure_pointwise (fun (A : Array2) k j => A k j)
                (fun k j _ => M_CMBModel c (ab0 loc k j + aH k j))
                (ys info) (ys info + ym info) (xs info) (xs info + xm info)
                (fun k j am => upd2 am k j (M_CMBModel c (ab0 loc k j + aH k j)))
                (am0 loc)) as Hpw.
  cbv zeta in Hpw. apply Hpw; [| split; assumption].
  clear k j Hk Hj. intros k j A _ _. unfold upd2. split.
  - rewrite !Z.eqb_refl. reflexivity.
  - intros k' j' Hne.
    assert (Hf : ((k' =? k)%Z && (j' =? j)%Z) = false).
    { apply andb_false_iff.
      destruct Hne as [Hne | Hne]; [left | right]; apply Z.eqb_neq; exact Hne. }
    rewrite Hf. reflexivity.
Qed.

Lemma Ice_residual_loop_at (am : Array2) (aq : Array3) (FF : Array2) (k j : Z) :
  (ys info <= k < ys info + ym info)%Z ->
  (xs info <= j < xs info + xm info)%Z ->
  residual_loop info dx dy am aq FF k j
  = quad_sum dx dy aq k j (- am k j * dx * dy).
Proof.
  intros Hk Hj. unfold residual_loop.
  pose proof (for2_pure_pointwise (fun (A : Array2) k j => A k j)
                (fun k j _ => quad_sum dx dy aq k j (- am k j * dx * dy))
                (ys info) (ys info + ym info) (xs info) (xs info + xm info)
                (fun k j FF =>
                   let FF := upd2 FF k j (- am k j * dx * dy) in
                   for_pure 0 8 (fun s FF =>
                     upd2 FF k j
                       (FF k j
                        + tabR (coeff dx dy) s
                          * aq (k + tabZ ke s)%Z (j + tabZ je s)%Z (tabZ ce s)))
                     FF)
                FF) as Hpw.
  cbv zeta in Hpw. apply Hpw; [| split; assumption].
  clear k j Hk Hj. intros k j A _ _. rewrite for_pure_unroll8. unfold upd2.
  split.
  - rewrite !Z.eqb_refl. cbn [andb]. unfold quad_sum, quad_term. reflexivity.
  - intros k' j' Hne.
    assert (Hf : ((k' =? k)%Z && (j' =? j)%Z) = false).
    { apply andb_false_iff.
      destruct Hne as [Hne | Hne]; [left | right]; apply Z.eqb_neq; exact Hne. }
    rewrite Hf. reflexivity.
Qed.

(** Outside the owned range the residual array is left as it was. *)
Lemma Ice_residual_loop_outside (am : Array2) (aq : Array3) (FF : Array2)
  (k j : Z) :
  ~ ((ys info <= k < ys info + ym info)%Z
     /\ (xs info <= j < xs info + xm info)%Z) ->
  residual_loop info dx dy am aq FF k j = FF k j.
Proof.
  intros Hout. unfold residual_loop.
  pose proof (for2_pure_pointwise (fun (A : Array2) k j => A k j)
                (fun k j _ => quad_sum dx dy aq k j (- am k j * dx * dy))
                (ys info) (ys info + ym info) (xs info) (xs info + xm info)
                (fun k j FF =>
                   let FF := upd2 FF k j (- am k j * dx * dy) in
                   for_pure 0 8 (fun s FF =>
                     upd2 FF k j
                       (FF k j
                        + tabR (coeff dx dy) s
                          * aq (k + tabZ ke s)%Z (j + tabZ je s)%Z (tabZ ce s)))
                     FF)
                FF) as Hpw.
  cbv zeta in Hpw. apply Hpw; [| exact Hout].
  clear k j Hout. intros k j A _ _. rewrite for_pure_unroll8. unfold upd2.
  split.
  - rewrite !Z.eqb_refl. cbn [andb]. unfold quad_sum, quad_term. reflexivity.
  - intros k' j' Hne.
    assert (Hf : ((k' =? k)%Z && (j' =? j)%Z) = false).
    { apply andb_false_iff.
      destruct Hne as [Hne | Hne]; [left | right]; apply Z.eqb_neq; exact Hne. }
    rewrite Hf. reflexivity.
Qed.

End IceLoops.

(** The residual that the loop nests leave at an owned node when the
    pointers designate arrays. *)
Lemma Ice_on_arrays_owned (info : DMDALocalInfo) (aH FF : Array2)
  (user : Ice.AppCtx) (loc : Ice.Locals) (k j : Z) :
  (ys info <= k < ys info + ym info)%Z ->
  (xs info <= j < xs info + xm info)%Z ->
  IceForms.on_arrays info aH FF user loc k j
  = IceForms.residual_at info user aH loc k j.
Proof.
  intros Hk Hj. unfold IceForms.on_arrays, IceForms.residual_at.
  cbv zeta.
  rewrite Ice_residual_loop_at by assumption.
  rewrite Ice_cmb_loop_at by assumption.
  unfold IceForms.quad_sum, IceForms.quad_term.
  rewrite !Ice_flux_loop_at; try reflexivity; eval_tabZ; lia.
Qed.

(** ** [FormIFunctionLocal]: faults and completed runs *)

Section IceRuns.

Import Ice IceForms.

Variable info : DMDALocalInfo.
Variable t : R.
Variables aH aHdot FF : Array2.
Variable user : AppCtx.

(** With the three pointers designating arrays the statements complete,
    and leave what the loop nests over these arrays compute. *)
Lemma Ice_with_arrays (loc : Locals) :
  FormIFunctionLocal_with info t aH aHdot FF user
    (Some (am0 loc)) (Some (ab0 loc)) (Some (aqquad0 loc))
  = Ok (on_arrays info aH FF user loc).
Proof.
  unfold FormIFunctionLocal_with, on_arrays. cbv zeta.
  set (dx := L user / IZR (mx info)). set (dy := L user / IZR (my info)).
  match goal with
  | |- bind ?m _ = _ =>
      assert (H1 : m = Ok (Some (flux_loop info user dx dy aH (ab0 loc)
                                   (aqquad0 loc))))
  end.
  { unfold flux_loop. apply for_res_some. intros k a.
    apply for_res_some. intros j a'. apply for_res_some. intros c a''.
    reflexivity. }
  rewrite H1. cbn [bind].
  match goal with
  | |- bind ?m _ = _ =>
      assert (H2 : m = Ok (Some (cmb_loop info user aH (ab0 loc) (am0 loc))))
  end.
  { unfold cmb_loop. destruct (cmb user) as [cm |]; [| reflexivity].
    apply for_res_some. intros k a. apply for_res_some. intros j a'.
    reflexivity. }
  rewrite H2. cbn [bind].
  unfold residual_loop. apply for_res_of_pure. intros k F.
  apply for_res_of_pure. intros j F'. cbn [read2 deref2 bind].
  apply for_res_of_pure. intros s F''. reflexivity.
Qed.

(** With [ab] designating no array, the first iteration of the first loop
    nest faults at the read of the bed gradient. *)
Lemma Ice_with_no_bed_faults (am : option Array2) (aqquad : option Array3) :
  (0 <= xm info)%Z -> (0 <= ym info)%Z ->
  FormIFunctionLocal_with info t aH aHdot FF user am None aqquad = Segv.
Proof.
  intros Hxm Hym. unfold FormIFunctionLocal_with. cbv zeta.
  match goal with
  | |- bind ?m _ = _ => assert (H1 : m = Segv)
  end.
  { apply for_res_first_segv; [lia |].
    apply for_res_first_segv; [lia |].
    apply for_res_first_segv; [lia |]. reflexivity. }
  rewrite H1. reflexivity.
Qed.

(** With [aqquad] designating no array, the first iteration of the first
    loop nest faults at the store of the flux. *)
Lemma Ice_with_no_flux_array_faults (am ab : option Array2) :
  (0 <= xm info)%Z -> (0 <= ym info)%Z ->
  FormIFunctionLocal_with info t aH aHdot FF user am ab None = Segv.
Proof.
  intros Hxm Hym. destruct ab as [b |];
    [| apply Ice_with_no_bed_faults; assumption].
  unfold FormIFunctionLocal_with. cbv zeta.
  match goal with
  | |- bind ?m _ = _ => assert (H1 : m = Segv)
  end.
  { apply for_res_first_segv; [lia |].
    apply for_res_first_segv; [lia |].
    apply for_res_first_segv; [lia |]. reflexivity. }
  rewrite H1. reflexivity.
Qed.

(** With [am] designating no array and owned nodes to visit, the run
    faults at the store of the CMB or, without a CMB model, at the read of
    [am] in the last loop nest. *)
Lemma Ice_with_no_cmb_array_faults (ab : option Array2)
  (aqquad : option Array3) :
  (0 < xm info)%Z -> (0 < ym info)%Z ->
  FormIFunctionLocal_with info t aH aHdot FF user None ab aqquad = Segv.
Proof.
  intros Hxm Hym.
  destruct ab as [b |]; [| apply Ice_with_no_bed_faults; lia].
  destruct aqquad as [q |]; [| apply Ice_with_no_flux_array_faults; lia].
  unfold FormIFunctionLocal_with. cbv zeta.
  set (dx := L user / IZR (mx info)). set (dy := L user / IZR (my info)).
  match goal with
  | |- bind ?m _ = _ =>
      assert (H1 : m = Ok (Some (flux_loop info user dx dy aH b q)))
  end.
  { unfold flux_loop. apply for_res_some. intros k a.
    apply for_res_some. intros j a'. apply for_res_some. intros c a''.
    reflexivity. }
  rewrite H1. cbn [bind].
  destruct (cmb user) as [cm |].
  - match goal with
    | |- bind ?m _ = _ => assert (H2 : m = Segv)
    end.
    { apply for_res_first_segv; [lia |].
      apply for_res_first_segv; [lia |]. reflexivity. }
    rewrite H2. reflexivity.
  - cbn [bind].
    apply for_res_first_segv; [lia |].
    apply for_res_first_segv; [lia |]. reflexivity.
Qed.

(** A run that visits an owned node completes only with the three
    pointers designating arrays, and then leaves what the loop nests over
    these arrays compute. *)
Lemma Ice_with_completes (am ab : option Array2) (aqquad : option Array3)
  (r : Array2) :
  (0 < xm info)%Z -> (0 < ym info)%Z ->
  FormIFunctionLocal_with info t aH aHdot FF user am ab aqquad = Ok r ->
  exists loc : Locals,
    am = Some (am0 loc) /\ ab = Some (ab0 loc)
    /\ aqquad = Some (aqquad0 loc)
    /\ r = on_arrays info aH FF user loc.
Proof.
  intros Hxm Hym Hrun.
  destruct ab as [b |];
    [| rewrite Ice_with_no_bed_faults in Hrun by lia; discriminate].
  destruct aqquad as [q |];
    [| rewrite Ice_with_no_flux_array_faults in Hrun by lia; discriminate].
  destruct am as [a |];
    [| rewrite Ice_with_no_cmb_array_faults in Hrun by lia; discriminate].
  exists (mkLocals a b q). cbn [am0 ab0 aqquad0].
  repeat split.
  pose proof (Ice_with_arrays (mkLocals a b q)) as Hok.
  cbn [am0 ab0 aqquad0] in Hok. rewrite Hok in Hrun.
  inversion Hrun. reflexivity.
Qed.

(** As written, with the three pointers never assigned, the function
    faults as soon as the first loop nest has an element to visit. *)
Lemma Ice_unassigned_faults :
  (0 <= xm info)%Z -> (0 <= ym info)%Z ->
  FormIFunctionLocal info t aH aHdot FF user = Segv.
Proof.
  intros Hxm Hym. unfold FormIFunctionLocal.
  apply Ice_with_no_bed_faults; assumption.
Qed.

End IceRuns.

(** ** Table reads and the power function *)

Lemma tabR_0 (a : R) (l : list R) : tabR (a :: l) 0 = a.
Proof. reflexivity. Qed.
Lemma tabR_1 (a b : R) (l : list R) : tabR (a :: b :: l) 1 = b.
Proof. reflexivity. Qed.
Lemma tabR_2 (a b c : R) (l : list R) : tabR (a :: b :: c :: l) 2 = c.
Proof. reflexivity. Qed.
Lemma tabR_3 (a b c d : R) (l : list R) : tabR (a :: b :: c :: d :: l) 3 = d.
Proof. reflexivity. Qed.
Lemma tabR_4 (a b c d e : R) (l : list R) :
  tabR (a :: b :: c :: d :: e :: l) 4 = e.
Proof. reflexivity. Qed.
Lemma tabR_5 (a b c d e f : R) (l : list R) :
  tabR (a :: b :: c :: d :: e :: f :: l) 5 = f.
Proof. reflexivity. Qed.
Lemma tabR_6 (a b c d e f g : R) (l : list R) :
  tabR (a :: b :: c :: d :: e :: f :: g :: l) 6 = g.
Proof. reflexivity. Qed.
Lemma tabR_7 (a b c d e f g h : R) (l : list R) :
  tabR (a :: b :: c :: d :: e :: f :: g :: h :: l) 7 = h.
Proof. reflexivity. Qed.

Create Rewrite HintDb tab.

(** The decimal literals of the sources, as fractions. *)
Lemma lit_0_0 : 0.0 = 0.
Proof. lra. Qed.
Lemma lit_1_0 : 1.0 = 1.
Proof. lra. Qed.
Lemma lit_m1_0 : -1.0 = -1.
Proof. lra. Qed.
Lemma lit_2_0 : 2.0 = 2.
Proof. lra. Qed.
Lemma lit_0_5 : 0.5 = 1 / 2.
Proof. lra. Qed.
Lemma lit_0_25 : 0.25 = 1 / 4.
Proof. lra. Qed.
Lemma lit_0_75 : 0.75 = 3 / 4.
Proof. lra. Qed.

Ltac lits :=
  rewrite ?lit_0_0, ?lit_1_0, ?lit_m1_0, ?lit_2_0, ?lit_0_5, ?lit_0_25, ?lit_0_75 in *.
#[local] Hint Rewrite tabR_0 tabR_1 tabR_2 tabR_3 tabR_4 tabR_5 tabR_6 tabR_7
  : tab.

Lemma PetscPowReal_nonneg (a b : R) : 0 <= PetscPowReal a b.
Proof.
  unfold PetscPowReal.
  destruct (Req_dec_T a 0) as [Ha | Ha].
  - destruct (Req_dec_T b 0); lra.
  - unfold Rpower. left. apply exp_pos.
Qed.

Lemma PetscPowReal_pos (a b : R) : a <> 0 -> 0 < PetscPowReal a b.
Proof.
  intros Ha. unfold PetscPowReal.
  destruct (Req_dec_T a 0) as [Ha' | Ha']; [contradiction |].
  unfold Rpower. apply exp_pos.
Qed.

Lemma PetscPowReal_zero_base (b : R) : 0 < b -> PetscPowReal 0 b = 0.
Proof.
  intros Hb. unfold PetscPowReal.
  destruct (Req_dec_T 0 0) as [_ | H0]; [| contradiction H0; reflexivity].
  destruct (Req_dec_T b 0); [lra | reflexivity].
Qed.

Lemma PetscPowReal_one_exp (a b : R) : 0 < a -> b = 1 -> PetscPowReal a b = a.
Proof.
  intros Ha ->. unfold PetscPowReal.
  destruct (Req_dec_T a 0); [lra |]. apply Rpower_1. exact Ha.
Qed.

Lemma PetscPowReal_one_base (b : R) : PetscPowReal 1 b = 1.
Proof.
  unfold PetscPowReal.
  destruct (Req_dec_T 1 0); [lra |].
  unfold Rpower. rewrite ln_1, Rmult_0_r. apply exp_0.
Qed.

Lemma PetscAbsReal_abs (a : R) : PetscAbsReal (PetscAbsReal a) = PetscAbsReal a.
Proof. unfold PetscAbsReal. apply Rabs_Rabsolu. Qed.

(** ** The Q1 kernel and the flux of [ice.c] *)

Section IceKernel.

Import Ice IceForms.

Lemma Ice_fieldatpt_const (f : Array2) (u v : Z) (xi eta c : R) :
  corners_const f u v c -> fieldatpt u v xi eta f = c.
Proof.
  intros (H0 & H1 & H2 & H3). unfold fieldatpt. cbv zeta.
  autorewrite with tab. rewrite H0, H1, H2, H3. lits. ring.
Qed.

Lemma Ice_gradfatpt_const (f : Array2) (u v : Z) (xi eta dx dy c : R) :
  corners_const f u v c -> gradfatpt u v xi eta dx dy f = mkGrad 0 0.
Proof.
  intros (H0 & H1 & H2 & H3). unfold gradfatpt, gx, gy. cbv zeta.
  autorewrite with tab. rewrite H0, H1, H2, H3. lits.
  f_equal; unfold Rdiv; ring.
Qed.

(** With a vanishing thickness gradient the flux is the bed-driven part. *)
Lemma Ice_getflux_flat_H (gb : Grad) (H Hup : R) (xdir : bool) (user : AppCtx) :
  getflux (mkGrad 0 0) gb H Hup xdir user
  = - getdelta (mkGrad 0 0) gb user * (if xdir then x gb else y gb)
    * PetscPowReal (PetscAbsReal Hup) (n_ice user + 2.0).
Proof.
  unfold getflux, getW. cbv zeta. destruct xdir; cbn [x y]; ring.
Qed.

Lemma Ice_getflux_flat (H Hup : R) (xdir : bool) (user : AppCtx) :
  getflux (mkGrad 0 0) (mkGrad 0 0) H Hup xdir user = 0.
Proof.
  rewrite Ice_getflux_flat_H. destruct xdir; cbn [x y]; ring.
Qed.

Lemma Ice_Hup_at_const (user : AppCtx) (aH : Array2) (j k c : Z) (gb : Grad)
  (H0 : R) :
  corners_const aH j k H0 -> Hup_at user aH j k c gb H0 = H0.
Proof.
  intros Hc. unfold Hup_at. cbv zeta.
  destruct (Rgtb (lambda user) 0.0); [| reflexivity].
  apply Ice_fieldatpt_const. exact Hc.
Qed.

(** The flux at a point of an element on whose corners the thickness is
    constant. *)
Lemma Ice_flux_at_const_H (user : AppCtx) (dx dy : R) (aH ab : Array2)
  (k j c : Z) (H0 : R) :
  corners_const aH j k H0 ->
  let gb := gradfatpt j k (tabR locx c) (tabR locy c) dx dy ab in
  flux_at user dx dy aH ab k j c
  = - getdelta (mkGrad 0 0) gb user * (if tabB xdire c then x gb else y gb)
    * PetscPowReal (PetscAbsReal H0) (n_ice user + 2.0).
Proof.
  intros Hc gb. unfold flux_at. cbv zeta.
  rewrite (Ice_fieldatpt_const aH j k _ _ H0 Hc).
  rewrite (Ice_gradfatpt_const aH j k _ _ dx dy H0 Hc).
  rewrite (Ice_Hup_at_const user aH j k c _ H0 Hc).
  apply Ice_getflux_flat_H.
Qed.

Lemma Ice_flux_at_flat (user : AppCtx) (dx dy : R) (aH ab : Array2)
  (k j c : Z) (H0 b0 : R) :
  corners_const aH j k H0 ->
  corners_const ab j k b0 ->
  flux_at user dx dy aH ab k j c = 0.
Proof.
  intros HcH Hcb.
  rewrite (Ice_flux_at_const_H user dx dy aH ab k j c H0 HcH).
  rewrite (Ice_gradfatpt_const ab j k _ _ dx dy b0 Hcb).
  destruct (tabB xdire c); cbn [x y]; ring.
Qed.

End IceKernel.

(** ** Evaluations of the residual forms on the 4 x 4 grid *)

Section IceEvaluations.

Import Ice IceForms IceInputs.

Lemma user4_getdelta (c : option CMBModel) (gb : Grad) :
  getdelta (mkGrad 0 0) gb (user4 c) = x gb * x gb + y gb * y gb + 1.
Proof.
  unfold getdelta, user4. cbn [n_ice Gamma delta x y]. unfold Rgtb.
  destruct (Rlt_dec 1.0 3) as [_ | Hn]; [| exfalso; apply Hn; lra].
  rewrite PetscPowReal_one_exp; [ring | nra | lra].
Qed.

Lemma user4_pow_one (c : option CMBModel) :
  PetscPowReal (PetscAbsReal 1) (n_ice (user4 c) + 2.0) = 1.
Proof.
  unfold PetscAbsReal. rewrite Rabs_R1. apply PetscPowReal_one_base.
Qed.

Lemma const_field_corners (v : R) (u w : Z) :
  corners_const (const_field v) u w v.
Proof. unfold corners_const, const_field. auto. Qed.

Ltac eval_bump :=
  repeat match goal with
         | |- context [bump_bed ?a ?b] =>
             let v := eval vm_compute in (bump_bed a b) in
             change (bump_bed a b) with v
         end.

(** With thickness 1 everywhere, zero CMB and the bump bed, the residual at
    node (1,1) is 87/16. *)
Lemma bump_residual_value :
  residual_at info4 (user4 (Some cmb_zero)) (const_field 1)
    (locals_with_bed bump_bed) 1 1
  = 87 / 16.
Proof.
  unfold residual_at, quad_sum, quad_term, am_at. cbv zeta.
  cbn [cmb user4 locals_with_bed am0 ab0].
  unfold M_CMBModel, cmb_zero. cbn [zgrad ela].
  rewrite !(fun k j c =>
              Ice_flux_at_const_H (user4 (Some (mkCMBModel 0 0))) _ _
                (const_field 1) bump_bed k j c 1
                (const_field_corners 1 j k)).
  rewrite !user4_getdelta, user4_pow_one.
  eval_tabZ. unfold gradfatpt, coeff, locx, locy, gx, gy. cbv zeta.
  cbn [x y]. autorewrite with tab. eval_bump.
  unfold const_field. cbn [L mx my info4 user4]. lits. field.
Qed.

End IceEvaluations.

(** ** Claims about [ice.c] *)

Section IceClaims.

Import Ice IceForms IceInputs.

(** The residual at an owned node of a run with the pointers designating
    the arrays [loc]. *)
Lemma Ice_with_arrays_at (info : DMDALocalInfo) (t : R)
  (aH aHdot FF : Array2) (user : AppCtx) (loc : Locals) (k j : Z) (v : R) :
  (ys info <= k < ys info + ym info)%Z ->
  (xs info <= j < xs info + xm info)%Z ->
  residual_at info user aH loc k j = v ->
  exists r,
    FormIFunctionLocal_with info t aH aHdot FF user
      (Some (am0 loc)) (Some (ab0 loc)) (Some (aqquad0 loc)) = Ok r
    /\ r k j = v.
Proof.
  intros Hk Hj Hv. exists (on_arrays info aH FF user loc).
  split; [apply Ice_with_arrays |].
  rewrite Ice_on_arrays_owned by assumption. exact Hv.
Qed.

(** C1.  The claim says that the implicit residual depends on the
    time-derivative field Hdot.  The code never reads [aHdot]: for every
    grid, time, thickness field and context, any two time-derivative fields
    give the same outcome, both of the function as written and of its
    statements run with any values of the three local pointers; so on the
    4 x 4 grid, with thickness 1, zero CMB and the pointers designating
    arrays that hold the bump bed, the residual at node (1,1) is 87/16 both
    for Hdot = 0 and for Hdot = 1. *)
Theorem C1_residual_ignores_Hdot :
  (forall (info : DMDALocalInfo) (t : R) (aH aHdot aHdot' FF : Array2)
          (user : AppCtx),
      FormIFunctionLocal info t aH aHdot FF user
      = FormIFunctionLocal info t aH aHdot' FF user)
  /\ (forall (info : DMDALocalInfo) (t : R) (aH aHdot aHdot' FF : Array2)
             (user : AppCtx) (am ab : option Array2)
             (aqquad : option Array3),
         FormIFunctionLocal_with info t aH aHdot FF user am ab aqquad
         = FormIFunctionLocal_with info t aH aHdot' FF user am ab aqquad)
  /\ (exists r,
         FormIFunctionLocal_with info4 0 (const_field 1) Hdot_zero
           (const_field 0) (user4 (Some cmb_zero))
           (Some (const_field 0)) (Some bump_bed) (Some zero3) = Ok r
         /\ r 1%Z 1%Z = 87 / 16)
  /\ (exists r,
         FormIFunctionLocal_with info4 0 (const_field 1) Hdot_one
           (const_field 0) (user4 (Some cmb_zero))
           (Some (const_field 0)) (Some bump_bed) (Some zero3) = Ok r
         /\ r 1%Z 1%Z = 87 / 16).
Proof.
  split; [reflexivity |]. split; [reflexivity |].
  split.
  - apply (Ice_with_arrays_at info4 0 (const_field 1) Hdot_zero
             (const_field 0) (user4 (Some cmb_zero))
             (locals_with_bed bump_bed) 1 1 (87 / 16));
      [cbn; lia | cbn; lia | apply bump_residual_value].
  - apply (Ice_with_arrays_at info4 0 (const_field 1) Hdot_one
             (const_field 0) (user4 (Some cmb_zero))
             (locals_with_bed bump_bed) 1 1 (87 / 16));
      [cbn; lia | cbn; lia | apply bump_residual_value].
Qed.

(** Whatever the three local pointers hold, a run that completes leaves at
    an owned node the flux quadrature started from minus the CMB at the
    node times the cell area. *)
Lemma Ice_residual_contains_cmb (info : DMDALocalInfo) (t : R)
  (aH aHdot FF : Array2) (user : AppCtx) (am ab : option Array2)
  (aqquad : option Array3) (r : Array2) (c : CMBModel) (k j : Z) :
  cmb user = Some c ->
  (ys info <= k < ys info + ym info)%Z ->
  (xs info <= j < xs info + xm info)%Z ->
  FormIFunctionLocal_with info t aH aHdot FF user am ab aqquad = Ok r ->
  let dx := L user / IZR (mx info) in
  let dy := L user / IZR (my info) in
  exists b,
    ab = Some b
    /\ r k j
       = quad_sum dx dy (fun k j c => flux_at user dx dy aH b k j c) k j 0
         - M_CMBModel c (b k j + aH k j) * dx * dy.
Proof.
  intros Hc Hk Hj Hrun dx dy.
  destruct (Ice_with_completes info t aH aHdot FF user am ab aqquad r)
    as (loc & _ & Eb & _ & Er); [lia | lia | exact Hrun |].
  exists (ab0 loc). split; [exact Eb |].
  rewrite Er. rewrite Ice_on_arrays_owned by assumption.
  unfold residual_at, am_at, quad_sum. rewrite Hc. cbv zeta.
  fold dx dy. ring.
Qed.

(** On a flat bed under a uniform thickness every flux vanishes. *)
Lemma Ice_quad_sum_flat (info : DMDALocalInfo) (user : AppCtx)
  (aH ab : Array2) (H0 b0 start : R) (dx dy : R) (k j : Z) :
  (forall k' j', (k - 1 <= k' <= k + 1)%Z -> (j - 1 <= j' <= j + 1)%Z ->
                 aH k' j' = H0) ->
  (forall k' j', (k - 1 <= k' <= k + 1)%Z -> (j - 1 <= j' <= j + 1)%Z ->
                 ab k' j' = b0) ->
  quad_sum dx dy (fun k j c => flux_at user dx dy aH ab k j c) k j start
  = start.
Proof.
  intros HH Hb.
  assert (Hz : forall k' j' c, (k - 1 <= k' <= k)%Z -> (j - 1 <= j' <= j)%Z ->
                               flux_at user dx dy aH ab k' j' c = 0).
  { intros k' j' c Hk' Hj'.
    apply (Ice_flux_at_flat user dx dy aH ab k' j' c H0 b0);
      unfold corners_const; repeat split;
      first [apply HH | apply Hb]; lia. }
  unfold quad_sum, quad_term. eval_tabZ.
  rewrite !Hz by lia. ring.
Qed.

(** With thickness 1, zero CMB and a bed that is 0 everywhere, the
    residual at node (1,1) is 0. *)
Lemma flat_residual_value :
  residual_at info4 (user4 (Some cmb_zero)) (const_field 1)
    (locals_with_bed (const_field 0)) 1 1
  = 0.
Proof.
  unfold residual_at. cbv zeta.
  rewrite (Ice_quad_sum_flat info4 (user4 (Some cmb_zero)) (const_field 1)
             (ab0 (locals_with_bed (const_field 0))) 1 0 _ _ _ 1%Z 1%Z);
    [| reflexivity | reflexivity].
  unfold am_at, M_CMBModel, cmb_zero. cbn [cmb user4 zgrad ela]. ring.
Qed.

(** C2.  The claim says that the CMB term is left to the right-hand-side
    function, so that only the flux divergence enters the implicit
    residual.  The second loop nest of [FormIFunctionLocal] evaluates the
    CMB model and the third subtracts it: on the 4 x 4 grid with
    thickness 1 and the CMB model (ela 0, zgrad 1), run with the pointers
    designating arrays that hold the flat bed 0, the flux quadrature at
    node (1,1) is 0 while the residual left there is minus the CMB times
    the cell area, that is -1; and whatever the three local pointers hold,
    for every grid, thickness field and context with a CMB model, a run
    that completes leaves at every owned node the flux quadrature minus
    the CMB at the node times the cell area. *)
Theorem C2_residual_contains_cmb :
  let user := user4 (Some cmb_unit) in
  let loc := locals_with_bed (const_field 0) in
  let aH := const_field 1 in
  let dx := L user / IZR (mx info4) in
  let dy := L user / IZR (my info4) in
  quad_sum dx dy (fun k j c => flux_at user dx dy aH (ab0 loc) k j c) 1%Z 1%Z 0 = 0
  /\ (exists r,
         FormIFunctionLocal_with info4 0 aH Hdot_zero (const_field 0) user
           (Some (am0 loc)) (Some (ab0 loc)) (Some (aqquad0 loc)) = Ok r
         /\ r 1%Z 1%Z
            = - M_CMBModel cmb_unit (ab0 loc 1%Z 1%Z + aH 1%Z 1%Z) * dx * dy
         /\ r 1%Z 1%Z = -1)
  /\ (forall (info : DMDALocalInfo) (t : R) (aH aHdot FF : Array2)
             (user : AppCtx) (am ab : option Array2)
             (aqquad : option Array3) (r : Array2) (c : CMBModel)
             (k j : Z),
         cmb user = Some c ->
         (ys info <= k < ys info + ym info)%Z ->
         (xs info <= j < xs info + xm info)%Z ->
         FormIFunctionLocal_with info t aH aHdot FF user am ab aqquad = Ok r ->
         exists b,
           ab = Some b
           /\ r k j
              = quad_sum (L user / IZR (mx info)) (L user / IZR (my info))
                  (fun k j c =>
                     flux_at user (L user / IZR (mx info))
                       (L user / IZR (my info)) aH b k j c) k j 0
                - M_CMBModel c (b k j + aH k j)
                  * (L user / IZR (mx info)) * (L user / IZR (my info))).
Proof.
  intros user loc aH dx dy.
  assert (Hq : quad_sum dx dy
                 (fun k j c => flux_at user dx dy aH (ab0 loc) k j c) 1%Z 1%Z 0 = 0).
  { apply (Ice_quad_sum_flat info4 user aH (ab0 loc) 1 0 0 dx dy 1%Z 1%Z);
      reflexivity. }
  split; [exact Hq |].
  split;
    [| intros info t aH' aHdot FF user' am ab aqquad r c k j Hc Hk Hj Hrun;
       exact (Ice_residual_contains_cmb info t aH' aHdot FF user' am ab aqquad
                r c k j Hc Hk Hj Hrun)].
  exists (on_arrays info4 aH (const_field 0) user loc).
  split; [apply Ice_with_arrays |].
  assert (HF : on_arrays info4 aH (const_field 0) user loc 1%Z 1%Z
               = - M_CMBModel cmb_unit (ab0 loc 1%Z 1%Z + aH 1%Z 1%Z) * dx * dy).
  { destruct (Ice_residual_contains_cmb info4 0 aH Hdot_zero (const_field 0)
                user (Some (am0 loc)) (Some (ab0 loc)) (Some (aqquad0 loc))
                (on_arrays info4 aH (const_field 0) user loc) cmb_unit
                1%Z 1%Z)
      as (b & Eb & Er);
      [reflexivity | cbn; lia | cbn; lia | apply Ice_with_arrays |].
    inversion Eb; subst b. rewrite Er. fold dx dy.
    change (ab0 loc) with (const_field 0) in Hq |- *. rewrite Hq. ring. }
  split; [exact HF |].
  rewrite HF. unfold M_CMBModel, cmb_unit, dx, dy, aH, loc, user.
  cbn [ela zgrad ab0 locals_with_bed L mx my user4 info4]. unfold const_field.
  field.
Qed.

(** C3.  The claim says that the bed values come from the Bed provider.  In
    [FormIFunctionLocal] the array [ab] is a local pointer that no statement
    assigns, and no provider is called: as written, the call on the 4 x 4
    grid with thickness 1 and zero CMB faults at the first read through
    [ab]; and the statements compute the residual from whatever [ab]
    designates: run with [ab] designating an array, the residual at node
    (1,1) is 87/16 when that array holds the bump bed and 0 when it holds
    zeros. *)
Theorem C3_bed_is_unassigned_local :
  FormIFunctionLocal info4 0 (const_field 1) Hdot_zero (const_field 0)
    (user4 (Some cmb_zero)) = Segv
  /\ (exists r,
         FormIFunctionLocal_with info4 0 (const_field 1) Hdot_zero
           (const_field 0) (user4 (Some cmb_zero))
           (Some (const_field 0)) (Some bump_bed) (Some zero3) = Ok r
         /\ r 1%Z 1%Z = 87 / 16)
  /\ (exists r,
         FormIFunctionLocal_with info4 0 (const_field 1) Hdot_zero
           (const_field 0) (user4 (Some cmb_zero))
           (Some (const_field 0)) (Some (const_field 0)) (Some zero3) = Ok r
         /\ r 1%Z 1%Z = 0).
Proof.
  split; [apply Ice_unassigned_faults; cbn; lia |].
  split.
  - apply (Ice_with_arrays_at info4 0 (const_field 1) Hdot_zero
             (const_field 0) (user4 (Some cmb_zero))
             (locals_with_bed bump_bed) 1 1 (87 / 16));
      [cbn; lia | cbn; lia | apply bump_residual_value].
  - apply (Ice_with_arrays_at info4 0 (const_field 1) Hdot_zero
             (const_field 0) (user4 (Some cmb_zero))
             (locals_with_bed (const_field 0)) 1 1 0);
      [cbn; lia | cbn; lia | apply flat_residual_value].
Qed.

(** C4.  The claim says that for a uniform thickness on a periodic grid
    with zero CMB the assembled residual is zero at every interior node.
    [FormIFunctionLocal] assembles no residual: it reads the bed and stores
    the fluxes and the CMB through the pointers [ab], [aqquad] and [am],
    which no statement assigns.  On the periodic 4 x 4 grid owned by one
    process, for every uniform thickness H0, every time, time derivative
    and output array, and a CMB model that is zero at every surface
    elevation, the call faults and returns no residual array. *)
Theorem C4_uniform_field_no_residual :
  (forall s, M_CMBModel cmb_zero s = 0)
  /\ (forall (H0 t : R) (aHdot FF : Array2),
         FormIFunctionLocal info4 t (const_field H0) aHdot FF
           (user4 (Some cmb_zero)) = Segv)
  /\ (forall (H0 t : R) (aHdot FF r : Array2),
         FormIFunctionLocal info4 t (const_field H0) aHdot FF
           (user4 (Some cmb_zero)) <> Ok r).
Proof.
  split; [intros s0; unfold M_CMBModel, cmb_zero; cbn [zgrad ela]; ring |].
  assert (Hf : forall (H0 t : R) (aHdot FF : Array2),
             FormIFunctionLocal info4 t (const_field H0) aHdot FF
               (user4 (Some cmb_zero)) = Segv).
  { intros H0 t aHdot FF. apply Ice_unassigned_faults; cbn; lia. }
  split; [exact Hf |].
  intros H0 t aHdot FF r. rewrite Hf. discriminate.
Qed.

(** C5, as stated, fails: with [eps = 0] and thickness 0 the diffusivity is
    0, and so is the x-flux, although gH.x = 1 > 0, gb = (0,0), delta = 1,
    D0 = 10 and Gamma = 1. *)
Lemma C5_counterexample :
  0 < x (mkGrad 1 0)
  /\ 0 < delta user_eps0
  /\ 0 <= eps user_eps0 < 1
  /\ 0 < D0 user_eps0
  /\ 0 < Gamma user_eps0
  /\ DCS (getdelta (mkGrad 1 0) (mkGrad 0 0) user_eps0) 0 (n_ice user_eps0)
       (eps user_eps0) (D0 user_eps0) = 0
  /\ getflux (mkGrad 1 0) (mkGrad 0 0) 0 0 true user_eps0 = 0.
Proof.
  assert (Hp : PetscPowReal (PetscAbsReal 0) (n_ice user_eps0 + 2.0) = 0).
  { unfold PetscAbsReal. rewrite Rabs_R0. apply PetscPowReal_zero_base.
    cbn [n_ice user_eps0]. lra. }
  cbn [x delta eps D0 Gamma user_eps0].
  repeat split; try lra.
  - unfold DCS. cbn [n_ice eps D0 user_eps0] in *. rewrite Hp. lits. ring.
  - unfold getflux, DCS, getW. cbv zeta. cbn [x y].
    cbn [n_ice eps D0 user_eps0] in *. rewrite Hp. lits. ring.
Qed.

Lemma Ice_getdelta_pos (gH gb : Grad) (user : AppCtx) :
  0 < delta user -> 0 < Gamma user -> 0 < getdelta gH gb user.
Proof.
  intros Hd HG. unfold getdelta. cbv zeta.
  destruct (Rgtb (n_ice user) 1.0); [| exact HG].
  apply Rmult_lt_0_compat; [exact HG |].
  apply PetscPowReal_pos. apply Rgt_not_eq.
  pose proof (Rle_0_sqr (x gH + x gb)) as Hsx.
  pose proof (Rle_0_sqr (y gH + y gb)) as Hsy.
  unfold Rsqr in Hsx, Hsy. nra.
Qed.

(** C5, amended.  For gH.x > 0, zero bed slope, delta > 0, eps in [0,1),
    D0 > 0 and Gamma > 0, and in addition eps > 0 or a thickness H that is
    not zero, the x-flux equals -D gH.x with D > 0 and is negative. *)
Theorem C5_flux_sign (user : AppCtx) (gH gb : Grad) (H Hup : R) :
  0 < x gH ->
  gb = mkGrad 0 0 ->
  0 < delta user ->
  0 <= eps user < 1 ->
  0 < D0 user ->
  0 < Gamma user ->
  0 < eps user \/ H <> 0 ->
  let D := DCS (getdelta gH gb user) H (n_ice user) (eps user) (D0 user) in
  getflux gH gb H Hup true user = - D * x gH
  /\ 0 < D
  /\ getflux gH gb H Hup true user < 0.
Proof.
  intros Hx -> Hd He HD0 HG Hreg D.
  assert (Hflux : getflux gH (mkGrad 0 0) H Hup true user = - D * x gH).
  { unfold getflux, getW. cbv zeta. cbn [x y]. fold D. ring. }
  assert (Hsig : 0 < getdelta gH (mkGrad 0 0) user)
    by (apply Ice_getdelta_pos; assumption).
  assert (HDpos : 0 < D).
  { unfold D, DCS. lits.
    pose proof (PetscPowReal_nonneg (PetscAbsReal H) (n_ice user + 2)) as Hp0.
    destruct Hreg as [Hreg | Hreg].
    - assert (0 <= (1 - eps user) * getdelta gH (mkGrad 0 0) user
                   * PetscPowReal (PetscAbsReal H) (n_ice user + 2)).
      { apply Rmult_le_pos; [| exact Hp0]. apply Rmult_le_pos; lra. }
      assert (0 < eps user * D0 user) by (apply Rmult_lt_0_compat; lra).
      lra.
    - assert (Hp : 0 < PetscPowReal (PetscAbsReal H) (n_ice user + 2)).
      { apply PetscPowReal_pos. unfold PetscAbsReal. apply Rabs_no_R0.
        exact Hreg. }
      assert (0 < (1 - eps user) * getdelta gH (mkGrad 0 0) user
                  * PetscPowReal (PetscAbsReal H) (n_ice user + 2)).
      { apply Rmult_lt_0_compat; [| exact Hp]. apply Rmult_lt_0_compat; lra. }
      assert (0 <= eps user * D0 user) by (apply Rmult_le_pos; lra).
      lra. }
  split; [exact Hflux | split; [exact HDpos |]].
  rewrite Hflux. nra.
Qed.

Lemma C5_flux_sign_witness :
  getflux (mkGrad 1 0) (mkGrad 0 0) 1 1 true (user4 None) < 0.
Proof.
  refine (proj2 (proj2
            (C5_flux_sign (user4 None) (mkGrad 1 0) (mkGrad 0 0) 1 1
               _ _ _ _ _ _ _))).
  - cbn [x]. lra.
  - reflexivity.
  - cbn [delta user4]. lra.
  - cbn [eps user4]. lra.
  - cbn [D0 user4]. lra.
  - cbn [Gamma user4]. lra.
  - left. cbn [eps user4]. lra.
Defined.

End IceClaims.

(** ** Configuration of [ice.c] *)

Section IceConfig.

Import Ice IceInputs.

(** The Glen exponent tested by [SetFromOptionsAppCtx]: the value of the
    flag [-ice_n] when given, and 3.0 otherwise. *)
Lemma SetFromOptionsAppCtx_cases (opts : Options) (user0 : AppCtx) :
  let n := PetscOptionsReal (opt_n opts) 3.0 in
  (n <= 1 /\ SetFromOptionsAppCtx opts user0 = Err (n_error n))
  \/ (1 < n /\ exists user, SetFromOptionsAppCtx opts user0 = Ok user
                            /\ n_ice user = n).
Proof.
  intros n.
  cbv beta iota zeta delta
    [SetFromOptionsAppCtx set_L set_n_ice set_g set_rho_ice set_secpera
       set_A_ice set_initmagic set_delta set_lambda set_cmb set_D0 set_eps
       set_Gamma L tf secpera g rho_ice n_ice A_ice Gamma D0 eps delta lambda
       initmagic cmb].
  fold n. unfold Rleb.
  destruct (Rle_dec n 1.0) as [Hle | Hgt].
  - left. split; [lra | reflexivity].
  - right. split; [lra |]. eexists. split; reflexivity.
Qed.

(** C9.  Configuration fails exactly when the Glen exponent is at most 1:
    it then fails with error code 11, and [main] returns that error having
    made no call to PETSc after [PetscInitialize], hence none that creates
    or uses the grid; with an exponent above 1 configuration succeeds with
    that exponent.  In particular n = 1.0 and n = 0.5 are rejected and
    n = 3.0 is accepted. *)
Theorem C9_config_rejects_iff_n_le_1 (opts : Options) (user0 : AppCtx) :
  let n := PetscOptionsReal (opt_n opts) 3.0 in
  ((exists e, SetFromOptionsAppCtx opts user0 = Err e) <-> n <= 1)
  /\ (n <= 1 ->
      SetFromOptionsAppCtx opts user0 = Err (n_error n)
      /\ errcode (n_error n) = 11%Z
      /\ main opts user0 = ([EvPetscInitialize], Err (n_error n)))
  /\ (1 < n ->
      exists user, SetFromOptionsAppCtx opts user0 = Ok user /\ n_ice user = n)
  /\ SetFromOptionsAppCtx (opts_n 1.0) user0 = Err (n_error 1.0)
  /\ SetFromOptionsAppCtx (opts_n 0.5) user0 = Err (n_error 0.5)
  /\ (exists user, SetFromOptionsAppCtx (opts_n 3.0) user0 = Ok user
                   /\ n_ice user = 3.0).
Proof.
  intros n.
  assert (Hrej : forall o, PetscOptionsReal (opt_n o) 3.0 <= 1 ->
                   SetFromOptionsAppCtx o user0
                   = Err (n_error (PetscOptionsReal (opt_n o) 3.0))).
  { intros o Ho.
    destruct (SetFromOptionsAppCtx_cases o user0) as [[_ H] | [H _]];
      [exact H | lra]. }
  assert (Hacc : forall o, 1 < PetscOptionsReal (opt_n o) 3.0 ->
                   exists user, SetFromOptionsAppCtx o user0 = Ok user
                                /\ n_ice user = PetscOptionsReal (opt_n o) 3.0).
  { intros o Ho.
    destruct (SetFromOptionsAppCtx_cases o user0) as [[H _] | [_ H]];
      [lra | exact H]. }
  split; [| split; [| split; [| split; [| split]]]].
  - split.
    + intros [e He].
      destruct (Rle_lt_dec n 1) as [Hle | Hlt]; [exact Hle |].
      destruct (Hacc opts Hlt) as (u & Hu & _). congruence.
    + intros Hle. eexists. apply (Hrej opts Hle).
  - intros Hle. split; [exact (Hrej opts Hle) |]. split; [reflexivity |].
    unfold main. rewrite (Hrej opts Hle). reflexivity.
  - exact (Hacc opts).
  - apply (Hrej (opts_n 1.0)). cbn [opts_n opt_n PetscOptionsReal]. lra.
  - apply (Hrej (opts_n 0.5)). cbn [opts_n opt_n PetscOptionsReal]. lra.
  - apply (Hacc (opts_n 3.0)). cbn [opts_n opt_n PetscOptionsReal]. lra.
Qed.

Lemma C9_config_rejects_iff_n_le_1_witness :
  main (opts_n 0.5) user_blank = ([EvPetscInitialize], Err (n_error 0.5))
  /\ exists user, SetFromOptionsAppCtx (opts_n 3.0) user_blank = Ok user
                  /\ n_ice user = 3.0.
Proof.
  pose proof (C9_config_rejects_iff_n_le_1 (opts_n 0.5) user_blank)
    as (_ & Hrej & _ & _ & _ & Hacc).
  split.
  - apply Hrej. cbn [opts_n opt_n PetscOptionsReal]. lra.
  - exact Hacc.
Defined.

End IceConfig.

(** ** Upwind point selection *)

Lemma Ice_upwind_point (user : Ice.AppCtx) (aH : Array2) (j k c : Z)
  (gb : Ice.Grad) (H : R) :
  (0 <= c < 4)%Z ->
  0 <= Ice.lambda user <= 1 ->
  let pt := Ice.up_point user c gb in
  upwind_claim (Ice.lambda user)
    (if tabB Ice.xdire c then Ice.x gb else Ice.y gb)
    (tabB Ice.xdire c) (tabR Ice.locx c) (tabR Ice.locy c) pt
    (Ice.Hup_at user aH j k c gb H) H
    (Ice.fieldatpt j k (fst pt) (snd pt) aH).
Proof.
  intros Hc Hlam pt. unfold upwind_claim, pt, Ice.Hup_at, Ice.up_point, Rgtb.
  cbv zeta.
  assert (Hcases : c = 0%Z \/ c = 1%Z \/ c = 2%Z \/ c = 3%Z) by lia.
  destruct Hcases as [-> | [-> | [-> | ->]]];
    eval_tabZ; unfold Ice.locx, Ice.locy; autorewrite with tab;
    cbn [fst snd];
    (destruct (Rle_dec _ 0.0) as [Hs | Hs];
     destruct (Rlt_dec 0.0 (Ice.lambda user)) as [Hl | Hl];
     repeat split; intros; try reflexivity; try lra).
Qed.

Lemma Dnl_upwind_point (user : Dnl.AppCtx) (aH : Array2) (j k c : Z)
  (gb : Dnl.Grad) (H : R) :
  (0 <= c < 4)%Z ->
  0 <= Dnl.lambda user <= 1 ->
  let pt := Dnl.up_point user c gb in
  upwind_claim (Dnl.lambda user)
    (if tabB Dnl.xdire c then Dnl.x gb else Dnl.y gb)
    (tabB Dnl.xdire c) (tabR Dnl.locx c) (tabR Dnl.locy c) pt
    (Dnl.Hup_at user aH j k c gb H) H
    (Dnl.fieldatptArray j k (fst pt) (snd pt) aH).
Proof.
  intros Hc Hlam pt. unfold upwind_claim, pt, Dnl.Hup_at, Dnl.up_point, Rgtb.
  cbv zeta.
  assert (Hcases : c = 0%Z \/ c = 1%Z \/ c = 2%Z \/ c = 3%Z) by lia.
  destruct Hcases as [-> | [-> | [-> | ->]]];
    eval_tabZ; unfold Dnl.locx, Dnl.locy; autorewrite with tab;
    cbn [fst snd];
    (destruct (Rle_dec _ 0.0) as [Hs | Hs];
     destruct (Rlt_dec 0.0 (Dnl.lambda user)) as [Hl | Hl];
     repeat split; intros; try reflexivity; try lra).
Qed.

(** C7.  In both programs, for lambda in [0,1] and each of the four
    quadrature points of an element: the flux-direction coordinate of the
    point (lxup,lyup) lies in [(1-lambda)/2, (1+lambda)/2]; it is
    (1-lambda)/2 when the bed-slope component in the flux direction is
    non-positive and (1+lambda)/2 otherwise; the other coordinate is that
    of the quadrature point; for lambda > 0 [Hup] is the field at
    (lxup,lyup); for lambda = 0 [Hup] is [H], the field at the quadrature
    point, whose flux-direction coordinate is 0.5; for lambda = 1 the
    coordinate is 0 or 1 according to the sign of the slope. *)
Theorem C7_upwind_coordinate (iuser : Ice.AppCtx) (duser : Dnl.AppCtx)
  (aH : Array2) (j k c : Z) (igb : Ice.Grad) (dgb : Dnl.Grad) :
  (0 <= c < 4)%Z ->
  0 <= Ice.lambda iuser <= 1 ->
  0 <= Dnl.lambda duser <= 1 ->
  let ipt := Ice.up_point iuser c igb in
  let dpt := Dnl.up_point duser c dgb in
  let iH := Ice.fieldatpt j k (tabR Ice.locx c) (tabR Ice.locy c) aH in
  let dH := Dnl.fieldatptArray j k (tabR Dnl.locx c) (tabR Dnl.locy c) aH in
  upwind_claim (Ice.lambda iuser)
    (if tabB Ice.xdire c then Ice.x igb else Ice.y igb)
    (tabB Ice.xdire c) (tabR Ice.locx c) (tabR Ice.locy c) ipt
    (Ice.Hup_at iuser aH j k c igb iH) iH
    (Ice.fieldatpt j k (fst ipt) (snd ipt) aH)
  /\ upwind_claim (Dnl.lambda duser)
       (if tabB Dnl.xdire c then Dnl.x dgb else Dnl.y dgb)
       (tabB Dnl.xdire c) (tabR Dnl.locx c) (tabR Dnl.locy c) dpt
       (Dnl.Hup_at duser aH j k c dgb dH) dH
       (Dnl.fieldatptArray j k (fst dpt) (snd dpt) aH).
Proof.
  intros Hc Hi Hd ipt dpt iH dH. split.
  - apply Ice_upwind_point; assumption.
  - apply Dnl_upwind_point; assumption.
Qed.

Lemma C7_upwind_coordinate_witness :
  fst (Ice.up_point (IceInputs.user4 None) 0 (Ice.mkGrad 1 0)) = (1 + 0.25) / 2
  /\ fst (Dnl.up_point (DnlForms.user5 false false) 0 (Dnl.mkGrad (-1) 0))
     = (1 - 0.25) / 2.
Proof.
  assert (Hc : (0 <= 0 < 4)%Z) by lia.
  assert (Hi : 0 <= Ice.lambda (IceInputs.user4 None) <= 1)
    by (cbn [Ice.lambda IceInputs.user4]; lra).
  assert (Hd : 0 <= Dnl.lambda (DnlForms.user5 false false) <= 1)
    by (cbn [Dnl.lambda DnlForms.user5]; lra).
  pose proof (C7_upwind_coordinate (IceInputs.user4 None)
                (DnlForms.user5 false false) (IceInputs.const_field 1)
                0 0 0 (Ice.mkGrad 1 0) (Dnl.mkGrad (-1) 0) Hc Hi Hd)
    as [(_ & _ & Hpos & _) (_ & Hneg & _)].
  split.
  - apply Hpos. cbn. lra.
  - apply Hneg. cbn. lra.
Defined.

(** ** The loop nests of [dnl.c] *)

Lemma upd2_same (a : Array2) (k j : Z) (v : R) : upd2 a k j v k j = v.
Proof. unfold upd2. rewrite !Z.eqb_refl. reflexivity. Qed.

Lemma upd2_other (a : Array2) (k j k' j' : Z) (v : R) :
  k' <> k \/ j' <> j -> upd2 a k j v k' j' = a k' j'.
Proof.
  intros Hne. unfold upd2.
  assert (Hf : ((k' =? k)%Z && (j' =? j)%Z) = false).
  { apply andb_false_iff.
    destruct Hne as [Hne | Hne]; [left | right]; apply Z.eqb_neq; exact Hne. }
  rewrite Hf. reflexivity.
Qed.

Section DnlLoops.

Import Dnl DnlForms.

Variable info : DMDALocalInfo.
Variable user : AppCtx.
Variable aHin : Array2.

(** What one run of the body of the first loop nest leaves in [FF] and in
    the staged copy [aH]. *)
Lemma stage_body_ok (k j : Z) (st st' : Array2 * Array2) :
  stage_body info user aHin k j st = Ok st' ->
  (fst st' k j
   = (fun old => if off_grid info j k then old
                 else if on_boundary info j k && owned info j k
                      then aHin k j else old) (fst st k j)
   /\ forall k' j', k' <> k \/ j' <> j -> fst st' k' j' = fst st k' j')
  /\ (snd st' k j
      = (fun old => if off_grid info j k then old
                    else if on_boundary info j k then 0.0 else aHin k j)
          (snd st k j)
      /\ forall k' j', k' <> k \/ j' <> j -> snd st' k' j' = snd st k' j').
Proof.
  unfold stage_body. intros Hb.
  destruct (off_grid info j k).
  { inversion Hb; subst. repeat split; reflexivity. }
  destruct (check_admissible user && Rltb (aHin k j) 0.0); [discriminate |].
  destruct (on_boundary info j k); [destruct (owned info j k) |];
    inversion Hb; subst; cbn [fst snd andb];
    repeat split; intros;
    rewrite ?upd2_same, ?upd2_other by assumption; reflexivity.
Qed.

Lemma stage_body_no_segv (k j : Z) (st : Array2 * Array2) :
  stage_body info user aHin k j st <> Segv.
Proof.
  unfold stage_body.
  destruct (off_grid info j k); [discriminate |].
  destruct (check_admissible user && Rltb (aHin k j) 0.0); [discriminate |].
  destruct (on_boundary info j k); discriminate.
Qed.

(** The body fails only with the admissibility error of a negative value
    at an examined node, with the check enabled. *)
Lemma stage_body_err (k j : Z) (st : Array2 * Array2) (e : PetscError) :
  stage_body info user aHin k j st = Err e ->
  off_grid info j k = false /\ check_admissible user = true
  /\ aHin k j < 0 /\ e = admissible_error (aHin k j) j k.
Proof.
  unfold stage_body, Rltb. intros Hb.
  destruct (off_grid info j k); [discriminate |].
  destruct (check_admissible user); cbn [andb] in Hb.
  - destruct (Rlt_dec (aHin k j) 0.0) as [Hneg | Hpos].
    + inversion Hb; subst. repeat split; [lra].
    + destruct (on_boundary info j k); discriminate.
  - destruct (on_boundary info j k); discriminate.
Qed.

Lemma stage_body_fails (k j : Z) (st : Array2 * Array2) :
  off_grid info j k = false -> check_admissible user = true ->
  aHin k j < 0 ->
  stage_body info user aHin k j st = Err (admissible_error (aHin k j) j k).
Proof.
  intros Hg Hc Hneg. unfold stage_body, Rltb. rewrite Hg, Hc. cbn [andb].
  destruct (Rlt_dec (aHin k j) 0.0) as [_ | Hpos]; [reflexivity |].
  exfalso. apply Hpos. lra.
Qed.

Lemma stage_body_succeeds (k j : Z) (st : Array2 * Array2) :
  check_admissible user = false \/ (off_grid info j k = false -> 0 <= aHin k j) ->
  exists st', stage_body info user aHin k j st = Ok st'.
Proof.
  intros Hadm. unfold stage_body, Rltb.
  destruct (off_grid info j k); [eexists; reflexivity |].
  assert (Hno : (check_admissible user
                 && (if Rlt_dec (aHin k j) 0.0 then true else false)) = false).
  { destruct Hadm as [Hc | Hpos].
    - rewrite Hc. reflexivity.
    - destruct (Rlt_dec (aHin k j) 0.0) as [Hneg | _];
        [| apply andb_false_r].
      specialize (Hpos eq_refl). lra. }
  rewrite Hno.
  destruct (on_boundary info j k); eexists; reflexivity.
Qed.

(** The first loop nest, when it completes. *)
Lemma stage_loop_ok (st st' : Array2 * Array2) (k j : Z) :
  stage_loop info user aHin st = Ok st' ->
  (ys info - 1 <= k <= ys info + ym info)%Z ->
  (xs info - 1 <= j <= xs info + xm info)%Z ->
  off_grid info j k = false ->
  (on_boundary info j k = true -> owned info j k = true ->
   fst st' k j = aHin k j)
  /\ (on_boundary info j k = true -> snd st' k j = 0.0)
  /\ (on_boundary info j k = false -> snd st' k j = aHin k j).
Proof.
  intros Hrun Hk Hj Hg. unfold stage_loop in Hrun.
  pose proof (for2_res_pointwise (fun (s : Array2 * Array2) => fst s)
                (fun k j old => if off_grid info j k then old
                                else if on_boundary info j k && owned info j k
                                     then aHin k j else old)
                _ _ _ _ (fun k j st => stage_body info user aHin k j st) st st'
                (fun k j s s' _ _ Hb => proj1 (stage_body_ok k j s s' Hb))
                Hrun k j) as [HF _].
  pose proof (for2_res_pointwise (fun (s : Array2 * Array2) => snd s)
                (fun k j old => if off_grid info j k then old
                                else if on_boundary info j k
                                     then 0.0 else aHin k j)
                _ _ _ _ (fun k j st => stage_body info user aHin k j st) st st'
                (fun k j s s' _ _ Hb => proj2 (stage_body_ok k j s s' Hb))
                Hrun k j) as [HA _].
  rewrite Hg in HF, HA.
  split; [| split].
  - intros Hb Ho. rewrite Hb, Ho in HF. apply HF. lia.
  - intros Hb. rewrite Hb in HA. apply HA. lia.
  - intros Hb. rewrite Hb in HA. apply HA. lia.
Qed.

Lemma stage_loop_succeeds (st : Array2 * Array2) :
  check_admissible user = false
  \/ (forall j k, examined info j k -> 0 <= aHin k j) ->
  exists st', stage_loop info user aHin st = Ok st'.
Proof.
  intros Hadm. unfold stage_loop.
  apply for_res_total. intros k s Hk.
  apply for_res_total. intros j s1 Hj.
  apply stage_body_succeeds.
  destruct Hadm as [Hc | Hpos]; [left; exact Hc | right].
  intros Hg. apply Hpos. unfold examined. repeat split; [lia .. | exact Hg].
Qed.

(** With the check enabled and a negative value at an examined node, the
    first loop nest returns the admissibility error of such a node. *)
Lemma stage_loop_fails (st : Array2 * Array2) (j0 k0 : Z) :
  check_admissible user = true ->
  examined info j0 k0 ->
  aHin k0 j0 < 0 ->
  exists j k,
    examined info j k /\ aHin k j < 0
    /\ stage_loop info user aHin st = Err (admissible_error (aHin k j) j k).
Proof.
  intros Hc (Hj0 & Hk0 & Hg0) Hneg.
  assert (Herr : exists e, stage_loop info user aHin st = Err e).
  { unfold stage_loop.
    apply (for_res_fails _ _ _ st k0); [lia | |].
    - intros s. apply (for_res_fails _ _ _ s j0); [lia | |].
      + intros s1. eexists. apply stage_body_fails; assumption.
      + intros j s1 _. apply stage_body_no_segv.
    - intros k s _. apply for_res_no_segv.
      intros j s1 _. apply stage_body_no_segv. }
  destruct Herr as [e He]. unfold stage_loop in *.
  destruct (for_res_err_from_body _ _ _ _ _ He) as (k & s & Hk & Hin).
  destruct (for_res_err_from_body _ _ _ _ _ Hin) as (j & s1 & Hj & Hb).
  destruct (stage_body_err k j s1 e Hb) as (Hg & _ & Hn & ->).
  exists j, k. split; [| split; [exact Hn | exact He]].
  unfold examined. repeat split; [lia .. | exact Hg].
Qed.

(** [SIAflux] called with the addresses of two locals succeeds. *)
Lemma SIAflux_nonnull (gH gb : Grad) (H Hup : R) (xdir : bool) (d l : string)
  (m : Mem) :
  SIAflux gH gb H Hup xdir (Some d) (Some l) user m
  = Ok (store (store m d (DCS (sigma gH gb user) H user)) l
          (SIAflux_q gH gb H Hup xdir user)).
Proof.
  unfold SIAflux, SIAflux_q, nonnull, store_ptr. cbv zeta. cbn [bind].
  destruct xdir; reflexivity.
Qed.

Lemma flux_loop_succeeds (dx dy : R) (aH ab : Array2) (st : Array3 * Mem) :
  exists st', flux_loop info user dx dy aH ab st = Ok st'.
Proof.
  unfold flux_loop.
  apply for_res_total. intros k s Hk.
  apply for_res_total. intros j s1 Hj.
  destruct (no_element info j k); [eexists; reflexivity |].
  apply for_res_total. intros c s2 Hc.
  unfold flux_body. cbv zeta. rewrite SIAflux_nonnull. cbn [bind].
  eexists. reflexivity.
Qed.

End DnlLoops.

(** ** Claims about [dnl.c] *)

Section DnlClaims.

Import Dnl DnlForms.

Variable DomeCMB : R -> R -> AppCtx -> R.
Variable M_CMBModel : option CMBModel -> R -> R.
Variable FormBedLocal : DMDALocalInfo -> Z -> Array2 -> AppCtx -> Res Array2.

(** The last loop nest leaves the residual at a boundary node as it was. *)
Lemma residual_loop_boundary (info : DMDALocalInfo) (user : AppCtx)
  (dx dy : R) (aH ab : Array2) (aq : Array3) (FF : Array2) (k0 j0 : Z) :
  on_boundary info j0 k0 = true ->
  residual_loop DomeCMB M_CMBModel info user dx dy aH ab aq FF k0 j0
  = FF k0 j0.
Proof.
  intros Hb. unfold residual_loop.
  apply (for_pure_preserve (fun F : Array2 => F k0 j0 = FF k0 j0));
    [reflexivity |].
  intros k F Hk HF.
  apply (for_pure_preserve (fun F : Array2 => F k0 j0 = FF k0 j0));
    [exact HF |].
  intros j F1 Hj HF1.
  destruct (on_boundary info j k) eqn:Hbjk; [exact HF1 |].
  assert (Hne : k0 <> k \/ j0 <> j).
  { destruct (Z.eq_dec k0 k) as [-> | Hk0]; [| left; exact Hk0].
    destruct (Z.eq_dec j0 j) as [-> | Hj0]; [| right; exact Hj0].
    congruence. }
  cbv zeta. rewrite for_pure_unroll8.
  rewrite !upd2_other by exact Hne. exact HF1.
Qed.

(** The bed array of [FormFunctionLocal] is the one the bed provider
    returns for stencil width 1, except in the verification case, where it
    is zero. *)
Lemma Dnl_bed_from_provider (info : DMDALocalInfo) (aHin FF0 : Array2)
  (user : AppCtx) (scr : Scratch) (st : State) :
  FormFunctionLocal DomeCMB M_CMBModel FormBedLocal info aHin FF0 user scr
  = Ok st ->
  if verif user then forall k j, ab st k j = 0.0
  else FormBedLocal info 1 (ab0 scr) user = Ok (ab st).
Proof.
  unfold FormFunctionLocal. cbv zeta. intros Hrun.
  destruct (stage_loop info user aHin (FF0, aH0 scr)) as [s1 | |];
    cbn [bind] in Hrun; try discriminate.
  destruct (verif user).
  - cbn [bind] in Hrun.
    destruct (flux_loop info user _ _ (snd s1) _ (aqquad0 scr, mem0 scr))
      as [fl | |]; cbn [bind] in Hrun; try discriminate.
    inversion Hrun; subst. reflexivity.
  - destruct (FormBedLocal info 1 (ab0 scr) user) as [b | |];
      cbn [bind] in Hrun; try discriminate.
    destruct (flux_loop info user _ _ (snd s1) b (aqquad0 scr, mem0 scr))
      as [fl | |]; cbn [bind] in Hrun; try discriminate.
    inversion Hrun; subst. reflexivity.
Qed.

(** When the first loop nest completes and the bed provider succeeds, the
    evaluation completes, with the residual of the last loop nest and the
    staged copy of the first. *)
Lemma FormFunctionLocal_succeeds (info : DMDALocalInfo) (aHin FF0 : Array2)
  (user : AppCtx) (scr : Scratch) (s1 : Array2 * Array2) :
  stage_loop info user aHin (FF0, aH0 scr) = Ok s1 ->
  verif user = true \/ (exists b, FormBedLocal info 1 (ab0 scr) user = Ok b) ->
  exists st,
    FormFunctionLocal DomeCMB M_CMBModel FormBedLocal info aHin FF0 user scr
    = Ok st
    /\ aH st = snd s1
    /\ FF st
       = residual_loop DomeCMB M_CMBModel info user
           (L user / IZR (mx info - 1)) (L user / IZR (my info - 1))
           (snd s1) (ab st) (aqquad st) (fst s1).
Proof.
  intros Hs Hbed. unfold FormFunctionLocal. cbv zeta. rewrite Hs. cbn [bind].
  assert (Hab : exists b,
             (if verif user then Ok (fun _ _ : Z => 0.0)
              else FormBedLocal info 1 (ab0 scr) user) = Ok b).
  { destruct (verif user); [eexists; reflexivity |].
    destruct Hbed as [Hv | Hb]; [discriminate | exact Hb]. }
  destruct Hab as [b Hb]. rewrite Hb. cbn [bind].
  destruct (flux_loop_succeeds info user (L user / IZR (mx info - 1))
              (L user / IZR (my info - 1)) (snd s1) b
              (aqquad0 scr, mem0 scr)) as [fl Hfl].
  rewrite Hfl. cbn [bind].
  eexists. split; [reflexivity |]. cbn [aH FF ab aqquad]. split; reflexivity.
Qed.

(** C6, amended.  In the fixed-boundary variant, whenever the admissibility
    check does not fire (it is disabled, or no examined value is negative)
    and the bed provider succeeds, the evaluation completes, and at every
    boundary node of the grid: if the node is owned, the residual equals
    the iterate value at that node minus the boundary value 0, whatever
    the iterate is elsewhere; and if the node lies in the staged range, the
    staged buffer holds 0 there. *)
Theorem C6_boundary_residual (info : DMDALocalInfo) (aHin FF0 : Array2)
  (user : AppCtx) (scr : Scratch) :
  check_admissible user = false
  \/ (forall j k, examined info j k -> 0 <= aHin k j) ->
  verif user = true \/ (exists b, FormBedLocal info 1 (ab0 scr) user = Ok b) ->
  exists st,
    FormFunctionLocal DomeCMB M_CMBModel FormBedLocal info aHin FF0 user scr
    = Ok st
    /\ forall j k,
         off_grid info j k = false ->
         on_boundary info j k = true ->
         (owned info j k = true -> FF st k j = aHin k j - 0.0)
         /\ ((xs info - 1 <= j <= xs info + xm info)%Z ->
             (ys info - 1 <= k <= ys info + ym info)%Z ->
             aH st k j = 0.0).
Proof.
  intros Hadm Hbed.
  destruct (stage_loop_succeeds info user aHin (FF0, aH0 scr) Hadm)
    as [s1 Hs1].
  destruct (FormFunctionLocal_succeeds info aHin FF0 user scr s1 Hs1 Hbed)
    as (st & Hrun & HaH & HFF).
  exists st. split; [exact Hrun |].
  intros j k Hg Hb. split.
  - intros Ho.
    assert (Hrange : (ys info - 1 <= k <= ys info + ym info)%Z
                     /\ (xs info - 1 <= j <= xs info + xm info)%Z).
    { unfold owned in Ho.
      apply andb_prop in Ho. destruct Ho as [Ho Hk2].
      apply andb_prop in Ho. destruct Ho as [Ho Hk1].
      apply andb_prop in Ho. destruct Ho as [Hj1 Hj2].
      apply Z.leb_le in Hj1, Hk1. apply Z.ltb_lt in Hj2, Hk2. lia. }
    destruct Hrange as [Hk Hj].
    destruct (stage_loop_ok info user aHin _ s1 k j Hs1 Hk Hj Hg)
      as (HF & _ & _).
    rewrite HFF, residual_loop_boundary by exact Hb.
    rewrite (HF Hb Ho). lits. ring.
  - intros Hj Hk.
    destruct (stage_loop_ok info user aHin _ s1 k j Hs1 Hk Hj Hg)
      as (_ & HA & _).
    rewrite HaH. exact (HA Hb).
Qed.

(** Every power of the thickness taken by the flux model is a power of its
    absolute value. *)
Lemma SIAflux_uses_abs (gH gb : Grad) (H Hup : R) (xdir : bool) (D q : Ptr)
  (user : AppCtx) (m : Mem) :
  DCS (sigma gH gb user) H user
  = (1.0 - eps user) * sigma gH gb user
    * PetscPowReal (Rabs H) (n_ice user + 2.0) + eps user * D0 user
  /\ SIAflux_q gH gb H Hup xdir user
     = - DCS (sigma gH gb user) H user * (if xdir then x gH else y gH)
       + (if xdir then x (W (sigma gH gb user) gb)
          else y (W (sigma gH gb user) gb))
         * PetscPowReal (Rabs Hup) (n_ice user + 2.0)
  /\ SIAflux gH gb H Hup xdir D q user m
     = SIAflux gH gb (Rabs H) (Rabs Hup) xdir D q user m.
Proof.
  split; [reflexivity |]. split.
  - unfold SIAflux_q. cbv zeta. destruct xdir; reflexivity.
  - unfold SIAflux, DCS. cbv zeta. rewrite !PetscAbsReal_abs. reflexivity.
Qed.

(** C8.  With the admissibility check enabled, an evaluation in which some
    examined iterate value is negative returns error code 1, whose message
    arguments are the value, negative, and the indices j,k of an examined
    node holding it.  With the check disabled the evaluation completes for
    every iterate (the bed provider succeeding), and the diffusivity and
    the flux are computed from |H| and |Hup|. *)
Theorem C8_admissibility_check (info : DMDALocalInfo) (aHin FF0 : Array2)
  (user : AppCtx) (scr : Scratch) :
  (check_admissible user = true ->
   (exists j k, examined info j k /\ aHin k j < 0) ->
   exists j k,
     examined info j k /\ aHin k j < 0
     /\ FormFunctionLocal DomeCMB M_CMBModel FormBedLocal info aHin FF0 user scr
        = Err (admissible_error (aHin k j) j k)
     /\ errcode (admissible_error (aHin k j) j k) = 1%Z
     /\ errargs (admissible_error (aHin k j) j k)
        = [ArgReal (aHin k j); ArgInt j; ArgInt k])
  /\ (check_admissible user = false ->
      verif user = true
      \/ (exists b, FormBedLocal info 1 (ab0 scr) user = Ok b) ->
      exists st,
        FormFunctionLocal DomeCMB M_CMBModel FormBedLocal info aHin FF0 user scr
        = Ok st)
  /\ (forall gH gb H Hup xdir D q m,
        DCS (sigma gH gb user) H user
        = (1.0 - eps user) * sigma gH gb user
          * PetscPowReal (Rabs H) (n_ice user + 2.0) + eps user * D0 user
        /\ SIAflux_q gH gb H Hup xdir user
           = - DCS (sigma gH gb user) H user * (if xdir then x gH else y gH)
             + (if xdir then x (W (sigma gH gb user) gb)
                else y (W (sigma gH gb user) gb))
               * PetscPowReal (Rabs Hup) (n_ice user + 2.0)
        /\ SIAflux gH gb H Hup xdir D q user m
           = SIAflux gH gb (Rabs H) (Rabs Hup) xdir D q user m).
Proof.
  split; [| split].
  - intros Hc (j0 & k0 & Hex & Hneg).
    destruct (stage_loop_fails info user aHin (FF0, aH0 scr) j0 k0 Hc Hex Hneg)
      as (j & k & Hex' & Hneg' & Hrun).
    exists j, k. split; [exact Hex' |]. split; [exact Hneg' |].
    split; [| split; reflexivity].
    unfold FormFunctionLocal. cbv zeta. rewrite Hrun. reflexivity.
  - intros Hc Hbed.
    destruct (stage_loop_succeeds info user aHin (FF0, aH0 scr) (or_introl Hc))
      as [s1 Hs1].
    destruct (FormFunctionLocal_succeeds info aHin FF0 user scr s1 Hs1 Hbed)
      as (st & Hrun & _).
    exists st. exact Hrun.
  - intros gH gb H Hup xdir D q m. apply SIAflux_uses_abs.
Qed.

(** C10.  [SIAflux] called with a null [q] faults, for either flux
    direction and whether or not [D] is null; called with a [q] that is
    not null it succeeds, storing the flux component through [q], and the
    diffusivity through [D] only when [D] is not null. *)
Theorem C10_SIAflux_q_not_optional (gH gb : Grad) (H Hup : R) (xdir : bool)
  (user : AppCtx) (m : Mem) :
  (forall D, SIAflux gH gb H Hup xdir D None user m = Segv)
  /\ (forall l,
        SIAflux gH gb H Hup xdir None (Some l) user m
        = Ok (store m l (SIAflux_q gH gb H Hup xdir user)))
  /\ (forall d l,
        SIAflux gH gb H Hup xdir (Some d) (Some l) user m
        = Ok (store (store m d (DCS (sigma gH gb user) H user)) l
                (SIAflux_q gH gb H Hup xdir user))).
Proof.
  split; [| split].
  - intros [d |]; unfold SIAflux, nonnull, store_ptr; cbv zeta; cbn [bind];
      rewrite andb_false_r; reflexivity.
  - intros l. unfold SIAflux, SIAflux_q, nonnull, store_ptr. cbv zeta.
    cbn [bind]. destruct xdir; reflexivity.
  - intros d l. apply SIAflux_nonnull.
Qed.

End DnlClaims.

(** ** Instances on the 5 x 5 grid *)

Lemma examined_2_2 : DnlForms.examined DnlForms.info5 2 2.
Proof.
  unfold DnlForms.examined. cbn. repeat split; try lia; discriminate.
Qed.

Lemma iterate5_2_2 (v : R) : DnlForms.iterate5 v 2%Z 2%Z = v.
Proof. reflexivity. Qed.

Lemma C6_boundary_residual_witness :
  exists st,
    Dnl.FormFunctionLocal DnlForms.DomeCMB0 DnlForms.M_CMBModel0
      DnlForms.FormBedLocal0 DnlForms.info5 (DnlForms.iterate5 (-1))
      DnlForms.zero2 (DnlForms.user5 false false) DnlForms.scratch5 = Ok st
    /\ Dnl.FF st 0%Z 0%Z = DnlForms.iterate5 (-1) 0%Z 0%Z - 0.0
    /\ Dnl.aH st 0%Z 0%Z = 0.0.
Proof.
  destruct (C6_boundary_residual DnlForms.DomeCMB0 DnlForms.M_CMBModel0
              DnlForms.FormBedLocal0 DnlForms.info5 (DnlForms.iterate5 (-1))
              DnlForms.zero2 (DnlForms.user5 false false) DnlForms.scratch5
              (or_introl eq_refl)
              (or_intror (ex_intro _ DnlForms.zero2 eq_refl)))
    as (st & Hrun & Hprop).
  exists st. split; [exact Hrun |].
  destruct (Hprop 0%Z 0%Z eq_refl eq_refl) as [HF HA].
  split.
  - apply HF. reflexivity.
  - apply HA; cbn; lia.
Defined.

Lemma C8_admissibility_check_witness :
  (exists j k,
     DnlForms.examined DnlForms.info5 j k
     /\ DnlForms.iterate5 (-1) k j < 0
     /\ Dnl.FormFunctionLocal DnlForms.DomeCMB0 DnlForms.M_CMBModel0
          DnlForms.FormBedLocal0 DnlForms.info5 (DnlForms.iterate5 (-1))
          DnlForms.zero2 (DnlForms.user5 true false) DnlForms.scratch5
        = Err (Dnl.admissible_error (DnlForms.iterate5 (-1) k j) j k))
  /\ (exists st,
        Dnl.FormFunctionLocal DnlForms.DomeCMB0 DnlForms.M_CMBModel0
          DnlForms.FormBedLocal0 DnlForms.info5 (DnlForms.iterate5 (-1))
          DnlForms.zero2 (DnlForms.user5 false false) DnlForms.scratch5
        = Ok st).
Proof.
  split.
  - destruct (C8_admissibility_check DnlForms.DomeCMB0 DnlForms.M_CMBModel0
                DnlForms.FormBedLocal0 DnlForms.info5 (DnlForms.iterate5 (-1))
                DnlForms.zero2 (DnlForms.user5 true false) DnlForms.scratch5)
      as (Hon & _ & _).
    destruct (Hon eq_refl) as (j & k & Hex & Hneg & Hrun & _).
    + exists 2%Z, 2%Z. split; [exact examined_2_2 |].
      rewrite iterate5_2_2. lra.
    + exists j, k. split; [exact Hex |]. split; [exact Hneg | exact Hrun].
  - destruct (C8_admissibility_check DnlForms.DomeCMB0 DnlForms.M_CMBModel0
                DnlForms.FormBedLocal0 DnlForms.info5 (DnlForms.iterate5 (-1))
                DnlForms.zero2 (DnlForms.user5 false false) DnlForms.scratch5)
      as (_ & Hoff & _).
    apply (Hoff eq_refl).
    right. exists DnlForms.zero2. reflexivity.
Defined.

(** C6, as stated, fails: on the 5 x 5 grid with the admissibility check
    enabled, for the iterate that is -1 at the interior node (2,2) and 1 at
    every other node, the evaluation returns the admissibility error of
    node (2,2) from the first loop nest and no residual: none for the owned
    boundary node (4,4), where the iterate is 1 and which that loop nest
    has not reached when it returns. *)
Lemma C6_counterexample :
  Dnl.check_admissible (DnlForms.user5 true false) = true
  /\ Dnl.off_grid DnlForms.info5 4 4 = false
  /\ Dnl.on_boundary DnlForms.info5 4 4 = true
  /\ Dnl.owned DnlForms.info5 4 4 = true
  /\ DnlForms.iterate5 (-1) 4%Z 4%Z = 1
  /\ Dnl.FormFunctionLocal DnlForms.DomeCMB0 DnlForms.M_CMBModel0
       DnlForms.FormBedLocal0 DnlForms.info5 (DnlForms.iterate5 (-1))
       DnlForms.zero2 (DnlForms.user5 true false) DnlForms.scratch5
     = Err (Dnl.admissible_error (-1) 2 2).
Proof.
  repeat (split; [reflexivity |]).
  destruct (stage_loop_fails DnlForms.info5 (DnlForms.user5 true false)
              (DnlForms.iterate5 (-1))
              (DnlForms.zero2, Dnl.aH0 DnlForms.scratch5) 2 2 eq_refl
              examined_2_2)
    as (j & k & _ & Hneg & Hrun).
  { rewrite iterate5_2_2. lra. }
  assert (Hjk : k = 2%Z /\ j = 2%Z).
  { unfold DnlForms.iterate5 in Hneg.
    destruct (k =? 2)%Z eqn:Ek; destruct (j =? 2)%Z eqn:Ej;
      cbn [andb] in Hneg; try lra.
    apply Z.eqb_eq in Ek, Ej. split; assumption. }
  destruct Hjk as [-> ->]. rewrite iterate5_2_2 in Hrun.
  unfold Dnl.FormFunctionLocal. cbv zeta. rewrite Hrun. reflexivity.
Qed.

(** * Further properties of the two programs *)

(** ** The Q1 kernel *)

Section Q1Kernel.

Import Ice.

(** The interpolant of [fieldatpt] takes the nodal values at the four
    corners of the element, and at the centre their mean. *)
Theorem Ice_fieldatpt_corners (u v : Z) (f : Array2) :
  fieldatpt u v 0 0 f = f v u
  /\ fieldatpt u v 1 0 f = f v (u + 1)%Z
  /\ fieldatpt u v 1 1 f = f (v + 1)%Z (u + 1)%Z
  /\ fieldatpt u v 0 1 f = f (v + 1)%Z u
  /\ fieldatpt u v 0.5 0.5 f
     = (f v u + f v (u + 1)%Z + f (v + 1)%Z (u + 1)%Z + f (v + 1)%Z u) / 4.
Proof.
  unfold fieldatpt. cbv zeta. autorewrite with tab. lits.
  repeat split; field.
Qed.

Lemma convex4 (w0 w1 w2 w3 f0 f1 f2 f3 lo hi : R) :
  0 <= w0 -> 0 <= w1 -> 0 <= w2 -> 0 <= w3 ->
  w0 + w1 + w2 + w3 = 1 ->
  lo <= f0 <= hi -> lo <= f1 <= hi -> lo <= f2 <= hi -> lo <= f3 <= hi ->
  lo <= w0 * f0 + w1 * f1 + w2 * f2 + w3 * f3 <= hi.
Proof.
  intros H0 H1 H2 H3 Hs [L0 U0] [L1 U1] [L2 U2] [L3 U3].
  assert (0 <= w0 * (f0 - lo)) by (apply Rmult_le_pos; lra).
  assert (0 <= w1 * (f1 - lo)) by (apply Rmult_le_pos; lra).
  assert (0 <= w2 * (f2 - lo)) by (apply Rmult_le_pos; lra).
  assert (0 <= w3 * (f3 - lo)) by (apply Rmult_le_pos; lra).
  assert (0 <= w0 * (hi - f0)) by (apply Rmult_le_pos; lra).
  assert (0 <= w1 * (hi - f1)) by (apply Rmult_le_pos; lra).
  assert (0 <= w2 * (hi - f2)) by (apply Rmult_le_pos; lra).
  assert (0 <= w3 * (hi - f3)) by (apply Rmult_le_pos; lra).
  assert (lo = (w0 + w1 + w2 + w3) * lo) by (rewrite Hs; ring).
  assert (hi = (w0 + w1 + w2 + w3) * hi) by (rewrite Hs; ring).
  split; nra.
Qed.

(** The interpolant is a convex combination of the corner values. *)
Lemma Ice_fieldatpt_convex (u v : Z) (xi eta : R) (f : Array2) (lo hi : R) :
  0 <= xi <= 1 -> 0 <= eta <= 1 ->
  lo <= f v u <= hi ->
  lo <= f v (u + 1)%Z <= hi ->
  lo <= f (v + 1)%Z (u + 1)%Z <= hi ->
  lo <= f (v + 1)%Z u <= hi ->
  lo <= fieldatpt u v xi eta f <= hi.
Proof.
  intros Hxi Heta H0 H1 H2 H3. unfold fieldatpt. cbv zeta.
  autorewrite with tab. lits.
  apply convex4; try assumption;
    try (apply Rmult_le_pos; lra). ring.
Qed.

(** Inside the element the interpolant stays between any bounds that hold
    at the four corners; in particular it is non-negative when the nodal
    values are. *)
Theorem Ice_fieldatpt_bounds (u v : Z) (xi eta : R) (f : Array2) (lo hi : R) :
  0 <= xi <= 1 -> 0 <= eta <= 1 ->
  lo <= f v u <= hi ->
  lo <= f v (u + 1)%Z <= hi ->
  lo <= f (v + 1)%Z (u + 1)%Z <= hi ->
  lo <= f (v + 1)%Z u <= hi ->
  lo <= fieldatpt u v xi eta f <= hi.
Proof.
  intros Hxi Heta H0 H1 H2 H3. unfold fieldatpt. cbv zeta.
  autorewrite with tab. lits.
  apply convex4; try assumption;
    try (apply Rmult_le_pos; lra). ring.
Qed.

Lemma Ice_fieldatpt_bounds_witness :
  0 <= fieldatpt 0 0 0.25 0.75 (IceInputs.const_field 1) <= 2.
Proof.
  apply (Ice_fieldatpt_bounds 0 0 0.25 0.75 (IceInputs.const_field 1) 0 2);
    unfold IceInputs.const_field; lra.
Defined.

(** For nodal values that are affine in the node coordinates, with slopes
    [sx] and [sy], the gradient computed by [gradfatpt] is [(sx,sy)] at
    every point of the element, whatever the spacings. *)
Theorem Ice_gradfatpt_affine (u v : Z) (xi eta dx dy : R) (f : Array2)
  (c sx sy : R) :
  dx <> 0 -> dy <> 0 ->
  f v u = c ->
  f v (u + 1)%Z = c + sx * dx ->
  f (v + 1)%Z (u + 1)%Z = c + sx * dx + sy * dy ->
  f (v + 1)%Z u = c + sy * dy ->
  gradfatpt u v xi eta dx dy f = mkGrad sx sy.
Proof.
  intros Hdx Hdy H0 H1 H2 H3. unfold gradfatpt, gx, gy. cbv zeta.
  autorewrite with tab. rewrite H0, H1, H2, H3. lits.
  f_equal; field; assumption.
Qed.

Lemma Ice_gradfatpt_affine_witness :
  gradfatpt 0 0 0.25 0.75 2 3
    (fun k j => 5 + 7 * (2 * IZR j) + 11 * (3 * IZR k))
  = mkGrad 7 11.
Proof.
  apply (Ice_gradfatpt_affine 0 0 0.25 0.75 2 3 _ 5 7 11);
    try lra; cbn [IZR IPR IPR_2 Z.add Pos.add]; lra.
Defined.

(** The kernel of [dnl.c], which copies the four corner values into a
    local array first, computes the same interpolant and the same gradient
    as the kernel of [ice.c]. *)
Theorem Dnl_kernel_agrees_with_Ice (u v : Z) (xi eta dx dy : R) (f : Array2) :
  Dnl.fieldatptArray u v xi eta f = fieldatpt u v xi eta f
  /\ Dnl.x (Dnl.gradfatptArray u v xi eta dx dy f)
     = x (gradfatpt u v xi eta dx dy f)
  /\ Dnl.y (Dnl.gradfatptArray u v xi eta dx dy f)
     = y (gradfatpt u v xi eta dx dy f).
Proof.
  unfold Dnl.fieldatptArray, Dnl.fieldatpt, Dnl.gradfatptArray, Dnl.gradfatpt,
    fieldatpt, gradfatpt, Dnl.gx, Dnl.gy, gx, gy.
  cbv zeta. cbn [Dnl.x Dnl.y x y]. autorewrite with tab.
  repeat split; reflexivity.
Qed.

End Q1Kernel.

(** ** The flux model *)

Lemma PetscPowReal_zero_exp (a : R) : PetscPowReal a 0 = 1.
Proof.
  unfold PetscPowReal.
  destruct (Req_dec_T a 0) as [Ha | Ha].
  - destruct (Req_dec_T 0 0) as [_ | H0]; [reflexivity | contradiction H0; reflexivity].
  - unfold Rpower. rewrite Rmult_0_l. apply exp_0.
Qed.

Lemma PetscPowReal_square_base (d e : R) :
  0 < d -> PetscPowReal (d * d) (e / 2) = Rpower d e.
Proof.
  intros Hd. unfold PetscPowReal.
  destruct (Req_dec_T (d * d) 0) as [H0 | _]; [nra |].
  unfold Rpower. rewrite ln_mult by assumption. f_equal. field.
Qed.

Section IceFlux.

Import Ice.

(** Where the surface is flat (thickness and bed gradients cancel) and
    n > 1, the slope factor is Gamma delta^(n-1): the regularisation delta
    stands in for the slope. *)
Theorem Ice_getdelta_flat_surface (gH gb : Grad) (user : AppCtx) :
  1 < n_ice user ->
  0 < delta user ->
  x gH + x gb = 0 ->
  y gH + y gb = 0 ->
  getdelta gH gb user = Gamma user * Rpower (delta user) (n_ice user - 1).
Proof.
  intros Hn Hd Hx Hy. unfold getdelta, Rgtb. cbv zeta.
  destruct (Rlt_dec 1.0 (n_ice user)) as [_ | Hn']; [| exfalso; apply Hn'; lra].
  rewrite Hx, Hy. lits.
  replace (0 * 0 + 0 * 0 + delta user * delta user)
    with (delta user * delta user) by ring.
  rewrite PetscPowReal_square_base by assumption. reflexivity.
Qed.

Lemma Ice_getdelta_flat_surface_witness :
  getdelta (mkGrad 1 0) (mkGrad (-1) 0) (IceInputs.user4 None)
  = Gamma (IceInputs.user4 None)
    * Rpower (delta (IceInputs.user4 None)) (n_ice (IceInputs.user4 None) - 1).
Proof.
  apply Ice_getdelta_flat_surface; cbn [n_ice delta x y IceInputs.user4]; lra.
Defined.

(** The continuation diffusivity is D0 at eps = 1 and the unregularised
    delta |H|^(n+2) at eps = 0; for eps in [0,1] and a non-negative slope
    factor it lies between the two, hence is at least eps D0 when D0 >= 0. *)
Theorem Ice_DCS_continuation (d H n e D0 : R) :
  DCS d H n 1 D0 = D0
  /\ DCS d H n 0 D0 = d * PetscPowReal (PetscAbsReal H) (n + 2.0)
  /\ (0 <= e <= 1 -> 0 <= d ->
      Rmin (DCS d H n 0 D0) D0 <= DCS d H n e D0 <= Rmax (DCS d H n 0 D0) D0)
  /\ (0 <= e <= 1 -> 0 <= d -> e * D0 <= DCS d H n e D0).
Proof.
  unfold DCS. lits.
  pose proof (PetscPowReal_nonneg (PetscAbsReal H) (n + 2)) as Hp.
  set (P := PetscPowReal (PetscAbsReal H) (n + 2)) in *.
  split; [ring |]. split; [ring |]. split.
  - intros He Hd.
    replace ((1 - 0) * d * P + 0 * D0) with (d * P) by ring.
    unfold Rmin, Rmax. destruct (Rle_dec (d * P) D0); split; nra.
  - intros He Hd.
    assert (0 <= (1 - e) * d * P).
    { apply Rmult_le_pos; [apply Rmult_le_pos; lra | exact Hp]. }
    lra.
Qed.

Lemma Ice_DCS_continuation_witness :
  0.5 * 10 <= DCS 1 2 3 0.5 10.
Proof.
  apply (Ice_DCS_continuation 1 2 3 0.5 10); lra.
Defined.

Lemma Ice_getdelta_even (gH gb : Grad) (user : AppCtx) :
  getdelta (mkGrad (- x gH) (- y gH)) (mkGrad (- x gb) (- y gb)) user
  = getdelta gH gb user.
Proof.
  unfold getdelta. cbv zeta. cbn [x y].
  replace ((- x gH + - x gb) * (- x gH + - x gb)
           + (- y gH + - y gb) * (- y gH + - y gb) + delta user * delta user)
    with ((x gH + x gb) * (x gH + x gb) + (y gH + y gb) * (y gH + y gb)
          + delta user * delta user) by ring.
  reflexivity.
Qed.

(** Reversing the thickness and bed gradients reverses the flux, and the
    flux does not see the signs of the thickness [H] and of the upwinded
    thickness [Hup]. *)
Theorem Ice_getflux_symmetries (gH gb : Grad) (H Hup : R) (xdir : bool)
  (user : AppCtx) :
  getflux (mkGrad (- x gH) (- y gH)) (mkGrad (- x gb) (- y gb)) H Hup xdir user
  = - getflux gH gb H Hup xdir user
  /\ getflux gH gb (- H) (- Hup) xdir user = getflux gH gb H Hup xdir user.
Proof.
  split.
  - unfold getflux, getW. cbv zeta. rewrite Ice_getdelta_even.
    cbn [x y]. destruct xdir; ring.
  - unfold getflux, DCS, PetscAbsReal. cbv zeta. rewrite !Rabs_Ropp.
    reflexivity.
Qed.

(** The x-flux and the y-flux are the same function of the gradients with
    the two components exchanged. *)
Theorem Ice_getflux_xy_exchange (gH gb : Grad) (H Hup : R) (xdir : bool)
  (user : AppCtx) :
  getflux (mkGrad (y gH) (x gH)) (mkGrad (y gb) (x gb)) H Hup (negb xdir) user
  = getflux gH gb H Hup xdir user.
Proof.
  assert (Hd : getdelta (mkGrad (y gH) (x gH)) (mkGrad (y gb) (x gb)) user
               = getdelta gH gb user).
  { unfold getdelta. cbv zeta. cbn [x y].
    replace ((y gH + y gb) * (y gH + y gb) + (x gH + x gb) * (x gH + x gb)
             + delta user * delta user)
      with ((x gH + x gb) * (x gH + x gb) + (y gH + y gb) * (y gH + y gb)
            + delta user * delta user) by ring.
    reflexivity. }
  unfold getflux, getW. cbv zeta. rewrite Hd. cbn [x y].
  destruct xdir; reflexivity.
Qed.

(** For a Glen exponent n >= 1 the flux model of [dnl.c] computes the
    diffusivity and the flux of [ice.c]: called with the addresses of two
    variables, [SIAflux] stores [DCS] through [D] and [getflux] through
    [q]. *)
Theorem Dnl_SIAflux_agrees_with_Ice (gH gb : Grad) (H Hup : R) (xdir : bool)
  (iuser : AppCtx) (duser : Dnl.AppCtx) (m : Dnl.Mem) :
  1 <= n_ice iuser ->
  Dnl.n_ice duser = n_ice iuser ->
  Dnl.Gamma duser = Gamma iuser ->
  Dnl.delta duser = delta iuser ->
  Dnl.eps duser = eps iuser ->
  Dnl.D0 duser = D0 iuser ->
  exists m',
    Dnl.SIAflux (Dnl.mkGrad (x gH) (y gH)) (Dnl.mkGrad (x gb) (y gb)) H Hup
      xdir (Some "D"%string) (Some "q"%string) duser m = Ok m'
    /\ m' "D"%string
       = DCS (getdelta gH gb iuser) H (n_ice iuser) (eps iuser) (D0 iuser)
    /\ m' "q"%string = getflux gH gb H Hup xdir iuser.
Proof.
  intros Hn En EG Ed Ee ED.
  assert (Hsig : Dnl.sigma (Dnl.mkGrad (x gH) (y gH))
                   (Dnl.mkGrad (x gb) (y gb)) duser
                 = getdelta gH gb iuser).
  { unfold Dnl.sigma, getdelta, Rgtb. cbv zeta. cbn [Dnl.x Dnl.y].
    rewrite En, EG, Ed.
    destruct (Rlt_dec 1.0 (n_ice iuser)) as [_ | Hle]; [reflexivity |].
    assert (E1 : n_ice iuser = 1) by lra. rewrite E1. lits.
    replace ((1 - 1) / 2) with 0 by field.
    rewrite PetscPowReal_zero_exp. ring. }
  rewrite SIAflux_nonnull. eexists. split; [reflexivity |].
  unfold Dnl.store. cbn [String.eqb Ascii.eqb Bool.eqb].
  rewrite Hsig. unfold DnlForms.SIAflux_q, Dnl.DCS, Dnl.W, getflux, DCS, getW.
  cbv zeta. rewrite Hsig, En, Ee, ED. cbn [Dnl.x Dnl.y x y].
  split; [reflexivity |]. destruct xdir; reflexivity.
Qed.

Lemma Dnl_SIAflux_agrees_with_Ice_witness :
  exists m',
    Dnl.SIAflux (Dnl.mkGrad 1 0) (Dnl.mkGrad 0 0) 1 1 true
      (Some "D"%string) (Some "q"%string) (DnlForms.user5 false false)
      (fun _ => 0) = Ok m'
    /\ m' "q"%string
       = getflux (mkGrad 1 0) (mkGrad 0 0) 1 1 true
           (mkAppCtx 4 0 0 0 0 3 0 1 1.0 0.001 1.0e-4 0.25 0 None).
Proof.
  destruct (Dnl_SIAflux_agrees_with_Ice (mkGrad 1 0) (mkGrad 0 0) 1 1 true
              (mkAppCtx 4 0 0 0 0 3 0 1 1.0 0.001 1.0e-4 0.25 0 None)
              (DnlForms.user5 false false) (fun _ => 0))
    as (m' & Hrun & _ & Hq);
    try reflexivity.
  - cbn [n_ice]. lra.
  - exists m'. split; [exact Hrun | exact Hq].
Defined.

End IceFlux.

(** ** The climatic mass balance and the configuration of [ice.c] *)

Section IceCMBConfig.

Import Ice IceInputs.

(** The mass balance vanishes at the equilibrium line altitude, and its
    increment between two surface elevations is the derivative
    [dMdH_CMBModel] times the elevation difference; with a positive
    gradient it is positive above the equilibrium line and negative
    below. *)
Theorem Ice_CMB_linear (cmb : CMBModel) (s1 s2 : R) :
  M_CMBModel cmb (ela cmb) = 0
  /\ M_CMBModel cmb s2 - M_CMBModel cmb s1
     = dMdH_CMBModel cmb s1 * (s2 - s1)
  /\ (0 < zgrad cmb -> ela cmb < s1 -> 0 < M_CMBModel cmb s1)
  /\ (0 < zgrad cmb -> s1 < ela cmb -> M_CMBModel cmb s1 < 0).
Proof.
  unfold M_CMBModel, dMdH_CMBModel.
  split; [ring |]. split; [ring |]. split; intros; nra.
Qed.

Lemma Ice_CMB_linear_witness :
  0 < M_CMBModel cmb_unit 5 /\ M_CMBModel cmb_unit (-5) < 0.
Proof.
  split.
  - apply (Ice_CMB_linear cmb_unit 5 0); cbn [zgrad ela cmb_unit]; lra.
  - apply (Ice_CMB_linear cmb_unit (-5) 0); cbn [zgrad ela cmb_unit]; lra.
Defined.

(** [SetFromOptionsCMBModel] takes the equilibrium line altitude as given
    (2000 by default) and converts the gradient, given per year (0.001 by
    default), to a gradient per second; so the mass balance it configures
    is the per-year mass balance divided by the seconds per year. *)
Theorem Ice_SetFromOptionsCMBModel_units (opts : Options) (secpera s : R) :
  let cmb := SetFromOptionsCMBModel opts secpera in
  ela cmb = PetscOptionsReal (opt_ela opts) 2000.0
  /\ zgrad cmb = PetscOptionsReal (opt_zgrad opts) 0.001 / secpera
  /\ M_CMBModel cmb s
     = M_CMBModel
         (mkCMBModel (PetscOptionsReal (opt_ela opts) 2000.0)
            (PetscOptionsReal (opt_zgrad opts) 0.001)) s / secpera.
Proof.
  unfold SetFromOptionsCMBModel, M_CMBModel. cbv zeta. cbn [ela zgrad].
  repeat split. unfold Rdiv. ring.
Qed.

(** The fields of the context after a successful configuration. *)
Lemma Ice_config_fields (opts : Options)
  (user0 user : AppCtx) :
  SetFromOptionsAppCtx opts user0 = Ok user ->
  1 < n_ice user
  /\ n_ice user = PetscOptionsReal (opt_n opts) 3.0
  /\ A_ice user = PetscOptionsReal (opt_A opts) (1.0e-16 / 31556926.0)
  /\ delta user = PetscOptionsReal (opt_delta opts) 1.0e-4
  /\ initmagic user = PetscOptionsReal (opt_initmagic opts) 1000.0
  /\ lambda user = PetscOptionsReal (opt_lambda opts) 0.25
  /\ L user = 900.0e3
  /\ eps user = 0.001 /\ D0 user = 10.0
  /\ g user = 9.81 /\ rho_ice user = 910.0 /\ secpera user = 31556926.0
  /\ cmb user = None
  /\ tf user = tf user0
  /\ Gamma user
     = 2.0 * PetscPowReal (910.0 * 9.81) (n_ice user) * A_ice user
       / (n_ice user + 2.0).
Proof.
  cbv beta iota zeta delta
    [SetFromOptionsAppCtx set_L set_n_ice set_g set_rho_ice set_secpera
       set_A_ice set_initmagic set_delta set_lambda set_cmb set_D0 set_eps
       set_Gamma L tf secpera g rho_ice n_ice A_ice Gamma D0 eps delta lambda
       initmagic cmb].
  unfold Rleb.
  destruct (Rle_dec (PetscOptionsReal (opt_n opts) 3.0) 1.0) as [Hle | Hgt];
    [discriminate |].
  intros Hok. inversion Hok; subst; clear Hok.
  cbn [L tf secpera g rho_ice n_ice A_ice Gamma D0 eps delta lambda
         initmagic cmb].
  repeat split; try reflexivity. lra.
Qed.

(** What an accepted configuration looks like: the exponent is above 1;
    the flags [-A], [-delta], [-initmagic], [-lambda] override the
    defaults; the side [L] is 900 km (the first assignment [L = 3.0] is
    overwritten), [eps], [D0], the physical constants and the null [cmb]
    are fixed; [Gamma] is 2 A (rho g)^n / (n+2); and the field [tf] is
    left as the caller had it. *)
Theorem Ice_SetFromOptionsAppCtx_accepted (opts : Options)
  (user0 user : AppCtx) :
  SetFromOptionsAppCtx opts user0 = Ok user ->
  1 < n_ice user
  /\ n_ice user = PetscOptionsReal (opt_n opts) 3.0
  /\ A_ice user = PetscOptionsReal (opt_A opts) (1.0e-16 / 31556926.0)
  /\ delta user = PetscOptionsReal (opt_delta opts) 1.0e-4
  /\ initmagic user = PetscOptionsReal (opt_initmagic opts) 1000.0
  /\ lambda user = PetscOptionsReal (opt_lambda opts) 0.25
  /\ L user = 900.0e3
  /\ eps user = 0.001 /\ D0 user = 10.0
  /\ g user = 9.81 /\ rho_ice user = 910.0 /\ secpera user = 31556926.0
  /\ cmb user = None
  /\ tf user = tf user0
  /\ Gamma user
     = 2.0 * PetscPowReal (910.0 * 9.81) (n_ice user) * A_ice user
       / (n_ice user + 2.0).
Proof.
  cbv beta iota zeta delta
    [SetFromOptionsAppCtx set_L set_n_ice set_g set_rho_ice set_secpera
       set_A_ice set_initmagic set_delta set_lambda set_cmb set_D0 set_eps
       set_Gamma L tf secpera g rho_ice n_ice A_ice Gamma D0 eps delta lambda
       initmagic cmb].
  unfold Rleb.
  destruct (Rle_dec (PetscOptionsReal (opt_n opts) 3.0) 1.0) as [Hle | Hgt];
    [discriminate |].
  intros Hok. inversion Hok; subst; clear Hok.
  cbn [L tf secpera g rho_ice n_ice A_ice Gamma D0 eps delta lambda
         initmagic cmb].
  repeat split; try reflexivity. lra.
Qed.

Lemma Ice_SetFromOptionsAppCtx_accepted_witness :
  exists user,
    SetFromOptionsAppCtx (opts_n 3.0) user_blank = Ok user
    /\ L user = 900.0e3 /\ tf user = tf user_blank.
Proof.
  assert (Hrun : exists user,
             SetFromOptionsAppCtx (opts_n 3.0) user_blank = Ok user).
  { destruct (SetFromOptionsAppCtx_cases (opts_n 3.0) user_blank)
      as [[Hle _] | [_ (u & Hu & _)]].
    - cbn [opts_n opt_n PetscOptionsReal] in Hle. lra.
    - exists u. exact Hu. }
  destruct Hrun as [user Hrun]. exists user. split; [exact Hrun |].
  pose proof (Ice_SetFromOptionsAppCtx_accepted (opts_n 3.0) user_blank user
                Hrun) as H.
  split; apply H.
Defined.

(** In an accepted configuration with a positive ice softness, as the
    default one is, the flux coefficient [Gamma] is positive. *)
Theorem Ice_Gamma_positive (opts : Options) (user0 user : AppCtx) :
  SetFromOptionsAppCtx opts user0 = Ok user ->
  0 < PetscOptionsReal (opt_A opts) (1.0e-16 / 31556926.0) ->
  0 < Gamma user.
Proof.
  intros Hok HA.
  destruct (Ice_config_fields opts user0 user Hok)
    as (Hn & _ & EA & _ & _ & _ & _ & _ & _ & _ & _ & _ & _ & _ & EG).
  rewrite EG, EA.
  assert (Hp : 0 < PetscPowReal (910.0 * 9.81) (n_ice user))
    by (apply PetscPowReal_pos; lra).
  assert (Hden : 0 < n_ice user + 2.0) by lra.
  unfold Rdiv. apply Rmult_lt_0_compat; [| apply Rinv_0_lt_compat; exact Hden].
  apply Rmult_lt_0_compat; [| exact HA].
  apply Rmult_lt_0_compat; [lra | exact Hp].
Qed.

Lemma Ice_Gamma_positive_witness :
  exists user,
    SetFromOptionsAppCtx (opts_n 3.0) user_blank = Ok user /\ 0 < Gamma user.
Proof.
  assert (Hrun : exists user,
             SetFromOptionsAppCtx (opts_n 3.0) user_blank = Ok user).
  { destruct (SetFromOptionsAppCtx_cases (opts_n 3.0) user_blank)
      as [[Hle _] | [_ (u & Hu & _)]].
    - cbn [opts_n opt_n PetscOptionsReal] in Hle. lra.
    - exists u. exact Hu. }
  destruct Hrun as [user Hrun]. exists user. split; [exact Hrun |].
  apply (Ice_Gamma_positive (opts_n 3.0) user_blank user Hrun).
  cbn [opts_n opt_A PetscOptionsReal]. lra.
Defined.

End IceCMBConfig.

(** ** The flux of [ice.c]: locality *)

Section IceLocality.

Import Ice IceForms GridForms.

(** The flux at a point of an element is a function of the four corner
    values of the thickness and of the bed. *)
Lemma Ice_flux_at_corners (user : AppCtx) (dx dy : R)
  (aH aH' ab ab' : Array2) (k j k' j' c : Z) :
  aH k j = aH' k' j' ->
  aH k (j + 1)%Z = aH' k' (j' + 1)%Z ->
  aH (k + 1)%Z (j + 1)%Z = aH' (k' + 1)%Z (j' + 1)%Z ->
  aH (k + 1)%Z j = aH' (k' + 1)%Z j' ->
  ab k j = ab' k' j' ->
  ab k (j + 1)%Z = ab' k' (j' + 1)%Z ->
  ab (k + 1)%Z (j + 1)%Z = ab' (k' + 1)%Z (j' + 1)%Z ->
  ab (k + 1)%Z j = ab' (k' + 1)%Z j' ->
  flux_at user dx dy aH ab k j c = flux_at user dx dy aH' ab' k' j' c.
Proof.
  intros H0 H1 H2 H3 B0 B1 B2 B3.
  unfold flux_at, Hup_at, fieldatpt, gradfatpt. cbv zeta.
  rewrite H0, H1, H2, H3, B0, B1, B2, B3. reflexivity.
Qed.

Lemma Ice_gradfatpt_shift (u v : Z) (xi eta dx dy c : R) (f : Array2) :
  gradfatpt u v xi eta dx dy (fun k j => f k j + c)
  = gradfatpt u v xi eta dx dy f.
Proof.
  unfold gradfatpt, gx, gy. cbv zeta. autorewrite with tab. lits.
  f_equal; unfold Rdiv; ring.
Qed.

(** Raising the bed by a constant leaves the bed gradient at every point
    of every element as it is, and so the flux computed there: the bed
    enters the flux through its slope only. *)
Theorem Ice_flux_bed_shift (user : AppCtx) (dx dy : R) (aH ab : Array2)
  (c : R) (k j cc : Z) :
  (forall xi eta,
      gradfatpt j k xi eta dx dy (fun k j => ab k j + c)
      = gradfatpt j k xi eta dx dy ab)
  /\ flux_at user dx dy aH (fun k j => ab k j + c) k j cc
     = flux_at user dx dy aH ab k j cc.
Proof.
  split.
  - intros xi eta. apply Ice_gradfatpt_shift.
  - unfold flux_at. cbv zeta. rewrite Ice_gradfatpt_shift. reflexivity.
Qed.

End IceLocality.

(** ** Sums over index ranges *)

Section Sums.

Import GridForms.

Lemma sum_from_ext (f g : Z -> R) :
  forall (n : nat) (lo : Z),
    (forall i, (lo <= i < lo + Z.of_nat n)%Z -> f i = g i) ->
    sum_from n lo f = sum_from n lo g.
Proof.
  induction n as [|n IH]; intros lo Hfg; [reflexivity |].
  cbn [sum_from]. rewrite (Hfg lo) by lia. f_equal.
  apply IH. intros i Hi. apply Hfg. lia.
Qed.

Lemma sumZ_ext (lo hi : Z) (f g : Z -> R) :
  (forall i, (lo <= i < hi)%Z -> f i = g i) -> sumZ lo hi f = sumZ lo hi g.
Proof.
  intros Hfg. unfold sumZ. apply sum_from_ext. intros i Hi. apply Hfg. lia.
Qed.

Lemma sum_from_plus (f g : Z -> R) :
  forall (n : nat) (lo : Z),
    sum_from n lo (fun i => f i + g i) = sum_from n lo f + sum_from n lo g.
Proof.
  induction n as [|n IH]; intros lo; cbn [sum_from]; [ring |].
  rewrite IH. ring.
Qed.

Lemma sum_from_scal (c : R) (f : Z -> R) :
  forall (n : nat) (lo : Z),
    sum_from n lo (fun i => c * f i) = c * sum_from n lo f.
Proof.
  induction n as [|n IH]; intros lo; cbn [sum_from]; [ring |].
  rewrite IH. ring.
Qed.

Lemma sum_from_telescope (g : Z -> R) :
  forall (n : nat) (lo : Z),
    sum_from n lo (fun i => g i - g (i - 1)%Z)
    = g (lo + Z.of_nat n - 1)%Z - g (lo - 1)%Z.
Proof.
  induction n as [|n IH]; intros lo.
  - cbn [sum_from]. replace (lo + Z.of_nat 0 - 1)%Z with (lo - 1)%Z by lia.
    ring.
  - cbn [sum_from]. rewrite IH.
    replace (lo + 1 + Z.of_nat n - 1)%Z
      with (lo + Z.of_nat (Datatypes.S n) - 1)%Z by lia.
    replace (lo + 1 - 1)%Z with lo by lia. ring.
Qed.

Lemma sumZ_telescope (lo hi : Z) (g : Z -> R) :
  (lo <= hi)%Z ->
  sumZ lo hi (fun i => g i - g (i - 1)%Z) = g (hi - 1)%Z - g (lo - 1)%Z.
Proof.
  intros Hle. unfold sumZ. rewrite sum_from_telescope.
  replace (lo + Z.of_nat (Z.to_nat (hi - lo)) - 1)%Z with (hi - 1)%Z by lia.
  reflexivity.
Qed.

Lemma sumZ_plus (lo hi : Z) (f g : Z -> R) :
  sumZ lo hi (fun i => f i + g i) = sumZ lo hi f + sumZ lo hi g.
Proof. unfold sumZ. apply sum_from_plus. Qed.

Lemma sumZ_scal (lo hi : Z) (c : R) (f : Z -> R) :
  sumZ lo hi (fun i => c * f i) = c * sumZ lo hi f.
Proof. unfold sumZ. apply sum_from_scal. Qed.

Lemma sumZ_zero (lo hi : Z) (f : Z -> R) :
  (forall i, (lo <= i < hi)%Z -> f i = 0) -> sumZ lo hi f = 0.
Proof.
  intros Hf. rewrite (sumZ_ext lo hi f (fun i => 0 * 0)).
  - rewrite sumZ_scal. ring.
  - intros i Hi. rewrite (Hf i Hi). ring.
Qed.

Lemma sum2_ext (klo khi jlo jhi : Z) (F G : Z -> Z -> R) :
  (forall k j, (klo <= k < khi)%Z -> (jlo <= j < jhi)%Z -> F k j = G k j) ->
  sum2 klo khi jlo jhi F = sum2 klo khi jlo jhi G.
Proof.
  intros HFG. unfold sum2. apply sumZ_ext. intros k Hk.
  apply sumZ_ext. intros j Hj. apply HFG; assumption.
Qed.

Lemma sum2_plus (klo khi jlo jhi : Z) (F G : Z -> Z -> R) :
  sum2 klo khi jlo jhi (fun k j => F k j + G k j)
  = sum2 klo khi jlo jhi F + sum2 klo khi jlo jhi G.
Proof.
  unfold sum2. rewrite <- sumZ_plus. apply sumZ_ext. intros k _.
  apply sumZ_plus.
Qed.

Lemma sum2_scal (klo khi jlo jhi : Z) (c : R) (F : Z -> Z -> R) :
  sum2 klo khi jlo jhi (fun k j => c * F k j)
  = c * sum2 klo khi jlo jhi F.
Proof.
  unfold sum2. rewrite <- sumZ_scal. apply sumZ_ext. intros k _.
  apply sumZ_scal.
Qed.

(** A sum of differences along [j] vanishes when the last column repeats
    the column before the first. *)
Lemma sum2_telescope_j (klo khi jlo jhi : Z) (g : Z -> Z -> R) :
  (jlo <= jhi)%Z ->
  (forall k, (klo <= k < khi)%Z -> g k (jhi - 1)%Z = g k (jlo - 1)%Z) ->
  sum2 klo khi jlo jhi (fun k j => g k j - g k (j - 1)%Z) = 0.
Proof.
  intros Hj Hper. unfold sum2. apply sumZ_zero. intros k Hk.
  rewrite (sumZ_telescope jlo jhi (g k) Hj). rewrite (Hper k Hk). ring.
Qed.

(** A sum of differences along [k] vanishes when the last row repeats the
    row before the first. *)
Lemma sum2_telescope_k (klo khi jlo jhi : Z) (g : Z -> Z -> R) :
  (klo <= khi)%Z ->
  (forall j, (jlo <= j < jhi)%Z -> g (khi - 1)%Z j = g (klo - 1)%Z j) ->
  sum2 klo khi jlo jhi (fun k j => g k j - g (k - 1)%Z j) = 0.
Proof.
  intros Hk Hper. unfold sum2.
  rewrite (sumZ_ext klo khi _
             (fun k => sumZ jlo jhi (g k) - sumZ jlo jhi (g (k - 1)%Z))).
  - rewrite (sumZ_telescope klo khi (fun k => sumZ jlo jhi (g k)) Hk).
    rewrite (sumZ_ext jlo jhi (g (khi - 1)%Z) (g (klo - 1)%Z) Hper). ring.
  - intros k _.
    rewrite (sumZ_ext jlo jhi _
               (fun j => g k j + (-1) * g (k - 1)%Z j)).
    + rewrite sumZ_plus, sumZ_scal. ring.
    + intros j _. ring.
Qed.

End Sums.

(** ** The quadrature of [ice.c]: conservation *)

Section IceConservation.

Import Ice IceForms GridForms.

Variable info : DMDALocalInfo.
Variable user : AppCtx.
Variables aH ab : Array2.
Variables dx dy : R.

Hypothesis HperH : periodic_ghosts info aH.
Hypothesis Hperb : periodic_ghosts info ab.

(** The element left of the first column carries the fluxes of the last
    column. *)
Lemma Ice_flux_periodic_j (k c : Z) :
  (-1 <= k <= my info - 1)%Z ->
  flux_at user dx dy aH ab k (mx info - 1)%Z c
  = flux_at user dx dy aH ab k (-1)%Z c.
Proof.
  intros Hk.
  destruct HperH as [HHj _]. destruct Hperb as [Hbj _].
  destruct (HHj k) as [H0 H1]; [lia |].
  destruct (HHj (k + 1)%Z) as [H2 H3]; [lia |].
  destruct (Hbj k) as [B0 B1]; [lia |].
  destruct (Hbj (k + 1)%Z) as [B2 B3]; [lia |].
  apply Ice_flux_at_corners;
    replace (mx info - 1 + 1)%Z with (mx info) by lia;
    change (-1 + 1)%Z with 0%Z; congruence.
Qed.

(** The element below the first row carries the fluxes of the last row. *)
Lemma Ice_flux_periodic_k (j c : Z) :
  (-1 <= j <= mx info - 1)%Z ->
  flux_at user dx dy aH ab (my info - 1)%Z j c
  = flux_at user dx dy aH ab (-1)%Z j c.
Proof.
  intros Hj.
  destruct HperH as [_ HHk]. destruct Hperb as [_ Hbk].
  destruct (HHk j) as [H0 H1]; [lia |].
  destruct (HHk (j + 1)%Z) as [H2 H3]; [lia |].
  destruct (Hbk j) as [B0 B1]; [lia |].
  destruct (Hbk (j + 1)%Z) as [B2 B3]; [lia |].
  apply Ice_flux_at_corners;
    replace (my info - 1 + 1)%Z with (my info) by lia;
    change (-1 + 1)%Z with 0%Z; congruence.
Qed.

End IceConservation.

(** The eight quadrature terms of a node, as four differences of fluxes
    between neighbouring elements. *)
Lemma Ice_quad_sum_differences (dx dy : R) (q : Array3) (k j : Z)
  (start : R) :
  IceForms.quad_sum dx dy q k j start
  = start
    + (dy / 2) * (q k j 0%Z - q k (j - 1)%Z 0%Z)
    + (dx / 2) * (q k j 3%Z - q (k - 1)%Z j 3%Z)
    + (dx / 2) * (q k (j - 1)%Z 1%Z - q (k - 1)%Z (j - 1)%Z 1%Z)
    + (dy / 2) * (q (k - 1)%Z j 2%Z - q (k - 1)%Z (j - 1)%Z 2%Z).
Proof.
  unfold IceForms.quad_sum, IceForms.quad_term, Ice.coeff. eval_tabZ.
  autorewrite with tab. rewrite !Z.add_0_r.
  change (k + -1)%Z with (k - 1)%Z. change (j + -1)%Z with (j - 1)%Z.
  unfold Rdiv. ring.
Qed.

(** The tables [je], [ke], [ce] and [coeff] pair every point on the
    boundary of a control volume with the same point of the same element
    on the boundary of a neighbouring control volume, with the opposite
    coefficient.  So for every array of fluxes whose ghost elements left
    of the first column and below the first row carry the fluxes of the
    last column and of the last row, the quadrature sums of all the nodes
    of the grid add up to zero. *)
Theorem Ice_quadrature_conservation (info : DMDALocalInfo) (dx dy : R)
  (q : Array3) :
  (0 < mx info)%Z -> (0 < my info)%Z ->
  (forall k c, (-1 <= k <= my info - 1)%Z ->
               q k (mx info - 1)%Z c = q k (-1)%Z c) ->
  (forall j c, (-1 <= j <= mx info - 1)%Z ->
               q (my info - 1)%Z j c = q (-1)%Z j c) ->
  GridForms.sum2 0 (my info) 0 (mx info)
    (fun k j => IceForms.quad_sum dx dy q k j 0)
  = 0.
Proof.
  intros Hmx Hmy Hqj Hqk.
  rewrite (sum2_ext _ _ _ _ _
             (fun k j =>
                (((0 * 0
                   + (dy / 2)
                     * ((fun k j => q k j 0%Z) k j
                        - (fun k j => q k j 0%Z) k (j - 1)%Z))
                  + (dx / 2)
                    * ((fun k j => q k j 3%Z) k j
                       - (fun k j => q k j 3%Z) (k - 1)%Z j))
                 + (dx / 2)
                   * ((fun k j => q k (j - 1)%Z 1%Z) k j
                      - (fun k j => q k (j - 1)%Z 1%Z) (k - 1)%Z j))
                + (dy / 2)
                  * ((fun k j => q (k - 1)%Z j 2%Z) k j
                     - (fun k j => q (k - 1)%Z j 2%Z) k (j - 1)%Z))).
  2:{ intros k j _ _. rewrite Ice_quad_sum_differences. cbv beta. ring. }
  rewrite !sum2_plus, !sum2_scal.
  rewrite (sum2_telescope_j 0 (my info) 0 (mx info) (fun k j => q k j 0%Z)).
  2:{ lia. }
  2:{ intros k Hk. replace (0 - 1)%Z with (-1)%Z by lia. apply Hqj. lia. }
  rewrite (sum2_telescope_k 0 (my info) 0 (mx info) (fun k j => q k j 3%Z)).
  2:{ lia. }
  2:{ intros j Hj. replace (0 - 1)%Z with (-1)%Z by lia. apply Hqk. lia. }
  rewrite (sum2_telescope_k 0 (my info) 0 (mx info)
             (fun k j => q k (j - 1)%Z 1%Z)).
  2:{ lia. }
  2:{ intros j Hj. replace (0 - 1)%Z with (-1)%Z by lia. apply Hqk. lia. }
  rewrite (sum2_telescope_j 0 (my info) 0 (mx info)
             (fun k j => q (k - 1)%Z j 2%Z)).
  2:{ lia. }
  2:{ intros k Hk. replace (0 - 1)%Z with (-1)%Z by lia. apply Hqj. lia. }
  ring.
Qed.

Lemma bump_bed_periodic_ghosts :
  GridForms.periodic_ghosts IceInputs.info4 IceInputs.bump_bed.
Proof.
  unfold GridForms.periodic_ghosts. cbn [mx my IceInputs.info4]. split.
  - intros k Hk.
    assert (Hkc : k = (-1)%Z \/ k = 0%Z \/ k = 1%Z \/ k = 2%Z \/ k = 3%Z
                  \/ k = 4%Z) by lia.
    destruct Hkc as [-> | [-> | [-> | [-> | [-> | ->]]]]];
      split; reflexivity.
  - intros j Hj.
    assert (Hjc : j = (-1)%Z \/ j = 0%Z \/ j = 1%Z \/ j = 2%Z \/ j = 3%Z
                  \/ j = 4%Z) by lia.
    destruct Hjc as [-> | [-> | [-> | [-> | [-> | ->]]]]];
      split; reflexivity.
Qed.

Lemma const_field_periodic_ghosts (v : R) :
  GridForms.periodic_ghosts IceInputs.info4 (IceInputs.const_field v).
Proof.
  unfold GridForms.periodic_ghosts, IceInputs.const_field.
  split; intros; split; reflexivity.
Qed.

Lemma Ice_quadrature_conservation_witness :
  GridForms.sum2 0 4 0 4
    (fun k j =>
       IceForms.quad_sum 1 1
         (fun k j c =>
            Ice.flux_at (IceInputs.user4 None) 1 1 (IceInputs.const_field 1)
              IceInputs.bump_bed k j c) k j 0)
  = 0.
Proof.
  apply (Ice_quadrature_conservation IceInputs.info4 1 1
           (fun k j c =>
              Ice.flux_at (IceInputs.user4 None) 1 1 (IceInputs.const_field 1)
                IceInputs.bump_bed k j c)).
  - cbn. lia.
  - cbn. lia.
  - intros k c Hk.
    apply (Ice_flux_periodic_j IceInputs.info4 (IceInputs.user4 None)
             (IceInputs.const_field 1) IceInputs.bump_bed 1 1
             (const_field_periodic_ghosts 1) bump_bed_periodic_ghosts k c Hk).
  - intros j c Hj.
    apply (Ice_flux_periodic_k IceInputs.info4 (IceInputs.user4 None)
             (IceInputs.const_field 1) IceInputs.bump_bed 1 1
             (const_field_periodic_ghosts 1) bump_bed_periodic_ghosts j c Hj).
Defined.

(** ** The loop nests of [dnl.c]: fluxes and interior residual *)

Section DnlFluxLoop.

Import Dnl DnlForms DnlResidual.

Variable info : DMDALocalInfo.
Variable user : AppCtx.

Lemma flux_body_eq (dx dy : R) (aH ab : Array2) (k j c : Z)
  (st : Array3 * Mem) :
  exists m,
    flux_body user dx dy aH ab k j c st
    = Ok (upd3 (fst st) c k j (flux_at user dx dy aH ab k j c), m).
Proof.
  unfold flux_body, flux_at. cbv zeta. rewrite SIAflux_nonnull. cbn [bind].
  eexists. unfold store at 1. cbn [String.eqb Ascii.eqb Bool.eqb].
  reflexivity.
Qed.

Lemma upd3_same (a : Array3) (i k j : Z) (v : R) : upd3 a i k j v i k j = v.
Proof. unfold upd3. rewrite !Z.eqb_refl. reflexivity. Qed.

Lemma upd3_other (a : Array3) (i k j i' k' j' : Z) (v : R) :
  i' <> i \/ k' <> k \/ j' <> j -> upd3 a i k j v i' k' j' = a i' k' j'.
Proof.
  intros Hne. unfold upd3.
  assert (Hf : ((i' =? i)%Z && (k' =? k)%Z && (j' =? j)%Z) = false).
  { destruct Hne as [Hne | [Hne | Hne]]; apply Z.eqb_neq in Hne; rewrite Hne;
      rewrite ?andb_false_r; reflexivity. }
  rewrite Hf. reflexivity.
Qed.

(** The loop over the four points of element [(k,j)]. *)
Lemma flux_c_loop (dx dy : R) (aH ab : Array2) (k j : Z) (st : Array3 * Mem) :
  exists st',
    for_res 0 4 (fun c st => flux_body user dx dy aH ab k j c st) st = Ok st'
    /\ (forall c, (0 <= c < 4)%Z ->
                  fst st' c k j = flux_at user dx dy aH ab k j c)
    /\ (forall c k' j', k' <> k \/ j' <> j ->
                        fst st' c k' j' = fst st c k' j').
Proof.
  change (for_res 0 4 (fun c st => flux_body user dx dy aH ab k j c st) st)
    with (bind (flux_body user dx dy aH ab k j 0 st) (fun s1 =>
          bind (flux_body user dx dy aH ab k j 1 s1) (fun s2 =>
          bind (flux_body user dx dy aH ab k j 2 s2) (fun s3 =>
          bind (flux_body user dx dy aH ab k j 3 s3) (fun s4 => Ok s4))))).
  destruct (flux_body_eq dx dy aH ab k j 0 st) as [m0 E0].
  rewrite E0. cbn [bind].
  destruct (flux_body_eq dx dy aH ab k j 1
              (upd3 (fst st) 0 k j (flux_at user dx dy aH ab k j 0), m0))
    as [m1 E1].
  rewrite E1. cbn [bind fst].
  destruct (flux_body_eq dx dy aH ab k j 2
              (upd3 (upd3 (fst st) 0 k j (flux_at user dx dy aH ab k j 0))
                 1 k j (flux_at user dx dy aH ab k j 1), m1)) as [m2 E2].
  rewrite E2. cbn [bind fst].
  destruct (flux_body_eq dx dy aH ab k j 3
              (upd3 (upd3 (upd3 (fst st) 0 k j
                             (flux_at user dx dy aH ab k j 0))
                       1 k j (flux_at user dx dy aH ab k j 1))
                 2 k j (flux_at user dx dy aH ab k j 2), m2)) as [m3 E3].
  rewrite E3. cbn [bind fst].
  eexists. split; [reflexivity |]. cbn [fst]. split.
  - intros c Hc.
    assert (Hcases : c = 0%Z \/ c = 1%Z \/ c = 2%Z \/ c = 3%Z) by lia.
    destruct Hcases as [-> | [-> | [-> | ->]]];
      repeat first [rewrite upd3_same | rewrite upd3_other by (left; lia)];
      reflexivity.
  - intros c k' j' Hne.
    rewrite !upd3_other by (right; tauto). reflexivity.
Qed.

(** The flux array after the second loop nest: in every element of the
    grid within the loop range, the four fluxes of the element. *)
Lemma Dnl_flux_loop_at (dx dy : R) (aH ab : Array2) (st fl : Array3 * Mem)
  (k j c : Z) :
  flux_loop info user dx dy aH ab st = Ok fl ->
  (ys info - 1 <= k < ys info + ym info)%Z ->
  (xs info - 1 <= j < xs info + xm info)%Z ->
  no_element info j k = false ->
  (0 <= c < 4)%Z ->
  fst fl c k j = flux_at user dx dy aH ab k j c.
Proof.
  intros Hrun Hk Hj Hel Hc. unfold flux_loop in Hrun.
  pose proof (for2_res_pointwise (fun (s : Array3 * Mem) k j => fst s c k j)
                (fun k j old => if no_element info j k then old
                                else flux_at user dx dy aH ab k j c)
                (ys info - 1)%Z (ys info + ym info)%Z
                (xs info - 1)%Z (xs info + xm info)%Z
                (fun k j st =>
                   if no_element info j k then Ok st
                   else for_res 0 4
                          (fun c st => flux_body user dx dy aH ab k j c st) st)
                st fl) as Hpw.
  cbv beta in Hpw.
  assert (Hbody : forall k j s s',
             (ys info - 1 <= k < ys info + ym info)%Z ->
             (xs info - 1 <= j < xs info + xm info)%Z ->
             (if no_element info j k then Ok s
              else for_res 0 4
                     (fun c st => flux_body user dx dy aH ab k j c st) s)
             = Ok s' ->
             fst s' c k j
             = (if no_element info j k then fst s c k j
                else flux_at user dx dy aH ab k j c)
             /\ (forall k' j', k' <> k \/ j' <> j ->
                               fst s' c k' j' = fst s c k' j')).
  { intros k1 j1 s s' _ _ Hb.
    destruct (no_element info j1 k1).
    - inversion Hb; subst. split; [reflexivity | intros; reflexivity].
    - destruct (flux_c_loop dx dy aH ab k1 j1 s) as (s2 & Hs2 & Hat & Hoth).
      rewrite Hs2 in Hb. inversion Hb; subst.
      split; [apply Hat; exact Hc | intros k' j' Hne; apply Hoth; exact Hne]. }
  destruct (Hpw Hbody Hrun k j) as [Hin _].
  rewrite Hin by (split; assumption). rewrite Hel. reflexivity.
Qed.

End DnlFluxLoop.

Section DnlInterior.

Import Dnl DnlForms DnlResidual.

Variable DomeCMB : R -> R -> AppCtx -> R.
Variable M_CMBModel : option CMBModel -> R -> R.

Variable info : DMDALocalInfo.
Variable user : AppCtx.

(** The last loop nest at an owned node off the boundary. *)
Lemma Dnl_residual_loop_at (dx dy : R) (aH ab : Array2) (aq : Array3)
  (FF0 : Array2) (k j : Z) :
  (ys info <= k < ys info + ym info)%Z ->
  (xs info <= j < xs info + xm info)%Z ->
  on_boundary info j k = false ->
  residual_loop DomeCMB M_CMBModel info user dx dy aH ab aq FF0 k j
  = quad_sum dx dy aq k j
      (- (if verif user then DomeCMB (IZR j * dx) (IZR k * dy) user
          else M_CMBModel (cmb user) (ab k j + aH k j)) * dx * dy).
Proof.
  intros Hk Hj Hb. unfold residual_loop.
  pose proof (for2_pure_pointwise (fun (A : Array2) k j => A k j)
                (fun k j old =>
                   if on_boundary info j k then old
                   else quad_sum dx dy aq k j
                          (- (if verif user
                              then DomeCMB (IZR j * dx) (IZR k * dy) user
                              else M_CMBModel (cmb user) (ab k j + aH k j))
                           * dx * dy))
                (ys info) (ys info + ym info) (xs info) (xs info + xm info)
                (fun k j FF =>
                   if on_boundary info j k then FF
                   else
                     let M :=
                       if verif user
                       then DomeCMB (IZR j * dx) (IZR k * dy) user
                       else M_CMBModel (cmb user) (ab k j + aH k j) in
                     let FF := upd2 FF k j (- M * dx * dy) in
                     for_pure 0 8 (fun s FF =>
                       upd2 FF k j
                         (FF k j
                          + tabR (coeff dx dy) s
                            * aq (tabZ ce s) (k + tabZ ke s)%Z
                                (j + tabZ je s)%Z)) FF)
                FF0) as Hpw.
  cbv zeta in Hpw.
  assert (Hgoal : forall k j A,
             (ys info <= k < ys info + ym info)%Z ->
             (xs info <= j < xs info + xm info)%Z ->
             (fun (A : Array2) k j => A k j)
               ((fun k j FF =>
                   if on_boundary info j k then FF
                   else
                     for_pure 0 8 (fun s FF =>
                       upd2 FF k j
                         (FF k j
                          + tabR (coeff dx dy) s
                            * aq (tabZ ce s) (k + tabZ ke s)%Z
                                (j + tabZ je s)%Z))
                       (upd2 FF k j
                          (- (if verif user
                              then DomeCMB (IZR j * dx) (IZR k * dy) user
                              else M_CMBModel (cmb user) (ab k j + aH k j))
                           * dx * dy))) k j A) k j
             = (if on_boundary info j k then A k j
                else quad_sum dx dy aq k j
                       (- (if verif user
                           then DomeCMB (IZR j * dx) (IZR k * dy) user
                           else M_CMBModel (cmb user) (ab k j + aH k j))
                        * dx * dy))
             /\ (forall k' j', k' <> k \/ j' <> j ->
                   (fun k j FF =>
                      if on_boundary info j k then FF
                      else
                        for_pure 0 8 (fun s FF =>
                          upd2 FF k j
                            (FF k j
                             + tabR (coeff dx dy) s
                               * aq (tabZ ce s) (k + tabZ ke s)%Z
                                   (j + tabZ je s)%Z))
                          (upd2 FF k j
                             (- (if verif user
                                 then DomeCMB (IZR j * dx) (IZR k * dy) user
                                 else M_CMBModel (cmb user)
                                        (ab k j + aH k j))
                              * dx * dy))) k j A k' j'
                   = A k' j')).
  { clear. intros k j A _ _. cbv beta.
    destruct (on_boundary info j k); [split; [reflexivity | reflexivity] |].
    rewrite for_pure_unroll8. split.
    - rewrite !upd2_same. unfold quad_sum, quad_term. reflexivity.
    - intros k' j' Hne. rewrite !upd2_other by exact Hne. reflexivity. }
  destruct (Hpw Hgoal k j) as [Hin _].
  rewrite Hin by (split; assumption). rewrite Hb. reflexivity.
Qed.

End DnlInterior.

Section DnlInteriorResidual.

Import Dnl DnlForms DnlResidual.

Variable DomeCMB : R -> R -> AppCtx -> R.
Variable M_CMBModel : option CMBModel -> R -> R.
Variable FormBedLocal : DMDALocalInfo -> Z -> Array2 -> AppCtx -> Res Array2.

Lemma Dnl_flux_at_corners (user : AppCtx) (dx dy : R)
  (aH aH' ab ab' : Array2) (k j c : Z) :
  aH k j = aH' k j ->
  aH k (j + 1)%Z = aH' k (j + 1)%Z ->
  aH (k + 1)%Z (j + 1)%Z = aH' (k + 1)%Z (j + 1)%Z ->
  aH (k + 1)%Z j = aH' (k + 1)%Z j ->
  ab k j = ab' k j ->
  ab k (j + 1)%Z = ab' k (j + 1)%Z ->
  ab (k + 1)%Z (j + 1)%Z = ab' (k + 1)%Z (j + 1)%Z ->
  ab (k + 1)%Z j = ab' (k + 1)%Z j ->
  flux_at user dx dy aH ab k j c = flux_at user dx dy aH' ab' k j c.
Proof.
  intros H0 H1 H2 H3 B0 B1 B2 B3.
  unfold flux_at, Hup_at, fieldatptArray, gradfatptArray. cbv zeta.
  rewrite H0, H1, H2, H3, B0, B1, B2, B3. reflexivity.
Qed.

Lemma Dnl_grid_tests (info : DMDALocalInfo) (j k : Z) :
  ((0 < j < mx info - 1)%Z -> (0 < k < my info - 1)%Z ->
   on_boundary info j k = false)
  /\ ((0 <= j <= mx info - 1)%Z -> (0 <= k <= my info - 1)%Z ->
      off_grid info j k = false)
  /\ ((0 <= j < mx info - 1)%Z -> (0 <= k < my info - 1)%Z ->
      no_element info j k = false).
Proof.
  unfold on_boundary, off_grid, no_element.
  repeat split; intros Hj Hk;
    repeat (apply orb_false_iff; split);
    first [apply Z.eqb_neq | apply Z.ltb_ge | apply Z.gtb_ltb
           | idtac];
    rewrite ?Z.gtb_ltb, ?Z.geb_leb;
    first [apply Z.eqb_neq | apply Z.ltb_ge | apply Z.leb_gt]; lia.
Qed.

(** The pieces of a completed evaluation. *)
Lemma FormFunctionLocal_inv (info : DMDALocalInfo) (aHin FF0 : Array2)
  (user : AppCtx) (scr : Scratch) (st : State) :
  FormFunctionLocal DomeCMB M_CMBModel FormBedLocal info aHin FF0 user scr
  = Ok st ->
  exists s1 fl,
    stage_loop info user aHin (FF0, aH0 scr) = Ok s1
    /\ flux_loop info user (L user / IZR (mx info - 1))
         (L user / IZR (my info - 1)) (snd s1) (ab st)
         (aqquad0 scr, mem0 scr) = Ok fl
    /\ aH st = snd s1
    /\ aqquad st = fst fl
    /\ FF st
       = residual_loop DomeCMB M_CMBModel info user
           (L user / IZR (mx info - 1)) (L user / IZR (my info - 1))
           (snd s1) (ab st) (fst fl) (fst s1).
Proof.
  unfold FormFunctionLocal. cbv zeta. intros Hrun.
  destruct (stage_loop info user aHin (FF0, aH0 scr)) as [s1 | |];
    cbn [bind] in Hrun; try discriminate.
  destruct (if verif user then Ok (fun _ _ : Z => 0.0)
            else FormBedLocal info 1 (ab0 scr) user) as [b | |];
    cbn [bind] in Hrun; try discriminate.
  destruct (flux_loop info user _ _ (snd s1) b (aqquad0 scr, mem0 scr))
    as [fl | |] eqn:Hfl; cbn [bind] in Hrun; try discriminate.
  inversion Hrun; subst. cbn [aH ab aqquad FF].
  exists s1, fl. repeat split. exact Hfl.
Qed.

(** The residual of a completed evaluation at an owned node off the
    boundary, in closed form. *)
Lemma Dnl_interior_residual_form (info : DMDALocalInfo) (aHin FF0 : Array2)
  (user : AppCtx) (scr : Scratch) (st : State) (k j : Z) :
  FormFunctionLocal DomeCMB M_CMBModel FormBedLocal info aHin FF0 user scr
  = Ok st ->
  (ys info <= k < ys info + ym info)%Z ->
  (xs info <= j < xs info + xm info)%Z ->
  (0 < k < my info - 1)%Z ->
  (0 < j < mx info - 1)%Z ->
  FF st k j
  = residual_at DomeCMB M_CMBModel info user (staged info aHin) (ab st) k j.
Proof.
  intros Hrun Hk Hj Hki Hji.
  destruct (FormFunctionLocal_inv info aHin FF0 user scr st Hrun)
    as (s1 & fl & Hs1 & Hfl & _ & _ & HFF).
  assert (Hst : forall k' j', (k - 1 <= k' <= k + 1)%Z ->
                              (j - 1 <= j' <= j + 1)%Z ->
                              snd s1 k' j' = staged info aHin k' j').
  { intros k' j' Hk' Hj'.
    assert (Hg : off_grid info j' k' = false)
      by (apply Dnl_grid_tests; lia).
    destruct (stage_loop_ok info user aHin _ s1 k' j' Hs1) as (_ & HB & HI);
      [lia | lia | exact Hg |].
    unfold staged. destruct (on_boundary info j' k');
      [apply HB | apply HI]; reflexivity. }
  assert (Hbd : on_boundary info j k = false) by (apply Dnl_grid_tests; lia).
  rewrite HFF. rewrite Dnl_residual_loop_at by assumption.
  unfold residual_at, quad_sum, quad_term. cbv zeta. eval_tabZ.
  assert (Hq : forall k' j' c, (k - 1 <= k' <= k)%Z -> (j - 1 <= j' <= j)%Z ->
                 (0 <= c < 4)%Z ->
                 fst fl c k' j'
                 = flux_at user (L user / IZR (mx info - 1))
                     (L user / IZR (my info - 1)) (staged info aHin) (ab st)
                     k' j' c).
  { intros k' j' c Hk' Hj' Hc.
    rewrite (Dnl_flux_loop_at info user _ _ _ _ _ fl k' j' c Hfl);
      [| lia | lia | apply Dnl_grid_tests; lia | exact Hc].
    apply Dnl_flux_at_corners; try reflexivity; apply Hst; lia. }
  rewrite !Hq by lia.
  rewrite (Hst k j) by lia.
  reflexivity.
Qed.

(** At an owned node off the boundary, a completed evaluation leaves the
    control-volume balance computed from the staged field, in which the
    boundary values of the iterate are replaced by zero: minus the CMB at
    the node times the cell area, plus the eight boundary fluxes. *)
Theorem Dnl_interior_residual (info : DMDALocalInfo) (aHin FF0 : Array2)
  (user : AppCtx) (scr : Scratch) (st : State) (k j : Z) :
  FormFunctionLocal DomeCMB M_CMBModel FormBedLocal info aHin FF0 user scr
  = Ok st ->
  (ys info <= k < ys info + ym info)%Z ->
  (xs info <= j < xs info + xm info)%Z ->
  (0 < k < my info - 1)%Z ->
  (0 < j < mx info - 1)%Z ->
  FF st k j
  = residual_at DomeCMB M_CMBModel info user (staged info aHin) (ab st) k j.
Proof.
  intros Hrun Hk Hj Hki Hji.
  destruct (FormFunctionLocal_inv info aHin FF0 user scr st Hrun)
    as (s1 & fl & Hs1 & Hfl & _ & _ & HFF).
  assert (Hst : forall k' j', (k - 1 <= k' <= k + 1)%Z ->
                              (j - 1 <= j' <= j + 1)%Z ->
                              snd s1 k' j' = staged info aHin k' j').
  { intros k' j' Hk' Hj'.
    assert (Hg : off_grid info j' k' = false)
      by (apply Dnl_grid_tests; lia).
    destruct (stage_loop_ok info user aHin _ s1 k' j' Hs1) as (_ & HB & HI);
      [lia | lia | exact Hg |].
    unfold staged. destruct (on_boundary info j' k');
      [apply HB | apply HI]; reflexivity. }
  assert (Hbd : on_boundary info j k = false) by (apply Dnl_grid_tests; lia).
  rewrite HFF. rewrite Dnl_residual_loop_at by assumption.
  unfold residual_at, quad_sum, quad_term. cbv zeta. eval_tabZ.
  assert (Hq : forall k' j' c, (k - 1 <= k' <= k)%Z -> (j - 1 <= j' <= j)%Z ->
                 (0 <= c < 4)%Z ->
                 fst fl c k' j'
                 = flux_at user (L user / IZR (mx info - 1))
                     (L user / IZR (my info - 1)) (staged info aHin) (ab st)
                     k' j' c).
  { intros k' j' c Hk' Hj' Hc.
    rewrite (Dnl_flux_loop_at info user _ _ _ _ _ fl k' j' c Hfl);
      [| lia | lia | apply Dnl_grid_tests; lia | exact Hc].
    apply Dnl_flux_at_corners; try reflexivity; apply Hst; lia. }
  rewrite !Hq by lia.
  rewrite (Hst k j) by lia.
  reflexivity.
Qed.

(** The residual at an owned node off the boundary does not depend on the
    values of the iterate at the boundary nodes, nor on what the output
    array and the work vectors of the iterate and of the fluxes held
    before the call. *)
Theorem Dnl_interior_ignores_boundary_values (info : DMDALocalInfo)
  (aHin aHin' FF0 FF0' : Array2) (user : AppCtx) (scr scr' : Scratch)
  (st st' : State) (k j : Z) :
  FormFunctionLocal DomeCMB M_CMBModel FormBedLocal info aHin FF0 user scr
  = Ok st ->
  FormFunctionLocal DomeCMB M_CMBModel FormBedLocal info aHin' FF0' user scr'
  = Ok st' ->
  (forall k' j', on_boundary info j' k' = false -> aHin k' j' = aHin' k' j') ->
  ab0 scr = ab0 scr' ->
  (ys info <= k < ys info + ym info)%Z ->
  (xs info <= j < xs info + xm info)%Z ->
  (0 < k < my info - 1)%Z ->
  (0 < j < mx info - 1)%Z ->
  FF st k j = FF st' k j.
Proof.
  intros Hrun Hrun' Hag Hab Hk Hj Hki Hji.
  rewrite (Dnl_interior_residual_form info aHin FF0 user scr st k j Hrun)
    by assumption.
  rewrite (Dnl_interior_residual_form info aHin' FF0' user scr' st' k j Hrun')
    by assumption.
  assert (Hstg : forall k' j', staged info aHin k' j' = staged info aHin' k' j').
  { intros k' j'. unfold staged.
    destruct (on_boundary info j' k') eqn:Hb; [reflexivity |].
    apply Hag. exact Hb. }
  assert (Hbed : forall k' j', ab st k' j' = ab st' k' j').
  { intros k' j'.
    pose proof (Dnl_bed_from_provider DomeCMB M_CMBModel FormBedLocal
                  info aHin FF0 user scr st Hrun) as Hb.
    pose proof (Dnl_bed_from_provider DomeCMB M_CMBModel FormBedLocal
                  info aHin' FF0' user scr' st' Hrun') as Hb'.
    destruct (verif user).
    - rewrite Hb, Hb'. reflexivity.
    - rewrite Hab in Hb. rewrite Hb in Hb'. inversion Hb'. reflexivity. }
  unfold residual_at, quad_sum, quad_term. cbv zeta.
  rewrite (Hstg k j), (Hbed k j).
  assert (Hq : forall k' j' c,
             flux_at user (L user / IZR (mx info - 1))
               (L user / IZR (my info - 1)) (staged info aHin) (ab st) k' j' c
             = flux_at user (L user / IZR (mx info - 1))
                 (L user / IZR (my info - 1)) (staged info aHin') (ab st')
                 k' j' c).
  { intros k' j' c. apply Dnl_flux_at_corners;
      first [apply Hstg | apply Hbed]. }
  rewrite !Hq. reflexivity.
Qed.

(** The bed array that a completed evaluation used is the one the bed
    provider returned for the stencil width 1, that is with the ghost
    layer; in the verification case it is the zero array and the provider
    is not called. *)
Theorem Dnl_bed_array_from_provider (info : DMDALocalInfo)
  (aHin FF0 : Array2) (user : AppCtx) (scr : Scratch) (st : State) :
  FormFunctionLocal DomeCMB M_CMBModel FormBedLocal info aHin FF0 user scr
  = Ok st ->
  if verif user then forall k j, ab st k j = 0.0
  else FormBedLocal info 1 (ab0 scr) user = Ok (ab st).
Proof.
  unfold FormFunctionLocal. cbv zeta. intros Hrun.
  destruct (stage_loop info user aHin (FF0, aH0 scr)) as [s1 | |];
    cbn [bind] in Hrun; try discriminate.
  destruct (verif user).
  - cbn [bind] in Hrun.
    destruct (flux_loop info user _ _ (snd s1) _ (aqquad0 scr, mem0 scr))
      as [fl | |]; cbn [bind] in Hrun; try discriminate.
    inversion Hrun; subst. reflexivity.
  - destruct (FormBedLocal info 1 (ab0 scr) user) as [b | |];
      cbn [bind] in Hrun; try discriminate.
    destruct (flux_loop info user _ _ (snd s1) b (aqquad0 scr, mem0 scr))
      as [fl | |]; cbn [bind] in Hrun; try discriminate.
    inversion Hrun; subst. reflexivity.
Qed.

End DnlInteriorResidual.

Lemma iter_res_first_fail {S : Type} (body : Z -> S -> Res S) (e : PetscError) :
  forall (n : nat) (lo : Z) (s : S) (i0 : Z),
    (lo <= i0 < lo + Z.of_nat n)%Z ->
    (forall i s, (lo <= i < i0)%Z -> exists s', body i s = Ok s') ->
    (forall s, body i0 s = Err e) ->
    iter_res n lo body s = Err e.
Proof.
  induction n as [|n IH]; intros lo s i0 Hi0 Hok Hfail; [lia |].
  cbn [iter_res].
  destruct (Z.eq_dec i0 lo) as [-> | Hne].
  - rewrite Hfail. reflexivity.
  - destruct (Hok lo s) as [s1 Hs1]; [lia |].
    rewrite Hs1. cbn [bind].
    apply (IH (lo + 1)%Z s1 i0); [lia | | exact Hfail].
    intros i s2 Hi. apply Hok. lia.
Qed.

Lemma for_res_first_fail {S : Type} (lo hi : Z) (body : Z -> S -> Res S)
  (s : S) (i0 : Z) (e : PetscError) :
  (lo <= i0 < hi)%Z ->
  (forall i s, (lo <= i < i0)%Z -> exists s', body i s = Ok s') ->
  (forall s, body i0 s = Err e) ->
  for_res lo hi body s = Err e.
Proof.
  intros Hi0 Hok Hfail. unfold for_res.
  apply (iter_res_first_fail body e _ lo s i0); [lia | exact Hok | exact Hfail].
Qed.

Section DnlMore.

Import Dnl DnlForms DnlResidual.

Variable DomeCMB : R -> R -> AppCtx -> R.
Variable M_CMBModel : option CMBModel -> R -> R.
Variable FormBedLocal : DMDALocalInfo -> Z -> Array2 -> AppCtx -> Res Array2.

(** With the admissibility check enabled, the evaluation reports the first
    negative value in the order of the loop nest (rows [k] outermost): if
    the examined nodes before [(k0,j0)] hold non-negative values and
    [(k0,j0)] holds a negative one, the error carries that value and the
    indices [j0], [k0]. *)
Theorem Dnl_first_negative_reported (info : DMDALocalInfo)
  (aHin FF0 : Array2) (user : AppCtx) (scr : Scratch) (j0 k0 : Z) :
  check_admissible user = true ->
  examined info j0 k0 ->
  aHin k0 j0 < 0 ->
  (forall j k, examined info j k -> before k j k0 j0 -> 0 <= aHin k j) ->
  FormFunctionLocal DomeCMB M_CMBModel FormBedLocal info aHin FF0 user scr
  = Err (admissible_error (aHin k0 j0) j0 k0).
Proof.
  intros Hc (Hj0 & Hk0 & Hg0) Hneg Hbefore.
  assert (Hs : stage_loop info user aHin (FF0, aH0 scr)
               = Err (admissible_error (aHin k0 j0) j0 k0)).
  { unfold stage_loop.
    apply (for_res_first_fail _ _ _ _ k0); [lia | |].
    - intros k s Hk. apply for_res_total. intros j s1 Hj.
      apply stage_body_succeeds. right. intros Hg.
      apply Hbefore; [| left; lia].
      unfold examined. repeat split; [lia .. | exact Hg].
    - intros s. apply (for_res_first_fail _ _ _ _ j0); [lia | |].
      + intros j s1 Hj. apply stage_body_succeeds. right. intros Hg.
        apply Hbefore; [| right; lia].
        unfold examined. repeat split; [lia .. | exact Hg].
      + intros s1. apply stage_body_fails; assumption. }
  unfold FormFunctionLocal. cbv zeta. rewrite Hs. reflexivity.
Qed.

End DnlMore.

Lemma iterate5_before (j k : Z) :
  DnlResidual.before k j 2 2 -> 0 <= DnlForms.iterate5 (-1) k j.
Proof.
  intros Hb. unfold DnlForms.iterate5.
  destruct (Z.eqb_spec k 2) as [-> | Hk]; [| cbn [andb]; lra].
  destruct (Z.eqb_spec j 2) as [-> | Hj]; [| cbn [andb]; lra].
  unfold DnlResidual.before in Hb. lia.
Qed.

Lemma Dnl_first_negative_reported_witness :
  Dnl.FormFunctionLocal DnlForms.DomeCMB0 DnlForms.M_CMBModel0
    DnlForms.FormBedLocal0 DnlForms.info5 (DnlForms.iterate5 (-1))
    DnlForms.zero2 (DnlForms.user5 true false) DnlForms.scratch5
  = Err (Dnl.admissible_error (-1) 2 2).
Proof.
  rewrite <- (iterate5_2_2 (-1)) at 2.
  apply Dnl_first_negative_reported.
  - reflexivity.
  - exact examined_2_2.
  - rewrite iterate5_2_2. lra.
  - intros j k _ Hb. apply iterate5_before. exact Hb.
Defined.

Lemma run5 (aHin FF0 : Array2) (scr : Dnl.Scratch) :
  exists st,
    Dnl.FormFunctionLocal DnlForms.DomeCMB0 DnlForms.M_CMBModel0
      DnlForms.FormBedLocal0 DnlForms.info5 aHin FF0
      (DnlForms.user5 false false) scr = Ok st.
Proof.
  destruct (stage_loop_succeeds DnlForms.info5 (DnlForms.user5 false false)
              aHin (FF0, Dnl.aH0 scr) (or_introl eq_refl)) as [s1 Hs1].
  destruct (FormFunctionLocal_succeeds DnlForms.DomeCMB0 DnlForms.M_CMBModel0
              DnlForms.FormBedLocal0 DnlForms.info5 aHin FF0
              (DnlForms.user5 false false) scr s1 Hs1
              (or_intror (ex_intro _ DnlForms.zero2 eq_refl)))
    as (st & Hrun & _).
  exists st. exact Hrun.
Qed.

Lemma Dnl_interior_residual_witness :
  exists st,
    Dnl.FormFunctionLocal DnlForms.DomeCMB0 DnlForms.M_CMBModel0
      DnlForms.FormBedLocal0 DnlForms.info5 (DnlForms.iterate5 (-1))
      DnlForms.zero2 (DnlForms.user5 false false) DnlForms.scratch5 = Ok st
    /\ Dnl.FF st 2%Z 2%Z
       = DnlResidual.residual_at DnlForms.DomeCMB0 DnlForms.M_CMBModel0
           DnlForms.info5 (DnlForms.user5 false false)
           (DnlResidual.staged DnlForms.info5 (DnlForms.iterate5 (-1)))
           (Dnl.ab st) 2 2.
Proof.
  destruct (run5 (DnlForms.iterate5 (-1)) DnlForms.zero2 DnlForms.scratch5)
    as [st Hrun].
  exists st. split; [exact Hrun |].
  apply (Dnl_interior_residual _ _ _ _ _ _ _ _ _ _ _ Hrun); cbn; lia.
Defined.

Lemma Dnl_interior_ignores_boundary_values_witness :
  exists st st',
    Dnl.FormFunctionLocal DnlForms.DomeCMB0 DnlForms.M_CMBModel0
      DnlForms.FormBedLocal0 DnlForms.info5 (DnlForms.iterate5 (-1))
      DnlForms.zero2 (DnlForms.user5 false false) DnlForms.scratch5 = Ok st
    /\ Dnl.FormFunctionLocal DnlForms.DomeCMB0 DnlForms.M_CMBModel0
         DnlForms.FormBedLocal0 DnlForms.info5
         (fun k j => if Dnl.on_boundary DnlForms.info5 j k then 100
                     else DnlForms.iterate5 (-1) k j)
         (fun _ _ => 7) (DnlForms.user5 false false) DnlForms.scratch5
       = Ok st'
    /\ Dnl.FF st 2%Z 2%Z = Dnl.FF st' 2%Z 2%Z.
Proof.
  destruct (run5 (DnlForms.iterate5 (-1)) DnlForms.zero2 DnlForms.scratch5)
    as [st Hrun].
  destruct (run5 (fun k j => if Dnl.on_boundary DnlForms.info5 j k then 100
                             else DnlForms.iterate5 (-1) k j)
              (fun _ _ => 7) DnlForms.scratch5) as [st' Hrun'].
  exists st, st'. split; [exact Hrun |]. split; [exact Hrun' |].
  apply (Dnl_interior_ignores_boundary_values _ _ _ _ _ _ _ _ _ _ _ _ _ _ _
           Hrun Hrun').
  - intros k' j' Hb. rewrite Hb. reflexivity.
  - reflexivity.
  - cbn. lia.
  - cbn. lia.
  - cbn. lia.
  - cbn. lia.
Defined.

Lemma Dnl_bed_array_from_provider_witness :
  exists st,
    Dnl.FormFunctionLocal DnlForms.DomeCMB0 DnlForms.M_CMBModel0
      DnlForms.FormBedLocal0 DnlForms.info5 (DnlForms.iterate5 (-1))
      DnlForms.zero2 (DnlForms.user5 false false) DnlForms.scratch5 = Ok st
    /\ DnlForms.FormBedLocal0 DnlForms.info5 1
         (Dnl.ab0 DnlForms.scratch5) (DnlForms.user5 false false)
       = Ok (Dnl.ab st).
Proof.
  destruct (run5 (DnlForms.iterate5 (-1)) DnlForms.zero2 DnlForms.scratch5)
    as [st Hrun].
  exists st. split; [exact Hrun |].
  exact (Dnl_bed_array_from_provider _ _ _ _ _ _ _ _ _ Hrun).
Defined.

(** ** The obstacle and the bounds of [dnl.c] *)

Section DnlObstacle.

Import Dnl DnlForms DnlResidual.

Lemma hemisphere_psi0 : PetscSqrtReal (1.0 - 0.9 * 0.9) = sqrt 0.19.
Proof. unfold PetscSqrtReal. f_equal. lra. Qed.

(** The obstacle is a function of r = x^2 + y^2.  It is 1 at the origin;
    for r <= 0.9 it is sqrt(1 - r), between sqrt(0.1) and 1; for r > 0.9
    it is the line sqrt(0.19) - 0.9/sqrt(0.19) (r - 0.9), below
    sqrt(0.19).  The two pieces do not meet on the circle r = 0.9, where
    the value is sqrt(0.1) < sqrt(0.19). *)
Theorem Dnl_hemisphere_shape (x y : R) :
  let r := x * x + y * y in
  hemisphere 0 0 = 1
  /\ (r <= 0.9 ->
      hemisphere x y = sqrt (1 - r) /\ sqrt 0.1 <= hemisphere x y <= 1)
  /\ (0.9 < r ->
      hemisphere x y = sqrt 0.19 - 0.9 / sqrt 0.19 * (r - 0.9)
      /\ hemisphere x y < sqrt 0.19)
  /\ (r = 0.9 -> hemisphere x y = sqrt 0.1)
  /\ sqrt 0.1 < sqrt 0.19.
Proof.
  intros r.
  assert (Hin : forall a b, a * a + b * b <= 0.9 ->
                  hemisphere a b = sqrt (1 - (a * a + b * b))).
  { intros a b Hab. unfold hemisphere. cbv zeta.
    destruct (Rle_dec (a * a + b * b) 0.9) as [_ | Hn]; [| contradiction].
    unfold PetscSqrtReal. f_equal. lra. }
  assert (Hs19 : 0 < sqrt 0.19) by (apply sqrt_lt_R0; lra).
  split; [| split; [| split; [| split]]].
  - rewrite Hin by lra. replace (1 - (0 * 0 + 0 * 0)) with 1 by ring.
    apply sqrt_1.
  - intros Hr. rewrite (Hin x y Hr). fold r. split; [reflexivity |]. split.
    + apply sqrt_le_1_alt. lra.
    + assert (Hr0 : 0 <= r) by (unfold r; nra).
      apply Rle_trans with (sqrt 1); [apply sqrt_le_1_alt; lra |].
      rewrite sqrt_1. lra.
  - intros Hr. unfold hemisphere. cbv zeta. fold r.
    destruct (Rle_dec r 0.9) as [Hle | _]; [lra |].
    rewrite hemisphere_psi0. split; [unfold Rdiv; ring |].
    assert (0 < 0.9 / sqrt 0.19 * (r - 0.9)).
    { apply Rmult_lt_0_compat; [| lra].
      unfold Rdiv. apply Rmult_lt_0_compat; [lra |].
      apply Rinv_0_lt_compat. exact Hs19. }
    unfold Rdiv in *. lra.
  - intros Hr. rewrite (Hin x y) by (fold r; lra). fold r. rewrite Hr.
    f_equal. lra.
  - apply sqrt_lt_1_alt. lra.
Qed.

Lemma Dnl_hemisphere_shape_witness :
  hemisphere 0.5 0.5 = sqrt (1 - (0.5 * 0.5 + 0.5 * 0.5))
  /\ hemisphere 1 1 < sqrt 0.19.
Proof.
  split.
  - apply (Dnl_hemisphere_shape 0.5 0.5). lra.
  - apply (Dnl_hemisphere_shape 1 1). lra.
Defined.

(** A loop nest that fills the owned nodes with a function of the node
    coordinates. *)
Lemma grid_fill_at (info : DMDALocalInfo) (f : R -> R -> R)
  (x0 y0 dx dy : R) (a : Array2) (j i : Z) :
  let r := for_pure (ys info) (ys info + ym info) (fun j a =>
             for_pure (xs info) (xs info + xm info) (fun i a =>
               upd2 a j i (f (x0 + IZR i * dx) (y0 + IZR j * dy))) a) a in
  ((ys info <= j < ys info + ym info)%Z /\ (xs info <= i < xs info + xm info)%Z ->
   r j i = f (x0 + IZR i * dx) (y0 + IZR j * dy))
  /\ (~ ((ys info <= j < ys info + ym info)%Z
         /\ (xs info <= i < xs info + xm info)%Z) ->
      r j i = a j i).
Proof.
  intros r. unfold r.
  apply (for2_pure_pointwise (fun (A : Array2) k j => A k j)
           (fun j i _ => f (x0 + IZR i * dx) (y0 + IZR j * dy))
           (ys info) (ys info + ym info) (xs info) (xs info + xm info)
           (fun j i a => upd2 a j i (f (x0 + IZR i * dx) (y0 + IZR j * dy)))
           a).
  intros k1 j1 A _ _. split.
  - apply upd2_same.
  - intros k' j' Hne. apply upd2_other. exact Hne.
Qed.

(** [FormBounds] sets the lower bound at each owned node to the obstacle
    at the coordinates of the node, the nodes being spread evenly over the
    bounding box with the first column on its left edge and, on a grid of
    more than one column, the last column on its right edge; it leaves
    the entries of the lower bound outside the owned range as they were,
    and sets the upper bound to [PETSC_INFINITY] everywhere. *)
Theorem Dnl_FormBounds_nodes (PETSC_INFINITY : R) (info : DMDALocalInfo)
  (xmin ymin xmax ymax : R) (user : AppCtx) (aXl : Array2) (j i : Z) :
  let dx := (xmax - xmin) / IZR (mx info - 1) in
  let dy := (ymax - ymin) / IZR (my info - 1) in
  let lower :=
    fst (FormBounds PETSC_INFINITY info [xmin; ymin] [xmax; ymax] user aXl) in
  let upper :=
    snd (FormBounds PETSC_INFINITY info [xmin; ymin] [xmax; ymax] user aXl) in
  ((ys info <= j < ys info + ym info)%Z
   /\ (xs info <= i < xs info + xm info)%Z ->
   lower j i = psi user (xmin + IZR i * dx) (ymin + IZR j * dy))
  /\ (~ ((ys info <= j < ys info + ym info)%Z
         /\ (xs info <= i < xs info + xm info)%Z) ->
      lower j i = aXl j i)
  /\ upper j i = PETSC_INFINITY
  /\ xmin + IZR 0 * dx = xmin
  /\ ((1 < mx info)%Z -> xmin + IZR (mx info - 1) * dx = xmax).
Proof.
  intros dx dy lower upper.
  unfold lower, upper, FormBounds. cbv zeta. cbn [fst snd].
  autorewrite with tab. fold dx dy.
  pose proof (grid_fill_at info (psi user) xmin ymin dx dy aXl j i) as [Hin Hout].
  split; [exact Hin |]. split; [exact Hout |]. split; [reflexivity |].
  split; [ring |].
  intros Hmx. unfold dx.
  assert (IZR (mx info - 1) <> 0).
  { apply not_0_IZR. lia. }
  field. assumption.
Qed.

Lemma Dnl_FormBounds_nodes_witness :
  fst (FormBounds 1000 info5 [-2; -2] [2; 2] user_obstacle zero2) 2%Z 2%Z
  = hemisphere (-2 + IZR 2 * ((2 - -2) / IZR (mx info5 - 1)))
      (-2 + IZR 2 * ((2 - -2) / IZR (my info5 - 1))).
Proof.
  apply (Dnl_FormBounds_nodes 1000 info5 (-2) (-2) 2 2 user_obstacle zero2
           2 2).
  cbn. lia.
Defined.

(** [FormBed] fills the owned nodes with the bed elevation at the same
    node coordinates as [FormBounds] uses, and leaves the other entries
    as they were; when the bed and the obstacle are the same function it
    returns the lower bound of [FormBounds]. *)
Theorem Dnl_FormBed_nodes (PETSC_INFINITY : R) (info : DMDALocalInfo)
  (xmin ymin xmax ymax : R) (user : AppCtx) (ab : Array2) (j i : Z) :
  let dx := (xmax - xmin) / IZR (mx info - 1) in
  let dy := (ymax - ymin) / IZR (my info - 1) in
  let b := FormBed info [xmin; ymin] [xmax; ymax] user ab in
  ((ys info <= j < ys info + ym info)%Z
   /\ (xs info <= i < xs info + xm info)%Z ->
   b j i = bed user (xmin + IZR i * dx) (ymin + IZR j * dy))
  /\ (~ ((ys info <= j < ys info + ym info)%Z
         /\ (xs info <= i < xs info + xm info)%Z) ->
      b j i = ab j i)
  /\ (bed user = psi user ->
      b = fst (FormBounds PETSC_INFINITY info [xmin; ymin] [xmax; ymax]
                 user ab)).
Proof.
  intros dx dy b.
  unfold b, FormBed, FormBounds. cbv zeta. cbn [fst].
  autorewrite with tab. fold dx dy.
  pose proof (grid_fill_at info (bed user) xmin ymin dx dy ab j i) as [Hin Hout].
  split; [exact Hin |]. split; [exact Hout |].
  intros Heq. rewrite Heq. reflexivity.
Qed.

Lemma Dnl_FormBed_nodes_witness :
  FormBed info5 [-2; -2] [2; 2] user_obstacle zero2 2%Z 2%Z = 0.0.
Proof.
  destruct (Dnl_FormBed_nodes 0 info5 (-2) (-2) 2 2 user_obstacle zero2 2 2)
    as (Hin & _ & _).
  rewrite Hin; [reflexivity |]. cbn. lia.
Defined.

End DnlObstacle.

(** ** Upwinding and ice-free cells in [ice.c] *)

Section IceUpwindBounds.

Import Ice IceForms GridForms.

(** For an upwinding fraction in [0,1] the point where [Hup] is sampled
    stays in the element, so [Hup] lies between any bounds that hold at
    the four corners of the element: in particular it is non-negative for
    an admissible iterate. *)
Theorem Ice_Hup_within_corner_bounds (user : AppCtx) (aH : Array2)
  (j k c : Z) (gb : Grad) (lo hi : R) :
  0 <= lambda user <= 1 ->
  (0 <= c < 4)%Z ->
  lo <= aH k j <= hi ->
  lo <= aH k (j + 1)%Z <= hi ->
  lo <= aH (k + 1)%Z (j + 1)%Z <= hi ->
  lo <= aH (k + 1)%Z j <= hi ->
  lo <= Hup_at user aH j k c gb
          (fieldatpt j k (tabR locx c) (tabR locy c) aH) <= hi.
Proof.
  intros Hlam Hc H0 H1 H2 H3. unfold Hup_at. cbv zeta.
  assert (Hcases : c = 0%Z \/ c = 1%Z \/ c = 2%Z \/ c = 3%Z) by lia.
  destruct (Rgtb (lambda user) 0.0).
  - apply Ice_fieldatpt_convex; try assumption;
      unfold up_point; cbv zeta;
      destruct Hcases as [-> | [-> | [-> | ->]]];
      eval_tabZ; unfold locx, locy; autorewrite with tab; cbn [fst snd];
      try lra;
      match goal with
      | |- context [Rle_dec ?a ?b] => destruct (Rle_dec a b); lra
      end.
  - apply Ice_fieldatpt_convex; try assumption;
      destruct Hcases as [-> | [-> | [-> | ->]]];
      unfold locx, locy; autorewrite with tab; lra.
Qed.

Lemma Ice_Hup_within_corner_bounds_witness :
  0 <= Hup_at (IceInputs.user4 None) (IceInputs.const_field 1) 0 0 0
         (mkGrad 1 0)
         (fieldatpt 0 0 (tabR locx 0) (tabR locy 0) (IceInputs.const_field 1))
    <= 2.
Proof.
  apply Ice_Hup_within_corner_bounds;
    try (unfold IceInputs.const_field; lra).
  - cbn [lambda IceInputs.user4]. lra.
  - lia.
Defined.

(** Where the thickness is zero at the four corners of an element, and
    n > -2, the flux at every point of the element is zero whatever the
    bed: the diffusive part carries the factor |H|^(n+2) and the advective
    part the factor |Hup|^(n+2), both taken inside the element. *)
Theorem Ice_no_ice_no_flux (user : AppCtx) (dx dy : R) (aH ab : Array2)
  (k j c : Z) :
  - 2 < n_ice user ->
  corners_const aH j k 0 ->
  flux_at user dx dy aH ab k j c = 0.
Proof.
  intros Hn Hzero.
  rewrite (Ice_flux_at_const_H user dx dy aH ab k j c 0 Hzero).
  unfold PetscAbsReal. rewrite Rabs_R0.
  rewrite PetscPowReal_zero_base by lra. ring.
Qed.

Lemma Ice_no_ice_no_flux_witness :
  flux_at (IceInputs.user4 None) 1 1 (IceInputs.const_field 0)
    IceInputs.bump_bed 1 1 0 = 0.
Proof.
  apply Ice_no_ice_no_flux.
  - cbn [n_ice IceInputs.user4]. lra.
  - unfold corners_const, IceInputs.const_field. repeat split.
Defined.

End IceUpwindBounds.
